(** * Browser-agent worker (browser_use_worker.py): a shallow embedding

    The worker is a line-oriented JSON server.  Its pure part (the
    send-keys token normaliser and the action sanitizer) is embedded as
    plain functions on strings and Python values.  Its effectful part
    (handlers, session manager, background run, dispatcher loop) is
    embedded as programs in a small free monad [prog] whose nodes are the
    effects the source performs: writing an envelope on stdout, reading or
    assigning the global [STATE], calling or awaiting the external engine,
    creating, polling and cancelling the background task.

    Conventions.
    - A Python [str] is a Rocq [string]; characters are code points below
      256 (Latin-1), which fixes what [strip] and [lower] do.
    - JSON and engine values are [pyval]; JSON numbers are integers;
      engine objects are opaque handles [PObj].
    - A dict is an association list in insertion order, looked up by its
      first matching key.
    - Library calls whose result the source does not determine (the
      engine, [os], [int], [re.sub], ...) are external calls answered by
      the environment.
    - [interp] runs one task at a time against an environment; the
      interleaving of the dispatcher with the background run is not
      modelled, a cancellation reaches the run as the answer to one of
      its awaits. *)

From Stdlib Require Import String Ascii List ZArith Bool Arith Lia.
From Stdlib Require Import Numbers.DecimalString.
Import ListNotations.
Local Open Scope string_scope.
Local Open Scope list_scope.
Set Warnings "-register-all".

(* ================================================================== *)
(** ** Python values *)
(* ================================================================== *)

Inductive pyval : Type :=
| PNone
| PBool (b : bool)
| PInt (z : Z)
| PStr (s : string)
| PList (l : list pyval)
| PDict (kvs : list (string * pyval))
| PObj (handle : nat).

(** [bool(v)] *)
Definition truthy (v : pyval) : bool :=
  match v with
  | PNone => false
  | PBool b => b
  | PInt z => negb (Z.eqb z 0)
  | PStr s => negb (String.eqb s "")
  | PList l => match l with [] => false | _ => true end
  | PDict kvs => match kvs with [] => false | _ => true end
  | PObj _ => true
  end.

Definition is_none (v : pyval) : bool :=
  match v with PNone => true | _ => false end.

(** [a or b] *)
Definition py_or (a b : pyval) : pyval := if truthy a then a else b.

Fixpoint assoc_get (kvs : list (string * pyval)) (key : string) : option pyval :=
  match kvs with
  | [] => None
  | (k, v) :: rest => if String.eqb k key then Some v else assoc_get rest key
  end.

(** [d.get(key, default)] on a value known to be a dict. *)
Definition dict_get (kvs : list (string * pyval)) (key : string) (default : pyval) : pyval :=
  match assoc_get kvs key with
  | Some v => v
  | None => default
  end.

(* ================================================================== *)
(** ** Python string operations *)
(* ================================================================== *)

Definition code (c : ascii) : nat := nat_of_ascii c.

(** [c.isspace()] on code points below 256. *)
Definition py_isspace (c : ascii) : bool :=
  let n := code c in
  (((9 <=? n) && (n <=? 13)) || ((28 <=? n) && (n <=? 32))
   || (n =? 133) || (n =? 160))%nat.

Fixpoint lstrip (s : string) : string :=
  match s with
  | String c s' => if py_isspace c then lstrip s' else s
  | EmptyString => EmptyString
  end.

Fixpoint rstrip (s : string) : string :=
  match s with
  | String c s' =>
      match rstrip s' with
      | EmptyString => if py_isspace c then EmptyString else String c EmptyString
      | r => String c r
      end
  | EmptyString => EmptyString
  end.

(** [s.strip()] *)
Definition py_strip (s : string) : string := rstrip (lstrip s).

Definition lower_char (c : ascii) : ascii :=
  let n := code c in
  if (((65 <=? n) && (n <=? 90))
      || ((192 <=? n) && (n <=? 222) && negb (n =? 215)))%nat
  then ascii_of_nat (n + 32) else c.

(** [s.lower()] *)
Fixpoint py_lower (s : string) : string :=
  match s with
  | String c s' => String (lower_char c) (py_lower s')
  | EmptyString => EmptyString
  end.

(** [ch in s] for a one-character needle. *)
Fixpoint contains_char (ch : ascii) (s : string) : bool :=
  match s with
  | String c s' => Ascii.eqb c ch || contains_char ch s'
  | EmptyString => false
  end.

(** [s.split(sep)] for a one-character separator: [acc] is the field
    being read. *)
Fixpoint split_on (sep : ascii) (acc : string) (s : string) : list string :=
  match s with
  | String c s' =>
      if Ascii.eqb c sep then acc :: split_on sep "" s'
      else split_on sep (acc ++ String c "")%string s'
  | EmptyString => [acc]
  end.

Definition py_split (sep : ascii) (s : string) : list string := split_on sep "" s.

(** [sep.join(parts)] *)
Fixpoint py_join (sep : string) (parts : list string) : string :=
  match parts with
  | [] => ""
  | [p] => p
  | p :: rest => (p ++ sep ++ py_join sep rest)%string
  end.

Definition in_strs (s : string) (l : list string) : bool :=
  existsb (String.eqb s) l.

(** [s[:n]] for [0 <= n]. *)
Definition py_prefix (n : nat) (s : string) : string := substring 0 n s.

(** [s[i:]] *)
Fixpoint py_drop (i : nat) (s : string) : string :=
  match i, s with
  | 0, _ => s
  | S i', String _ s' => py_drop i' s'
  | S _, EmptyString => EmptyString
  end.

(** [s[i:j]] for [0 <= i], [0 <= j]. *)
Definition py_slice (i j : nat) (s : string) : string := substring i (j - i) s.

Definition Z_to_string (z : Z) : string := NilZero.string_of_int (Z.to_int z).

(* ================================================================== *)
(** ** _normalize_send_keys_token *)
(* ================================================================== *)

Definition simple_map : list (string * string) :=
  [ ("enter", "Enter"); ("return", "Enter"); ("tab", "Tab");
    ("escape", "Escape"); ("esc", "Escape"); ("backspace", "Backspace");
    ("delete", "Delete"); ("space", "Space"); ("pagedown", "PageDown");
    ("pageup", "PageUp"); ("arrowup", "ArrowUp"); ("arrowdown", "ArrowDown");
    ("arrowleft", "ArrowLeft"); ("arrowright", "ArrowRight");
    ("home", "Home"); ("end", "End") ].

Fixpoint str_lookup (m : list (string * string)) (key : string) : option string :=
  match m with
  | [] => None
  | (k, v) :: rest => if String.eqb k key then Some v else str_lookup rest key
  end.

(** The [if / elif] chain on [pl = part.lower()]: the modifier a part
    names, if any. *)
Definition modifier_of (pl : string) : option string :=
  if in_strs pl ["ctrl"; "control"] then Some "Control"
  else if in_strs pl ["cmd"; "command"; "meta"] then Some "Meta"
  else if in_strs pl ["alt"; "option"] then Some "Alt"
  else if String.eqb pl "shift" then Some "Shift"
  else None.

(** The [for part in parts] loop: modifiers accumulate in order, every
    other part overwrites [key]. *)
Fixpoint scan_parts (parts : list string) (mods : list string) (key : option string)
  : list string * option string :=
  match parts with
  | [] => (mods, key)
  | part :: rest =>
      match modifier_of (py_lower part) with
      | Some m => scan_parts rest (mods ++ [m]) key
      | None => scan_parts rest mods (Some part)
      end
  end.

(** [[p.strip() for p in t.split("+") if p.strip()]] *)
Definition plus_parts (t : string) : list string :=
  filter (fun p => negb (String.eqb p ""))
         (map py_strip (py_split "+"%char t)).

Definition _normalize_send_keys_token (token : string) : option string :=
  let t := py_strip token in
  if String.eqb t "" then None
  else
    let lower := py_lower t in
    match str_lookup simple_map lower with
    | Some v => Some v
    | None =>
        if contains_char "+"%char t then
          let parts := plus_parts t in
          match parts with
          | [] => None
          | _ =>
              match scan_parts parts [] None with
              | (_, None) => None
              | (mods, Some key) =>
                  let key' := if (String.length key =? 1)%nat then py_lower key else key in
                  Some (py_join "+" (mods ++ [key']))
              end
          end
        else None
    end.

(* ================================================================== *)
(** ** _SPECIAL_KEY_PATTERN: the regular expression [\{([^{}]+)\}] *)
(* ================================================================== *)

Record re_match : Type := mk_match {
  m_start : nat;        (* match.start() *)
  m_end : nat;          (* match.end() *)
  m_group1 : string     (* match.group(1) *)
}.

Definition is_brace (c : ascii) : bool :=
  Ascii.eqb c "{"%char || Ascii.eqb c "}"%char.

(** The longest run of non-brace characters at the head of [s], and what
    follows it. *)
Fixpoint span_token (s : string) : string * string :=
  match s with
  | String c s' =>
      if is_brace c then (EmptyString, s)
      else let (tok, rest) := span_token s' in (String c tok, rest)
  | EmptyString => (EmptyString, EmptyString)
  end.

(** The pattern anchored at the head of [s].  [[^{}]+] is greedy, and the
    character after the run is a brace or the end, so giving characters
    back can never make the closing brace match: the greedy attempt is
    the only one. *)
Definition match_here (s : string) : option string :=
  match s with
  | String c s' =>
      if Ascii.eqb c "{"%char then
        match span_token s' with
        | (EmptyString, _) => None
        | (tok, String c' _) => if Ascii.eqb c' "}"%char then Some tok else None
        | (_, EmptyString) => None
        end
      else None
  | EmptyString => None
  end.

(** [finditer]: leftmost non-overlapping matches.  [pos] is the index of
    the head of [s] in the whole text; [skip] counts the characters still
    inside the previous match. *)
Fixpoint finditer_at (pos skip : nat) (s : string) : list re_match :=
  match s with
  | EmptyString => []
  | String _ s' =>
      match skip with
      | S k => finditer_at (S pos) k s'
      | 0 =>
          match match_here s with
          | Some tok =>
              mk_match pos (pos + String.length tok + 2) tok
                :: finditer_at (S pos) (String.length tok + 1) s'
          | None => finditer_at (S pos) 0 s'
          end
      end
  end.

Definition finditer (text : string) : list re_match := finditer_at 0 0 text.

(* ================================================================== *)
(** ** _sanitize_actions *)
(* ================================================================== *)

(** A planned action is an engine object (a pydantic model).  The
    sanitizer observes it only through [model_dump(exclude_unset=True)],
    which returns a dict or raises; [ActionModel.model_validate(d)]
    builds the action whose dump is [d]. *)
Record action : Type := mk_action { model_dump : option pyval }.

Definition model_validate (d : pyval) : action := mk_action (Some d).

(** [{"index": index, "text": text}], with ["clear"] added when asked. *)
Definition input_payload_of (index : pyval) (text : string) (clear : option pyval) : pyval :=
  PDict ([("index", index); ("text", PStr text)]
           ++ match clear with Some c => [("clear", c)] | None => [] end).

Definition input_action (index : pyval) (text : string) (clear : option pyval) : action :=
  model_validate (PDict [("input", input_payload_of index text clear)]).

Definition send_keys_action (keys : string) : action :=
  model_validate (PDict [("send_keys", PDict [("keys", PStr keys)])]).

(** [payload["clear"] = clear_value] under
    [if not has_typed_anything and clear_value is not None]. *)
Definition clear_for (has_typed_anything : bool) (clear_value : pyval) : option pyval :=
  if negb has_typed_anything && negb (is_none clear_value) then Some clear_value else None.

(** The [for match in matches] loop.  It returns what was appended to
    [sanitized], the final [cursor] and the final [has_typed_anything]. *)
Fixpoint sanitize_matches (raw_text : string) (index clear_value : pyval)
         (matches : list re_match) (cursor : nat) (has_typed_anything : bool)
  : list action * nat * bool :=
  match matches with
  | [] => ([], cursor, has_typed_anything)
  | m :: rest =>
      let prefix := py_slice cursor (m_start m) raw_text in
      let '(out1, typed1) :=
        if negb (String.eqb prefix "") then
          ([input_action index prefix (clear_for has_typed_anything clear_value)], true)
        else ([], has_typed_anything) in
      let token := m_group1 m in
      let '(out2, typed2) :=
        match _normalize_send_keys_token token with
        | None =>
            let literal := ("{" ++ token ++ "}")%string in
            if negb (String.eqb literal "") then
              ([input_action index literal (clear_for typed1 clear_value)], true)
            else ([], typed1)
        | Some normalized =>
            let focus :=
              if negb typed1 then
                [input_action index "" (if is_none clear_value then None else Some clear_value)]
              else [] in
            (focus ++ [send_keys_action normalized], true)
        end in
      let '(out3, cursor', typed3) :=
        sanitize_matches raw_text index clear_value rest (m_end m) typed2 in
      (out1 ++ out2 ++ out3, cursor', typed3)
  end.

(** One iteration of [for action in actions]: what it appends. *)
Definition sanitize_action (a : action) : list action :=
  match model_dump a with
  | None => [a]
  | Some dumped =>
      match dumped with
      | PDict top =>
          match dict_get top "input" PNone with
          | PDict input_payload =>
              match dict_get input_payload "text" PNone with
              | PStr raw_text =>
                  if negb (contains_char "{"%char raw_text)
                     || negb (contains_char "}"%char raw_text)
                  then [a]
                  else
                    match finditer raw_text with
                    | [] => [a]
                    | matches =>
                        let index := dict_get input_payload "index" PNone in
                        let clear_value := dict_get input_payload "clear" PNone in
                        let '(out, cursor, typed) :=
                          sanitize_matches raw_text index clear_value matches 0 false in
                        let suffix := py_drop cursor raw_text in
                        if negb (String.eqb suffix "") then
                          out ++ [input_action index suffix None]
                        else if negb typed then out ++ [a]
                        else out
                    end
              | _ => [a]
              end
          | _ => [a]
          end
      | _ => [a]
      end
  end.

Definition _sanitize_actions (actions : list action) : list action :=
  flat_map sanitize_action actions.


(* ================================================================== *)
(** ** Vocabulary of the sanitizer's properties *)
(* ================================================================== *)

(** The string holds no brace. *)
Definition brace_free (s : string) : bool :=
  negb (contains_char "{"%char s) && negb (contains_char "}"%char s).

(** The dumped form of a typed-text action: an ["input"] dict holding the
    text, with [index] and [clear] read by [.get]. *)
Definition typed_text_action (a : action) (raw_text : string) (index clear_value : pyval) : Prop :=
  exists top input_payload,
    model_dump a = Some (PDict top) /\
    dict_get top "input" PNone = PDict input_payload /\
    dict_get input_payload "text" PNone = PStr raw_text /\
    dict_get input_payload "index" PNone = index /\
    dict_get input_payload "clear" PNone = clear_value.

(** [clear_value] as it is copied: absent when it is [None]. *)
Definition clear_flag (clear_value : pyval) : option pyval :=
  if is_none clear_value then None else Some clear_value.

(** The action carries a ["clear"] key in its ["input"] payload. *)
Definition has_clear (a : action) : bool :=
  match model_dump a with
  | Some (PDict top) =>
      match dict_get top "input" PNone with
      | PDict ip => match assoc_get ip "clear" with Some _ => true | None => false end
      | _ => false
      end
  | _ => false
  end.

Definition no_clear (a : action) : Prop := has_clear a = false.

(** The cursor when the loop reaches the match that follows [before]. *)
Definition cursor_after (before : list re_match) (cursor : nat) : nat :=
  fold_left (fun _ m => m_end m) before cursor.

Fixpoint all_chars (p : ascii -> bool) (s : string) : bool :=
  match s with
  | String c s' => p c && all_chars p s'
  | EmptyString => true
  end.

Definition is_plus (c : ascii) : bool := Ascii.eqb c "+"%char.

(** A segment of a combination: non-empty, no [+], no white space. *)
Definition plain (s : string) : bool :=
  negb (s =? "") && all_chars (fun c => negb (is_plus c) && negb (py_isspace c)) s.

Definition no_space (s : string) : bool := all_chars (fun c => negb (py_isspace c)) s.
Definition no_plus (s : string) : bool := all_chars (fun c => negb (is_plus c)) s.

(** The canonical name of a modifier alias. *)
Definition canonical (m : string) : string :=
  match modifier_of (py_lower m) with Some c => c | None => "" end.

Definition is_modifier (m : string) : bool :=
  match modifier_of (py_lower m) with Some _ => true | None => false end.

Definition hello_action : action :=
  mk_action (Some (PDict [("input",
     PDict [("index", PInt 5); ("text", PStr "Hello{Enter}World"); ("clear", PBool true)])])).

Definition ctrl_l_action (cv : list (string * pyval)) : action :=
  mk_action (Some (PDict [("input",
     PDict ([("index", PInt 2); ("text", PStr "{Ctrl+L}")] ++ cv))])).

Definition literal_action (text : string) (index : pyval) : action :=
  mk_action (Some (PDict [("input", PDict [("index", index); ("text", PStr text)])])).

(* ================================================================== *)
(** ** Exceptions, external calls and the worker's global state *)
(* ================================================================== *)

Inductive exn_class : Type :=
| CancelledError      (* asyncio.CancelledError: a BaseException, not an Exception *)
| TypeError
| AttributeError
| OSError
| RuntimeError
| OtherError.

Record exn : Type := mk_exn {
  cls : exn_class;
  msg : string          (* str(e) *)
}.

(** What [except Exception] catches. *)
Definition is_exception (e : exn) : bool :=
  match cls e with CancelledError => false | _ => true end.

Definition is_class (c : exn_class) (e : exn) : bool :=
  match c, cls e with
  | CancelledError, CancelledError | TypeError, TypeError
  | AttributeError, AttributeError | OSError, OSError
  | RuntimeError, RuntimeError | OtherError, OtherError => true
  | _, _ => false
  end.

(** A call that leaves the source: the engine, the operating system or a
    builtin, named with its arguments; [MultiAct] is the agent's original
    [multi_act] with the actions it is given. *)
Inductive ext_op : Type :=
| Ext (name : string) (args : list pyval)
| MultiAct (acts : list action).

(** What the environment answers: a value, or a raised exception. *)
Inductive answer : Type :=
| Val (v : pyval)
| Exc (e : exn).

Definition task := nat.

(** [@dataclass WorkerState] *)
Record WorkerState : Type := mk_state {
  browser : pyval;
  agent : pyval;
  run_task : option task;
  current_run_id : option string;
  browser_user_data_dir : pyval;
  chrome_executable_path : pyval;
  chrome_args : list string;
  profile_directory : option string
}.

(** [STATE = WorkerState()]: the state the process starts in. *)
Definition STATE : WorkerState :=
  mk_state PNone PNone None None PNone PNone [] None.

Definition set_browser v (s : WorkerState) :=
  mk_state v (agent s) (run_task s) (current_run_id s) (browser_user_data_dir s)
           (chrome_executable_path s) (chrome_args s) (profile_directory s).
Definition set_agent v (s : WorkerState) :=
  mk_state (browser s) v (run_task s) (current_run_id s) (browser_user_data_dir s)
           (chrome_executable_path s) (chrome_args s) (profile_directory s).
Definition set_run_task v (s : WorkerState) :=
  mk_state (browser s) (agent s) v (current_run_id s) (browser_user_data_dir s)
           (chrome_executable_path s) (chrome_args s) (profile_directory s).
Definition set_current_run_id v (s : WorkerState) :=
  mk_state (browser s) (agent s) (run_task s) v (browser_user_data_dir s)
           (chrome_executable_path s) (chrome_args s) (profile_directory s).
Definition set_browser_user_data_dir v (s : WorkerState) :=
  mk_state (browser s) (agent s) (run_task s) (current_run_id s) v
           (chrome_executable_path s) (chrome_args s) (profile_directory s).
Definition set_chrome_executable_path v (s : WorkerState) :=
  mk_state (browser s) (agent s) (run_task s) (current_run_id s) (browser_user_data_dir s)
           v (chrome_args s) (profile_directory s).
Definition set_chrome_args v (s : WorkerState) :=
  mk_state (browser s) (agent s) (run_task s) (current_run_id s) (browser_user_data_dir s)
           (chrome_executable_path s) v (profile_directory s).
Definition set_profile_directory v (s : WorkerState) :=
  mk_state (browser s) (agent s) (run_task s) (current_run_id s) (browser_user_data_dir s)
           (chrome_executable_path s) (chrome_args s) v.

(** The keyword arguments of [_run_agent]. *)
Record run_args : Type := mk_run_args {
  run_id : string;
  ra_task : string;
  max_steps : option Z;
  use_browser_use_llm : bool;
  browser_use_model : option string;
  openai_api_key : option string;
  openai_base_url : option string;
  openai_model : option string;
  headless : bool;
  window_size : pyval
}.

(* ================================================================== *)
(** ** Programs *)
(* ================================================================== *)

(** The effects of the worker's code.  [Await] is a suspension point (an
    [await] on the engine): other tasks may run there and a cancellation
    request is delivered there, as the exception the environment answers.
    [Call] is a synchronous call out of the source. *)
Inductive prog (A : Type) : Type :=
| Ret (a : A)
| Raise (e : exn)
| Write (m : pyval) (k : prog A)                   (* _write(obj) *)
| Get (k : WorkerState -> prog A)                  (* read STATE *)
| Modify (f : WorkerState -> WorkerState) (k : prog A)   (* STATE.field = v *)
| Call (op : ext_op) (k : answer -> prog A)
| Await (op : ext_op) (k : answer -> prog A)
| CreateTask (args : run_args) (k : task -> prog A) (* asyncio.create_task(_run_agent(...)) *)
| TaskDone (t : task) (k : bool -> prog A)         (* t.done() *)
| TaskCancel (t : task) (k : prog A).              (* t.cancel() *)

Arguments Ret {A} a.
Arguments Raise {A} e.
Arguments Write {A} m k.
Arguments Get {A} k.
Arguments Modify {A} f k.
Arguments Call {A} op k.
Arguments Await {A} op k.
Arguments CreateTask {A} args k.
Arguments TaskDone {A} t k.
Arguments TaskCancel {A} t k.

Fixpoint bind {A B} (p : prog A) (f : A -> prog B) : prog B :=
  match p with
  | Ret a => f a
  | Raise e => Raise e
  | Write m k => Write m (bind k f)
  | Get k => Get (fun s => bind (k s) f)
  | Modify g k => Modify g (bind k f)
  | Call op k => Call op (fun a => bind (k a) f)
  | Await op k => Await op (fun a => bind (k a) f)
  | CreateTask args k => CreateTask args (fun t => bind (k t) f)
  | TaskDone t k => TaskDone t (fun b => bind (k b) f)
  | TaskCancel t k => TaskCancel t (bind k f)
  end.

(** [try: p  except <any>: h e]; a handler that does not match an
    exception re-raises it. *)
Fixpoint catch {A} (p : prog A) (h : exn -> prog A) : prog A :=
  match p with
  | Ret a => Ret a
  | Raise e => h e
  | Write m k => Write m (catch k h)
  | Get k => Get (fun s => catch (k s) h)
  | Modify g k => Modify g (catch k h)
  | Call op k => Call op (fun a => catch (k a) h)
  | Await op k => Await op (fun a => catch (k a) h)
  | CreateTask args k => CreateTask args (fun t => catch (k t) h)
  | TaskDone t k => TaskDone t (fun b => catch (k b) h)
  | TaskCancel t k => TaskCancel t (catch k h)
  end.

(** [try: p  finally: f] *)
Fixpoint finally {A} (p : prog A) (f : prog unit) : prog A :=
  match p with
  | Ret a => bind f (fun _ => Ret a)
  | Raise e => bind f (fun _ => Raise e)
  | Write m k => Write m (finally k f)
  | Get k => Get (fun s => finally (k s) f)
  | Modify g k => Modify g (finally k f)
  | Call op k => Call op (fun a => finally (k a) f)
  | Await op k => Await op (fun a => finally (k a) f)
  | CreateTask args k => CreateTask args (fun t => finally (k t) f)
  | TaskDone t k => TaskDone t (fun b => finally (k b) f)
  | TaskCancel t k => TaskCancel t (finally k f)
  end.

(** [try: p  except Exception: h e] *)
Definition try_except {A} (p : prog A) (h : exn -> prog A) : prog A :=
  catch p (fun e => if is_exception e then h e else Raise e).

(** [try: p  except C: h e] for one class [C]. *)
Definition try_except_class {A} (c : exn_class) (p : prog A) (h : exn -> prog A) : prog A :=
  catch p (fun e => if is_class c e then h e else Raise e).

Declare Scope prog_scope.
Delimit Scope prog_scope with prog.
Notation "x <- p ;; k" := (bind p (fun x => k))
  (at level 61, p at next level, right associativity) : prog_scope.
Notation "p ;;; k" := (bind p (fun _ => k))
  (at level 61, right associativity) : prog_scope.
Local Open Scope prog_scope.

Definition _write (m : pyval) : prog unit := Write m (Ret tt).
Definition get_state : prog WorkerState := Get (fun s => Ret s).
Definition assign (f : WorkerState -> WorkerState) : prog unit := Modify f (Ret tt).
Definition pass : prog unit := Ret tt.

Definition of_answer (a : answer) : prog pyval :=
  match a with Val v => Ret v | Exc e => Raise e end.

(** A synchronous external call: its value, or the exception it raises. *)
Definition call (name : string) (args : list pyval) : prog pyval :=
  Call (Ext name args) of_answer.

(** An awaited external call. *)
Definition await (name : string) (args : list pyval) : prog pyval :=
  Await (Ext name args) of_answer.

(** [for x in xs: body x] *)
Fixpoint for_each {X} (xs : list X) (body : X -> prog unit) : prog unit :=
  match xs with
  | [] => Ret tt
  | x :: rest => body x ;;; for_each rest body
  end.

(* ------------------------------------------------------------------ *)
(** *** Builtins on Python values *)

Definition type_name (v : pyval) : string :=
  match v with
  | PNone => "NoneType" | PBool _ => "bool" | PInt _ => "int" | PStr _ => "str"
  | PList _ => "list" | PDict _ => "dict" | PObj _ => "object"
  end.

(** [d.get(key, default)]: only a dict has [.get]. *)
Definition py_get (d : pyval) (key : string) (default : pyval) : prog pyval :=
  match d with
  | PDict kvs => Ret (dict_get kvs key default)
  | _ => Raise (mk_exn AttributeError
                  ("'" ++ type_name d ++ "' object has no attribute 'get'")%string)
  end.

(** [str(v)]: the text of [None], booleans, integers and strings is
    fixed; the representation of containers and engine objects is the
    runtime's. *)
Definition py_str (v : pyval) : prog string :=
  match v with
  | PStr s => Ret s
  | PNone => Ret "None"
  | PBool true => Ret "True"
  | PBool false => Ret "False"
  | PInt z => Ret (Z_to_string z)
  | _ => Call (Ext "str" [v])
              (fun a => match a with
                        | Val (PStr s) => Ret s
                        | Val _ => Raise (mk_exn TypeError "__str__ returned non-string")
                        | Exc e => Raise e
                        end)
  end.

(** [int(v)]: integers and booleans convert, [None] and containers
    raise [TypeError], parsing a string is the runtime's. *)
Definition py_int (v : pyval) : prog Z :=
  match v with
  | PInt z => Ret z
  | PBool b => Ret (if b then 1%Z else 0%Z)
  | PNone | PList _ | PDict _ =>
      Raise (mk_exn TypeError
        ("int() argument must be a string, a bytes-like object or a real number, not '"
           ++ type_name v ++ "'")%string)
  | _ => Call (Ext "int" [v])
              (fun a => match a with
                        | Val (PInt z) => Ret z
                        | Val _ => Raise (mk_exn TypeError "__int__ returned non-int")
                        | Exc e => Raise e
                        end)
  end.

(** [a == b]: decided for [None] and strings, the runtime's otherwise. *)
Definition py_eq (a b : pyval) : prog bool :=
  match a, b with
  | PNone, PNone => Ret true
  | PStr x, PStr y => Ret (String.eqb x y)
  | PNone, PStr _ | PStr _, PNone => Ret false
  | _, _ => r <- Call (Ext "==" [a; b]) of_answer ;; Ret (truthy r)
  end.

(** [getattr(o, name, default)]: the default replaces an
    [AttributeError] only. *)
Definition getattr_default (o : pyval) (name : string) (default : pyval) : prog pyval :=
  Call (Ext "getattr" [o; PStr name])
       (fun a => match a with
                 | Val v => Ret v
                 | Exc e => if is_class AttributeError e then Ret default else Raise e
                 end).

(** [getattr(o, name)] and [o.name] *)
Definition getattr (o : pyval) (name : string) : prog pyval :=
  call "getattr" [o; PStr name].

(** [traceback.format_exc()] inside a handler. *)
Definition format_exc : prog pyval :=
  Call (Ext "traceback.format_exc" [])
       (fun a => Ret (match a with Val v => v | Exc _ => PStr "" end)).

(** The items a [for] loop or a slice sees in a value. *)
Definition py_list (v : pyval) : prog (list pyval) :=
  match v with
  | PList l => Ret l
  | _ => Raise (mk_exn TypeError ("'" ++ type_name v ++ "' object is not a sequence")%string)
  end.

(* ------------------------------------------------------------------ *)
(** *** Envelopes *)

Definition opt_str (o : option string) : pyval :=
  match o with Some s => PStr s | None => PNone end.

Definition envelope (id_ : pyval) (type : string) (payload : pyval) : pyval :=
  PDict [("id", id_); ("type", PStr type); ("payload", payload)].

(** [cmd_id or None] *)
Definition id_or_none (cmd_id : string) : pyval :=
  if String.eqb cmd_id "" then PNone else PStr cmd_id.

(** [_err(id_, message, tb=tb)] *)
Definition _err (id_ : pyval) (message : string) (tb : pyval) : prog unit :=
  let payload := [("message", PStr message)]
                   ++ (if truthy tb then [("traceback", tb)] else []) in
  _write (envelope id_ "error" (PDict payload)).

(** [_emit(run_id, payload)] *)
Definition _emit (run_id : string) (payload : list (string * pyval)) : prog unit :=
  _write (envelope (PStr run_id) "run_task.event" (PDict payload)).

Definition status_ok : pyval := PDict [("status", PStr "ok")].

(* ================================================================== *)
(** ** Session manager *)
(* ================================================================== *)

(** [async def _maybe_import_browser_use()] *)
Definition _maybe_import_browser_use : prog pyval :=
  try_except (call "import" [PStr "browser_use"])
    (fun _ => Raise (mk_exn RuntimeError
       "browser_use is not installed. Install with: pip install browser-use && uvx browser-use install")).

Definition chrome_candidates : list string :=
  [ "/Applications/Google Chrome.app/Contents/MacOS/Google Chrome";
    "/Applications/Google Chrome Beta.app/Contents/MacOS/Google Chrome Beta";
    "/Applications/Chromium.app/Contents/MacOS/Chromium";
    "/Applications/Brave Browser.app/Contents/MacOS/Brave Browser";
    "/Applications/Microsoft Edge.app/Contents/MacOS/Microsoft Edge";
    "/Applications/Arc.app/Contents/MacOS/Arc";
    "/Applications/Helium.app/Contents/MacOS/Helium" ].

Fixpoint first_existing (candidates : list string) : prog pyval :=
  match candidates with
  | [] => Ret PNone
  | path :: rest =>
      found <- call "os.path.exists" [PStr path] ;;
      if truthy found then Ret (PStr path) else first_existing rest
  end.

Definition _default_chrome_executable_path : prog pyval :=
  first_existing chrome_candidates.

Definition _normalize_chrome_args (args : pyval) : list string :=
  match args with
  | PList items =>
      flat_map (fun item =>
                  match item with
                  | PStr s => let s' := py_strip s in
                              if String.eqb s' "" then [] else [s']
                  | _ => []
                  end) items
  | _ => []
  end.

Definition profile_in_use : exn :=
  mk_exn RuntimeError
    "Selected browser profile is already in use. Close the other browser instance using this profile and try again.".

Definition _check_profile_lock (user_data_dir : pyval) : prog unit :=
  if negb (truthy user_data_dir) then Ret tt
  else
    lock_path <- call "os.path.join" [user_data_dir; PStr "SingletonLock"] ;;
    found <- call "os.path.exists" [lock_path] ;;
    if negb (truthy found) then Ret tt
    else
      imported <- try_except (call "import" [PStr "fcntl"] ;;; Ret true)
                             (fun _ => Ret false) ;;
      if negb imported then Ret tt
      else
        fd <- try_except (fd <- call "os.open" [lock_path; PStr "O_RDWR"] ;; Ret (Some fd))
                         (fun _ => Ret None) ;;
        match fd with
        | None => Ret tt
        | Some fd =>
            finally
              (finally
                 (try_except_class OSError
                    (call "fcntl.flock" [fd; PStr "LOCK_EX|LOCK_NB"] ;;; Ret tt)
                    (fun _ => Raise profile_in_use))
                 (try_except (call "fcntl.flock" [fd; PStr "LOCK_UN"] ;;; Ret tt)
                             (fun _ => pass)))
              (try_except (call "os.close" [fd] ;;; Ret tt) (fun _ => pass))
        end.

(** [fn()] followed, when it is a coroutine, by its [await]. *)
Definition _safe_awaitable_call (target : pyval) (method_name : string) : prog bool :=
  fn <- getattr_default target method_name PNone ;;
  if is_none fn then Ret false
  else
    try_except (Await (Ext method_name [target]) of_answer ;;; Ret true)
               (fun _ => Ret false).

Fixpoint first_method (target : pyval) (methods : list string) : prog unit :=
  match methods with
  | [] => Ret tt
  | method :: rest =>
      ok <- _safe_awaitable_call target method ;;
      if ok then Ret tt else first_method target rest
  end.

Definition _safe_stop_browser (b : pyval) : prog unit :=
  first_method b ["stop"; "close"; "shutdown"; "terminate"].

Definition _safe_kill_browser (b : pyval) : prog unit :=
  first_method b ["kill"; "stop"; "close"; "shutdown"; "terminate"].

(** [needle in hay] on strings. *)
Fixpoint is_prefix (p s : string) : bool :=
  match p, s with
  | EmptyString, _ => true
  | String a p', String b s' => Ascii.eqb a b && is_prefix p' s'
  | String _ _, EmptyString => false
  end.

Fixpoint contains_str (needle hay : string) : bool :=
  is_prefix needle hay ||
  match hay with
  | String _ hay' => contains_str needle hay'
  | EmptyString => false
  end.

(** [for a in extra: if a not in args: args.append(a)] *)
Fixpoint append_new (args extra : list string) : list string :=
  match extra with
  | [] => args
  | a :: rest => append_new (if in_strs a args then args else args ++ [a]) rest
  end.

Definition launch_args (s : WorkerState) : list string :=
  let args := append_new ["--disable-session-crashed-bubble"] (chrome_args s) in
  match profile_directory s with
  | Some d =>
      if String.eqb d "" then args
      else
        let flag := ("--profile-directory=" ++ d)%string in
        if in_strs flag args then args else args ++ [flag]
  | None => args
  end.

Definition str_list (l : list string) : pyval := PList (map PStr l).

Definition with_executable (executable_path : pyval) (kw : list (string * pyval))
  : list (string * pyval) :=
  if is_none executable_path then kw else kw ++ [("executable_path", executable_path)].

(** [reduced.pop(key, None)] for each key that the message names. *)
Definition drop_named (message : string) (kw : list (string * pyval)) : list (string * pyval) :=
  filter (fun kv =>
            negb (in_strs (fst kv) ["is_local"; "use_cloud"; "cloud_browser"]
                  && contains_str ("'" ++ fst kv ++ "'")%string message))
         kw.

Definition _ensure_browser (user_data_dir : pyval) (headless : bool) (window_size : pyval)
  : prog pyval :=
  s0 <- get_state ;;
  reused <-
    (if negb (is_none (browser s0)) then
       try_except
         (s1 <- get_state ;;
          pages <- await "get_pages" [browser s1] ;;
          (if negb (truthy pages) then
             s2 <- get_state ;; await "new_page" [browser s2; PStr "about:blank"] ;;; Ret tt
           else Ret tt) ;;;
          s3 <- get_state ;;
          Ret (Some (browser s3)))
         (fun _ =>
            try_except (s4 <- get_state ;; _safe_kill_browser (browser s4))
                       (fun _ => pass) ;;;
            assign (set_browser PNone) ;;;
            assign (set_browser_user_data_dir PNone) ;;;
            Ret None)
     else Ret None) ;;
  match reused with
  | Some b => Ret b
  | None =>
      browser_use <- _maybe_import_browser_use ;;
      Browser <- getattr browser_use "Browser" ;;
      s5 <- get_state ;;
      executable_path <-
        (if truthy (chrome_executable_path s5) then Ret (chrome_executable_path s5)
         else
           env <- call "os.environ.get" [PStr "BROWSER_USE_CHROME_PATH"] ;;
           if truthy env then Ret env else _default_chrome_executable_path) ;;
      _check_profile_lock user_data_dir ;;;
      s6 <- get_state ;;
      let args := str_list (launch_args s6) in
      let browser_kwargs :=
        with_executable executable_path
          [ ("is_local", PBool true); ("headless", PBool headless);
            ("keep_alive", PBool true); ("user_data_dir", user_data_dir);
            ("window_size", window_size); ("args", args);
            ("use_cloud", PBool false); ("cloud_browser", PBool false) ] in
      b <- try_except_class TypeError
             (call "Browser" [Browser; PDict browser_kwargs])
             (fun e =>
                let reduced := drop_named (msg e) browser_kwargs in
                try_except_class TypeError
                  (call "Browser" [Browser; PDict reduced])
                  (fun _ =>
                     let minimal :=
                       with_executable executable_path
                         [ ("headless", PBool headless); ("keep_alive", PBool true);
                           ("user_data_dir", user_data_dir);
                           ("window_size", window_size); ("args", args) ] in
                     call "Browser" [Browser; PDict minimal])) ;;
      assign (set_browser b) ;;;
      assign (set_browser_user_data_dir user_data_dir) ;;;
      assign (set_chrome_executable_path executable_path) ;;;
      await "start" [b] ;;;
      Ret b
  end.

(** The assignments [handle_open_browser] makes before it opens the
    session. *)
Definition configure_session (chrome_executable_path : pyval) (chrome_args : list string)
           (profile_directory : pyval) : prog unit :=
  (if truthy chrome_executable_path
   then assign (set_chrome_executable_path chrome_executable_path) else pass) ;;;
  (match chrome_args with
   | _ :: _ => assign (set_chrome_args chrome_args)
   | [] => assign (set_chrome_args [])
   end) ;;;
  (match profile_directory with
   | PStr d =>
       if negb (String.eqb d "") && negb (String.eqb (py_strip d) "")
       then assign (set_profile_directory (Some (py_strip d)))
       else assign (set_profile_directory None)
   | _ => assign (set_profile_directory None)
   end).

Definition handle_open_browser (cmd_id : string) (payload : pyval) : prog unit :=
  try_except
    (user_data_dir <- py_get payload "user_data_dir" PNone ;;
     headless_v <- py_get payload "headless" (PBool false) ;;
     window_size <- py_get payload "window_size" PNone ;;
     chrome_executable_path <- py_get payload "chrome_executable_path" PNone ;;
     chrome_args_v <- py_get payload "chrome_args" PNone ;;
     profile_directory <- py_get payload "profile_directory" PNone ;;
     configure_session chrome_executable_path (_normalize_chrome_args chrome_args_v)
                       profile_directory ;;;
     _ensure_browser user_data_dir (truthy headless_v) window_size ;;;
     _write (envelope (PStr cmd_id) "open_browser.ok" status_ok))
    (fun e =>
       let message :=
         if String.eqb (msg e) "" then "Failed to open browser"
         else ("Failed to open browser: " ++ msg e)%string in
       tb <- format_exc ;;
       _write (envelope (PStr cmd_id) "open_browser.error"
                (PDict [("message", PStr message); ("traceback", tb)]))).

(* ================================================================== *)
(** ** The background run: _run_agent *)
(* ================================================================== *)

(** [f"{step:04d}"] *)
Definition pad4 (n : nat) : string :=
  let digits := Z_to_string (Z.of_nat n) in
  (substring 0 (4 - String.length digits) "0000" ++ digits)%string.

(** [Path / name] *)
Definition path_div (p : pyval) (name : string) : prog pyval :=
  call "Path./" [p; PStr name].

Definition _run_artifacts_dir (run_id : string) : prog pyval :=
  tmp <- call "tempfile.gettempdir" [] ;;
  base0 <- path_div tmp "bettersiri-browser-agent" ;;
  base <- path_div base0 run_id ;;
  call "Path.mkdir" [base] ;;;
  Ret base.

(** The [PIL] block is one external step: open, convert, resize. *)
Definition _persist_screenshot (run_id : string) (step : nat) (screenshot_base64 : pyval)
  : prog (list (string * pyval)) :=
  artifacts_dir <- _run_artifacts_dir run_id ;;
  image_bytes <- call "base64.b64decode" [screenshot_base64] ;;
  png_path <- path_div artifacts_dir ("step-" ++ pad4 step ++ ".png")%string ;;
  call "Path.write_bytes" [png_path; image_bytes] ;;;
  thumb_path <-
    try_except
      (img <- call "PIL.Image.open" [png_path] ;;
       tp <- path_div artifacts_dir ("step-" ++ pad4 step ++ "-thumb.jpg")%string ;;
       call "img.save" [img; tp] ;;;
       Ret tp)
      (fun _ => Ret PNone) ;;
  png_str <- py_str png_path ;;
  if is_none thumb_path then Ret [("path", PStr png_str)]
  else
    thumb_str <- py_str thumb_path ;;
    Ret [("path", PStr png_str); ("thumb_path", PStr thumb_str)].

(** The closure variables of [_run_agent] that the step callbacks
    update. *)
Record counters : Type := mk_counters {
  step_index : nat;
  reported_model_outputs : nat;
  reported_action_results : nat
}.

Definition step_of (n : nat) : pyval := PInt (Z.of_nat n).

Definition page_event (run_id event : string) (step : nat) (ag : pyval) : prog unit :=
  try_except
    (state <- await "browser_session.get_browser_state_summary" [ag] ;;
     url <- getattr_default state "url" PNone ;;
     title <- getattr_default state "title" PNone ;;
     _emit run_id [("event", PStr event); ("step", step_of step);
                   ("url", url); ("title", title)])
    (fun _ => _emit run_id [("event", PStr event); ("step", step_of step)]).

Definition on_step_start (run_id : string) (ag : pyval) (c : counters) : prog counters :=
  let step := S (step_index c) in
  page_event run_id "step_start" step ag ;;;
  Ret (mk_counters step (reported_model_outputs c) (reported_action_results c)).

(** Model output (memory + planned actions): the new count of reported
    outputs. *)
Definition report_model_outputs (run_id : string) (ag : pyval) (step reported : nat)
  : prog nat :=
  try_except
    (history <- getattr ag "history" ;;
     outputs_v <- (if negb (is_none history)
                   then call "history.model_outputs" [history]
                   else Ret (PList [])) ;;
     outputs <- py_list outputs_v ;;
     for_each (skipn reported outputs)
       (fun output =>
          dumped <- call "model_dump" [output; PStr "exclude_none"] ;;
          memory <- py_get dumped "memory" PNone ;;
          next_goal <- py_get dumped "next_goal" PNone ;;
          actions <- py_get dumped "action" PNone ;;
          _emit run_id [("event", PStr "model_output"); ("step", step_of step);
                        ("memory", memory); ("next_goal", next_goal);
                        ("actions", actions)]) ;;;
     Ret (List.length outputs))
    (fun _ => Ret reported).

(** Action results (what happened). *)
Definition report_action_results (run_id : string) (ag : pyval) (step reported : nat)
  : prog nat :=
  try_except
    (history <- getattr ag "history" ;;
     results_v <- (if negb (is_none history)
                   then call "history.action_results" [history]
                   else Ret (PList [])) ;;
     results <- py_list results_v ;;
     for_each (skipn reported results)
       (fun res =>
          extracted <- getattr_default res "extracted_content" PNone ;;
          text <- (if truthy extracted then Ret extracted
                   else
                     memory <- getattr_default res "long_term_memory" PNone ;;
                     Ret (py_or memory (PStr ""))) ;;
          error <- getattr_default res "error" PNone ;;
          if truthy error then
            shown <- py_str error ;;
            _emit run_id [("event", PStr "action_result"); ("step", step_of step);
                          ("status", PStr "error"); ("text", PStr shown)]
          else if truthy text then
            shown <- py_str text ;;
            _emit run_id [("event", PStr "action_result"); ("step", step_of step);
                          ("status", PStr "ok"); ("text", PStr shown)]
          else Ret tt) ;;;
     Ret (List.length results))
    (fun _ => Ret reported).

(** Screenshot (viewport) for UI preview. *)
Definition report_screenshot (run_id : string) (ag : pyval) (step : nat) : prog unit :=
  try_except
    (ScreenshotEvent <- call "import" [PStr "browser_use.browser.events.ScreenshotEvent"] ;;
     event <- call "ScreenshotEvent" [ScreenshotEvent; PStr "full_page=False"] ;;
     screenshot_event <- call "browser_session.event_bus.dispatch" [ag; event] ;;
     await "await" [screenshot_event] ;;;
     screenshot_base64 <- await "event_result" [screenshot_event] ;;
     screenshot_payload <- _persist_screenshot run_id step screenshot_base64 ;;
     _emit run_id (("event", PStr "screenshot") :: ("step", step_of step)
                     :: screenshot_payload))
    (fun _ => pass).

Definition on_step_end (run_id : string) (ag : pyval) (c : counters) : prog counters :=
  outputs <- report_model_outputs run_id ag (step_index c) (reported_model_outputs c) ;;
  results <- report_action_results run_id ag (step_index c) (reported_action_results c) ;;
  report_screenshot run_id ag (step_index c) ;;;
  page_event run_id "step_end" (step_index c) ag ;;;
  Ret (mk_counters (step_index c) outputs results).

(** [async def multi_act(actions)]: the interception point. *)
Definition multi_act (actions : list action) : prog pyval :=
  Await (MultiAct (_sanitize_actions actions)) of_answer.

(** What the engine does inside [agent.run]: the callbacks it invokes,
    in order. *)
Inductive callback : Type :=
| StepStart
| StepEnd
| Act (actions : list action).

Definition run_callback (run_id : string) (ag : pyval) (cb : callback) (c : counters)
  : prog counters :=
  match cb with
  | StepStart => on_step_start run_id ag c
  | StepEnd => on_step_end run_id ag c
  | Act actions => multi_act actions ;;; Ret c
  end.

(** [history = await agent.run(...)].  Between callbacks the run is suspended
    in the engine; an exception raised there, or by a callback, ends the
    run with that exception. *)
Fixpoint agent_run (run_id : string) (ag : pyval) (kwargs : list pyval)
         (script : list callback) (c : counters) : prog pyval :=
  match script with
  | [] => await "agent.run" (ag :: kwargs)
  | cb :: rest =>
      await "agent.run" (ag :: kwargs) ;;;
      c' <- run_callback run_id ag cb c ;;
      agent_run run_id ag kwargs rest c'
  end.

Definition system_message : string :=
  ("When extracting facts from a page (titles, numbers, form values), verify by using tools like evaluate() or reading the DOM. "
   ++ "Do not rely solely on tab labels or URL hostnames as they may differ from the actual page title. "
   ++ "When interacting with inputs, do not type placeholders like {Enter} or {Tab} into fields. Use the send_keys action for special keys instead.")%string.

Definition or_empty (o : option string) : string :=
  match o with Some s => s | None => "" end.

Definition choose_llm (a : run_args) (ChatBrowserUse ChatOpenAI : pyval) : prog pyval :=
  if use_browser_use_llm a then
    key <- call "os.environ.get" [PStr "BROWSER_USE_API_KEY"] ;;
    if negb (truthy key) then
      Raise (mk_exn RuntimeError
        "Browser Use Cloud mode requires BROWSER_USE_API_KEY. Set the Browser Use API key in Settings or switch Browser agent LLM to OpenRouter.")
    else
      match browser_use_model a with
      | Some model =>
          if String.eqb model "" then call "ChatBrowserUse" [ChatBrowserUse]
          else
            try_except_class TypeError
              (call "ChatBrowserUse" [ChatBrowserUse; PStr model])
              (fun _ => call "ChatBrowserUse" [ChatBrowserUse])
      | None => call "ChatBrowserUse" [ChatBrowserUse]
      end
  else
    if is_none ChatOpenAI then
      Raise (mk_exn RuntimeError "ChatOpenAI not available in installed browser_use")
    else
      let given := py_strip (or_empty (openai_api_key a)) in
      api_key <-
        (if negb (String.eqb given "") then Ret (PStr given)
         else
           k1 <- call "os.environ.get" [PStr "OPENAI_API_KEY"] ;;
           if truthy k1 then Ret k1 else call "os.environ.get" [PStr "OPENAI_KEY"]) ;;
      if negb (truthy api_key) then
        Raise (mk_exn RuntimeError
          "Missing OpenRouter/OpenAI API key. Set your OpenRouter API key in Settings or switch Browser agent LLM to Browser Use Cloud.")
      else
        let model := py_or (PStr (py_strip (or_empty (openai_model a))))
                           (PStr "openai/gpt-4o-mini") in
        let base_url := py_or (PStr (py_strip (or_empty (openai_base_url a)))) PNone in
        let headers := PDict [("X-Title", PStr "BetterSiri")] in
        call "ChatOpenAI"
             [ChatOpenAI; PDict [("model", model); ("api_key", api_key);
                                 ("base_url", base_url); ("default_headers", headers)]].

Definition started_event (run_id : string) : pyval :=
  envelope (PStr run_id) "run_task.event" (PDict [("event", PStr "started")]).

Definition run_ok (run_id output_text : string) : pyval :=
  envelope (PStr run_id) "run_task.ok" (PDict [("output", PStr output_text)]).

Definition run_cancelled (run_id : string) : pyval :=
  envelope (PStr run_id) "run_task.cancelled" (PDict [("status", PStr "cancelled")]).

Definition run_failed (run_id : string) (tb : pyval) : pyval :=
  envelope (PStr run_id) "run_task.error"
           (PDict [("message", PStr "Browser task failed"); ("traceback", tb)]).

(** The [try] block of [_run_agent] up to the final result text. *)
Definition run_agent_steps (script : list callback) (a : run_args) : prog string :=
  browser_use <- _maybe_import_browser_use ;;
  Agent <- getattr browser_use "Agent" ;;
  ChatBrowserUse <- getattr browser_use "ChatBrowserUse" ;;
  ChatOpenAI <- getattr_default browser_use "ChatOpenAI" PNone ;;
  llm <- choose_llm a ChatBrowserUse ChatOpenAI ;;
  s <- get_state ;;
  b <- _ensure_browser (browser_user_data_dir s) (headless a) (window_size a) ;;
  ag <- call "Agent" [Agent; PDict [("task", PStr (ra_task a)); ("browser", b);
                                    ("llm", llm);
                                    ("extend_system_message", PStr system_message)]] ;;
  orig_multi_act <- getattr ag "multi_act" ;;
  ActionModel <- getattr ag "ActionModel" ;;
  call "setattr" [ag; PStr "multi_act"] ;;;
  assign (set_agent ag) ;;;
  _write (started_event (run_id a)) ;;;
  let kwargs := match max_steps a with Some n => [PInt n] | None => [] end in
  history <- agent_run (run_id a) ag kwargs script (mk_counters 0 0 0) ;;
  final_result <- getattr_default history "final_result" PNone ;;
  is_callable <- call "callable" [final_result] ;;
  if truthy is_callable then
    r <- call "final_result()" [final_result] ;; py_str r
  else py_str history.

(** The whole [try] block: the steps, then the [run_task.ok] envelope. *)
Definition run_agent_body (script : list callback) (a : run_args) : prog unit :=
  output_text <- run_agent_steps script a ;;
  _write (run_ok (run_id a) output_text).

Definition _run_agent (script : list callback) (a : run_args) : prog unit :=
  finally
    (catch (run_agent_body script a)
       (fun e =>
          match cls e with
          | CancelledError => _write (run_cancelled (run_id a)) ;;; Raise e
          | _ => tb <- format_exc ;; _write (run_failed (run_id a) tb)
          end))
    (assign (set_agent PNone)).

(* ================================================================== *)
(** ** Command handlers *)
(* ================================================================== *)

(** [STATE.run_task is not None and not STATE.run_task.done()]: the
    active task, if there is one. *)
Definition active_task : prog (option task) :=
  s <- get_state ;;
  match run_task s with
  | Some t => TaskDone t (fun finished => Ret (if finished then None else Some t))
  | None => Ret None
  end.

(** [v.strip() or None] for a string, [None] for anything else. *)
Definition stripped_or_none (v : pyval) : option string :=
  match v with
  | PStr s => let t := py_strip s in if String.eqb t "" then None else Some t
  | _ => None
  end.

Definition handle_run_task (cmd_id : string) (payload : pyval) : prog unit :=
  active <- active_task ;;
  match active with
  | Some _ =>
      _write (envelope (PStr cmd_id) "run_task.error"
               (PDict [("message", PStr "A browser task is already running")]))
  | None =>
      task_v <- py_get payload "task" (PStr "") ;;
      task_s <- py_str task_v ;;
      let task := py_strip task_s in
      if String.eqb task "" then
        _write (envelope (PStr cmd_id) "run_task.error"
                 (PDict [("message", PStr "Missing task")]))
      else
        max_steps_v <- py_get payload "max_steps" PNone ;;
        max_steps <-
          (if negb (is_none max_steps_v) then
             try_except (n <- py_int max_steps_v ;; Ret (Some n)) (fun _ => Ret None)
           else Ret None) ;;
        use_llm <- py_get payload "use_browser_use_llm" (PBool true) ;;
        browser_use_model <- py_get payload "browser_use_model" PNone ;;
        openai_api_key <- py_get payload "openai_api_key" PNone ;;
        openai_base_url <- py_get payload "openai_base_url" PNone ;;
        openai_model <- py_get payload "openai_model" PNone ;;
        headless_v <- py_get payload "headless" (PBool false) ;;
        window_size <- py_get payload "window_size" PNone ;;
        assign (set_current_run_id (Some cmd_id)) ;;;
        CreateTask
          (mk_run_args cmd_id task max_steps (truthy use_llm)
             (stripped_or_none browser_use_model) (stripped_or_none openai_api_key)
             (stripped_or_none openai_base_url) (stripped_or_none openai_model)
             (truthy headless_v) window_size)
          (fun t => assign (set_run_task (Some t)))
  end.

Definition _extract_page_text (page : pyval) (max_chars : Z) : prog string :=
  first <-
    try_except
      (text <- await "page.evaluate"
                 [page; PStr "() => document.body ? (document.body.innerText || '') : ''"] ;;
       match text with
       | PStr t => Ret (Some (py_prefix (Z.to_nat max_chars) t))
       | _ => Ret None
       end)
      (fun _ => Ret None) ;;
  match first with
  | Some t => Ret t
  | None =>
      second <-
        try_except
          (html <- await "page.content" [page] ;;
           match html with
           | PStr _ =>
               cleaned1 <- call "re.sub" [PStr "<[^>]+>"; PStr " "; html] ;;
               cleaned2 <- call "re.sub" [PStr "\\s+"; PStr " "; cleaned1] ;;
               match cleaned2 with
               | PStr c => Ret (Some (py_prefix (Z.to_nat max_chars) (py_strip c)))
               | _ => Raise (mk_exn AttributeError "re.sub returned a non-string")
               end
           | _ => Ret None
           end)
          (fun _ => Ret None) ;;
      match second with
      | Some t => Ret t
      | None => Ret ""
      end
  end.

(** [max(lo, min(int(v) if v is not None else default, hi))], with the
    default replacing a failed conversion. *)
Definition clamped_chars (v : pyval) (default lo hi : Z) : prog Z :=
  n <- try_except (if negb (is_none v) then py_int v else Ret default)
                  (fun _ => Ret default) ;;
  Ret (Z.max lo (Z.min n hi)).

(** [for idx, tab in enumerate(tabs): tabs.append({...})] *)
Fixpoint describe_tabs (idx : nat) (tabs : list pyval) : prog (list pyval) :=
  match tabs with
  | [] => Ret []
  | tab :: rest =>
      title <- getattr_default tab "title" PNone ;;
      url <- getattr_default tab "url" PNone ;;
      target_id <- getattr_default tab "target_id" PNone ;;
      others <- describe_tabs (S idx) rest ;;
      Ret (PDict [("index", PInt (Z.of_nat idx)); ("title", title);
                  ("url", url); ("target_id", target_id)] :: others)
  end.

(** [for t in tabs: if t.get("target_id") == target_id: ...; break] *)
Fixpoint find_active (tabs : list pyval) (target_id : pyval) : prog pyval :=
  match tabs with
  | [] => Ret PNone
  | t :: rest =>
      tid <- py_get t "target_id" PNone ;;
      same <- py_eq tid target_id ;;
      if same then py_get t "index" PNone else find_active rest target_id
  end.

Definition handle_get_tab_context (cmd_id : string) (payload : pyval) : prog unit :=
  try_except
    (include_v <- py_get payload "include_active_text" (PBool true) ;;
     max_chars_v <- py_get payload "max_chars" PNone ;;
     max_chars <- clamped_chars max_chars_v 1800 200 8000 ;;
     s <- get_state ;;
     b <- _ensure_browser (browser_user_data_dir s) false PNone ;;
     state <- await "browser.get_browser_state_summary" [b] ;;
     tabs_v <- getattr_default state "tabs" (PList []) ;;
     tab_objects <- py_list (py_or tabs_v (PList [])) ;;
     tabs <- describe_tabs 0 tab_objects ;;
     found <-
       try_except
         (info <- await "browser.get_current_target_info" [b] ;;
          target_id <- (match info with
                        | PDict _ => py_get info "targetId" PNone
                        | _ => Ret PNone
                        end) ;;
          if truthy target_id then find_active tabs target_id else Ret PNone)
         (fun _ => Ret PNone) ;;
     let active_index :=
       if is_none found && truthy (PList tabs) then PInt 0 else found in
     active_text_excerpt <-
       (if truthy include_v then
          try_except
            (page <- await "browser.get_current_page" [b] ;;
             if negb (is_none page) then
               t <- _extract_page_text page max_chars ;; Ret (PStr t)
             else Ret PNone)
            (fun _ => Ret PNone)
        else Ret PNone) ;;
     _write (envelope (PStr cmd_id) "get_tab_context.ok"
              (PDict [("tabs", PList tabs); ("active_index", active_index);
                      ("active_text_excerpt", active_text_excerpt)])))
    (fun _ =>
       tb <- format_exc ;;
       _write (envelope (PStr cmd_id) "get_tab_context.error"
                (PDict [("message", PStr "Failed to get tab context"); ("traceback", tb)]))).

Definition handle_read_tab_text (cmd_id : string) (payload : pyval) : prog unit :=
  try_except
    (index_v <- py_get payload "index" PNone ;;
     index <- try_except (py_int index_v) (fun _ => Ret (-1)%Z) ;;
     max_chars_v <- py_get payload "max_chars" PNone ;;
     max_chars <- clamped_chars max_chars_v 4000 200 16000 ;;
     s <- get_state ;;
     b <- _ensure_browser (browser_user_data_dir s) false PNone ;;
     state <- await "browser.get_browser_state_summary" [b] ;;
     tabs_v <- getattr_default state "tabs" (PList []) ;;
     tabs <- py_list (py_or tabs_v (PList [])) ;;
     if (index <? 0)%Z || (Z.of_nat (List.length tabs) <=? index)%Z then
       _write (envelope (PStr cmd_id) "read_tab_text.error"
                (PDict [("message", PStr ("Invalid tab index: " ++ Z_to_string index)%string)]))
     else
       try_except
         (SwitchTabEvent <- call "import" [PStr "browser_use.browser.events.SwitchTabEvent"] ;;
          target_id <- getattr_default (nth (Z.to_nat index) tabs PNone) "target_id" PNone ;;
          if truthy target_id then
            event <- call "SwitchTabEvent" [SwitchTabEvent; target_id] ;;
            await "browser.event_bus.dispatch" [b; event] ;;; Ret tt
          else Ret tt)
         (fun _ => pass) ;;;
       page <- await "browser.get_current_page" [b] ;;
       if is_none page then
         _write (envelope (PStr cmd_id) "read_tab_text.error"
                  (PDict [("message", PStr "No active tab")]))
       else
         text <- _extract_page_text page max_chars ;;
         _write (envelope (PStr cmd_id) "read_tab_text.ok"
                  (PDict [("index", PInt index); ("text", PStr text)])))
    (fun _ =>
       tb <- format_exc ;;
       _write (envelope (PStr cmd_id) "read_tab_text.error"
                (PDict [("message", PStr "Failed to read tab text"); ("traceback", tb)]))).

(** [handle_pause] and [handle_resume]: forward to the agent if one is
    active. *)
Definition forward_to_agent (cmd_id method : string) : prog unit :=
  try_except
    (s <- get_state ;;
     (if negb (is_none (agent s)) then
        s' <- get_state ;; call method [agent s'] ;;; Ret tt
      else Ret tt) ;;;
     _write (envelope (PStr cmd_id) (method ++ ".ok")%string status_ok))
    (fun _ =>
       tb <- format_exc ;;
       _write (envelope (PStr cmd_id) (method ++ ".error")%string
                (PDict [("traceback", tb)]))).

Definition handle_pause (cmd_id : string) (payload : pyval) : prog unit :=
  forward_to_agent cmd_id "pause".

Definition handle_resume (cmd_id : string) (payload : pyval) : prog unit :=
  forward_to_agent cmd_id "resume".

(** [if STATE.run_task is not None and not STATE.run_task.done():
    STATE.run_task.cancel()] *)
Definition cancel_active : prog unit :=
  active <- active_task ;;
  match active with
  | Some t => TaskCancel t (Ret tt)
  | None => Ret tt
  end.

Definition handle_stop (cmd_id : string) (payload : pyval) : prog unit :=
  try_except
    (cancel_active ;;;
     _write (envelope (PStr cmd_id) "stop.ok" status_ok))
    (fun _ =>
       tb <- format_exc ;;
       _write (envelope (PStr cmd_id) "stop.error" (PDict [("traceback", tb)]))).

Definition handle_close_browser (cmd_id : string) (payload : pyval) : prog unit :=
  try_except
    (cancel_active ;;;
     s <- get_state ;;
     (if negb (is_none (browser s)) then
        s' <- get_state ;; _safe_kill_browser (browser s')
      else Ret tt) ;;;
     assign (set_browser PNone) ;;;
     assign (set_browser_user_data_dir PNone) ;;;
     _write (envelope (PStr cmd_id) "close_browser.ok" status_ok))
    (fun _ =>
       tb <- format_exc ;;
       _write (envelope (PStr cmd_id) "close_browser.error"
                (PDict [("message", PStr "Failed to close browser"); ("traceback", tb)]))).

Definition handle_close_all_windows (cmd_id : string) (payload : pyval) : prog unit :=
  keep_v <- py_get payload "keep_session" (PBool true) ;;
  if negb (truthy keep_v) then handle_close_browser cmd_id payload
  else
    let ok := _write (envelope (PStr cmd_id) "close_all_windows.ok" status_ok) in
    try_except
      (cancel_active ;;;
       s <- get_state ;;
       if is_none (browser s) then ok
       else
         s' <- get_state ;;
         let b := browser s' in
         try_except (await "start" [b] ;;; Ret tt) (fun _ => pass) ;;;
         pages_v <- await "get_pages" [b] ;;
         if negb (truthy pages_v) then
           await "new_page" [b; PStr "about:blank"] ;;; ok
         else
           pages <- py_list pages_v ;;
           for_each (tl pages)
             (fun page => try_except (await "close_page" [b; page] ;;; Ret tt)
                                     (fun _ => pass)) ;;;
           try_except (await "page.goto" [hd PNone pages; PStr "about:blank"] ;;; Ret tt)
                      (fun _ => pass) ;;;
           ok)
      (fun _ =>
         tb <- format_exc ;;
         _write (envelope (PStr cmd_id) "close_all_windows.error"
                  (PDict [("message", PStr "Failed to close all windows");
                          ("traceback", tb)]))).

Definition handler : Type := string -> pyval -> prog unit.

Definition HANDLERS : list (string * handler) :=
  [ ("open_browser", handle_open_browser);
    ("run_task", handle_run_task);
    ("get_tab_context", handle_get_tab_context);
    ("read_tab_text", handle_read_tab_text);
    ("pause", handle_pause);
    ("resume", handle_resume);
    ("stop", handle_stop);
    ("close_browser", handle_close_browser);
    ("close_all_windows", handle_close_all_windows) ].

Fixpoint find_handler (table : list (string * handler)) (name : string) : option handler :=
  match table with
  | [] => None
  | (k, h) :: rest => if String.eqb k name then Some h else find_handler rest name
  end.

(* ================================================================== *)
(** ** The dispatcher: main *)
(* ================================================================== *)

(** One line of standard input, with what the two library decoders make
    of it: [Undecodable] is a line such as the single byte 0xFF, [Line
    "{oops" None] a text that is not JSON, [Line "4" (Some (PInt 4))] a
    JSON text. *)
Inductive stdin_line : Type :=
| Undecodable                                   (* line_bytes.decode("utf-8") raises *)
| Line (text : string) (parsed : option pyval). (* the decoded text; json.loads of
                                                   its stripped form, None when it raises *)

(** [cmd_type not in HANDLERS] needs a hashable key. *)
Definition lookup_command (cmd_type : pyval) : prog (option handler) :=
  match cmd_type with
  | PStr name => Ret (find_handler HANDLERS name)
  | PList _ => Raise (mk_exn TypeError "unhashable type: 'list'")
  | PDict _ => Raise (mk_exn TypeError "unhashable type: 'dict'")
  | _ => Ret None
  end.

Definition unknown_command (cmd_id : string) (cmd_type : pyval) : prog unit :=
  shown <- py_str cmd_type ;;
  _write (envelope (id_or_none cmd_id) "error"
           (PDict [("message", PStr ("Unknown command: " ++ shown)%string)])).

(** The body of the loop after a successful [json.loads]. *)
Definition dispatch (message : pyval) : prog unit :=
  id_v <- py_get message "id" PNone ;;
  cmd_id <- (if negb (is_none id_v) then
               id_v' <- py_get message "id" PNone ;; py_str id_v'
             else Ret "") ;;
  cmd_type <- py_get message "type" PNone ;;
  payload_v <- py_get message "payload" PNone ;;
  let payload := py_or payload_v (PDict []) in
  if negb (truthy cmd_type) then unknown_command cmd_id cmd_type
  else
    found <- lookup_command cmd_type ;;
    match found with
    | None => unknown_command cmd_id cmd_type
    | Some h =>
        try_except (h cmd_id payload)
          (fun _ => tb <- format_exc ;; _err (id_or_none cmd_id) "Handler crashed" tb)
    end.

(** [while True], one iteration per line read; the list ends at end of
    file. *)
Fixpoint main_loop (lines : list stdin_line) : prog unit :=
  match lines with
  | [] => Ret tt
  | Undecodable :: rest => main_loop rest
  | Line text parsed :: rest =>
      if String.eqb (py_strip text) "" then main_loop rest
      else
        match parsed with
        | None => _err PNone "Invalid JSON" PNone ;;; main_loop rest
        | Some message => dispatch message ;;; main_loop rest
        end
  end.

Definition main (lines : list stdin_line) : prog unit :=
  pid <- call "os.getpid" [] ;;
  _write (PDict [("type", PStr "ready"); ("payload", PDict [("pid", pid)])]) ;;;
  await "loop.connect_read_pipe" [] ;;;
  main_loop lines.

(* ================================================================== *)
(** ** Running a program *)
(* ================================================================== *)

(** What a run of one task can observe and change: the global state,
    the lines written on standard output, the number of external calls
    made so far, the awaits with their answers, the background tasks
    created, those already finished, and the cancellations requested. *)
Record world : Type := mk_world {
  state : WorkerState;
  out : list pyval;
  ticks : nat;
  awaited : list (ext_op * answer);
  created : list run_args;
  finished : list task;
  cancel_requests : list task
}.

Definition world0 : world := mk_world STATE [] 0 [] [] [] [].

(** The environment: what the [n]-th external call answers. *)
Definition oracle : Type := nat -> ext_op -> answer.

Inductive outcome (A : Type) : Type :=
| Returned (a : A)
| Raised (e : exn).

Arguments Returned {A} a.
Arguments Raised {A} e.

Definition with_state (f : WorkerState -> WorkerState) (w : world) : world :=
  mk_world (f (state w)) (out w) (ticks w) (awaited w) (created w) (finished w)
           (cancel_requests w).

Definition with_write (m : pyval) (w : world) : world :=
  mk_world (state w) (out w ++ [m]) (ticks w) (awaited w) (created w) (finished w)
           (cancel_requests w).

Definition with_call (w : world) : world :=
  mk_world (state w) (out w) (S (ticks w)) (awaited w) (created w) (finished w)
           (cancel_requests w).

Definition with_await (op : ext_op) (a : answer) (w : world) : world :=
  mk_world (state w) (out w) (S (ticks w)) (awaited w ++ [(op, a)]) (created w)
           (finished w) (cancel_requests w).

Definition with_task (args : run_args) (w : world) : world :=
  mk_world (state w) (out w) (ticks w) (awaited w) (created w ++ [args]) (finished w)
           (cancel_requests w).

Definition with_cancel (t : task) (w : world) : world :=
  mk_world (state w) (out w) (ticks w) (awaited w) (created w) (finished w)
           (cancel_requests w ++ [t]).

Definition is_finished (t : task) (w : world) : bool :=
  existsb (Nat.eqb t) (finished w).

(** The run of one task, alone: its effects in order, every external
    call answered by the environment, nothing else running at its
    suspension points.  A cancellation is an answer of the environment
    at an await.  A created task is registered, not run: its own run is
    [interp] on [_run_agent]. *)
Fixpoint interp {A} (env : oracle) (p : prog A) (w : world) : outcome A * world :=
  match p with
  | Ret a => (Returned a, w)
  | Raise e => (Raised e, w)
  | Write m k => interp env k (with_write m w)
  | Get k => interp env (k (state w)) w
  | Modify f k => interp env k (with_state f w)
  | Call op k => interp env (k (env (ticks w) op)) (with_call w)
  | Await op k =>
      let a := env (ticks w) op in
      interp env (k a) (with_await op a w)
  | CreateTask args k => interp env (k (List.length (created w))) (with_task args w)
  | TaskDone t k => interp env (k (is_finished t w)) w
  | TaskCancel t k => interp env k (with_cancel t w)
  end.

Definition result_of {A} (r : outcome A * world) : outcome A := fst r.
Definition world_of {A} (r : outcome A * world) : world := snd r.

(* ================================================================== *)
(** ** Vocabulary of the worker's properties *)
(* ================================================================== *)

(** The ["type"] of an envelope. *)
Definition type_of (m : pyval) : pyval :=
  match m with PDict kvs => dict_get kvs "type" PNone | _ => PNone end.

(** The ["id"] of an envelope. *)
Definition id_of (m : pyval) : pyval :=
  match m with PDict kvs => dict_get kvs "id" PNone | _ => PNone end.

(** The ["event"] of a [run_task.event] envelope. *)
Definition event_of (m : pyval) : pyval :=
  match m with
  | PDict kvs =>
      match dict_get kvs "payload" PNone with
      | PDict p => dict_get p "event" PNone
      | _ => PNone
      end
  | _ => PNone
  end.

Definition has_type (ty : string) (m : pyval) : bool :=
  match type_of m with PStr s => String.eqb s ty | _ => false end.

(** A stream event of run [id]. *)
Definition is_run_event (id : string) (m : pyval) : Prop :=
  type_of m = PStr "run_task.event" /\ id_of m = PStr id.

(** A terminal signal of a run: ok, error or cancelled. *)
Definition is_terminal (m : pyval) : bool :=
  has_type "run_task.ok" m || has_type "run_task.error" m
  || has_type "run_task.cancelled" m.

Definition count_terminal (ms : list pyval) : nat :=
  List.length (filter is_terminal ms).


(** Every [Write] in the program satisfies [P]. *)
Fixpoint all_writes (P : pyval -> Prop) {A} (p : prog A) : Prop :=
  match p with
  | Ret _ | Raise _ => True
  | Write m k => P m /\ all_writes P k
  | Get k => forall s, all_writes P (k s)
  | Modify _ k => all_writes P k
  | Call _ k | Await _ k => forall a, all_writes P (k a)
  | CreateTask _ k => forall t, all_writes P (k t)
  | TaskDone _ k => forall b, all_writes P (k b)
  | TaskCancel _ k => all_writes P k
  end.

(** The program writes nothing. *)
Definition silent {A} (p : prog A) : Prop := all_writes (fun _ => False) p.

(** The program has no suspension point. *)
Fixpoint no_await {A} (p : prog A) : Prop :=
  match p with
  | Ret _ | Raise _ => True
  | Write _ k | Modify _ k | TaskCancel _ k => no_await k
  | Get k => forall s, no_await (k s)
  | Call _ k => forall a, no_await (k a)
  | Await _ _ => False
  | CreateTask _ k => forall t, no_await (k t)
  | TaskDone _ k => forall b, no_await (k b)
  end.

Definition is_cancel (e : exn) : Prop := cls e = CancelledError.

(** A cancellation delivered at any suspension point of the program
    leaves it at once, as that exception: no handler on the way absorbs
    it and nothing else runs. *)
Fixpoint cancel_transparent {A} (p : prog A) : Prop :=
  match p with
  | Ret _ | Raise _ => True
  | Write _ k | Modify _ k | TaskCancel _ k => cancel_transparent k
  | Get k => forall s, cancel_transparent (k s)
  | Call _ k => forall a, cancel_transparent (k a)
  | Await _ k =>
      (forall e, is_cancel e -> k (Exc e) = Raise e)
      /\ forall a, cancel_transparent (k a)
  | CreateTask _ k => forall t, cancel_transparent (k t)
  | TaskDone _ k => forall b, cancel_transparent (k b)
  end.

(** An environment that raises ordinary exceptions only: no
    cancellation is delivered. *)
Definition calm_answer (a : answer) : Prop :=
  match a with Val _ => True | Exc e => is_exception e = true end.

Definition calm (env : oracle) : Prop := forall n op, calm_answer (env n op).

(** Under calm answers the program raises ordinary exceptions only. *)
Fixpoint raises_exceptions {A} (p : prog A) : Prop :=
  match p with
  | Ret _ => True
  | Raise e => is_exception e = true
  | Write _ k | Modify _ k | TaskCancel _ k => raises_exceptions k
  | Get k => forall s, raises_exceptions (k s)
  | Call _ k | Await _ k => forall a, calm_answer a -> raises_exceptions (k a)
  | CreateTask _ k => forall t, raises_exceptions (k t)
  | TaskDone _ k => forall b, raises_exceptions (k b)
  end.

(** Under calm answers the program does not raise. *)
Fixpoint never_raises {A} (p : prog A) : Prop :=
  match p with
  | Ret _ => True
  | Raise _ => False
  | Write _ k | Modify _ k | TaskCancel _ k => never_raises k
  | Get k => forall s, never_raises (k s)
  | Call _ k | Await _ k => forall a, calm_answer a -> never_raises (k a)
  | CreateTask _ k => forall t, never_raises (k t)
  | TaskDone _ k => forall b, never_raises (k b)
  end.

(** [I] is an invariant of the global state along the program: it holds
    of every state read and every assignment keeps it. *)
Fixpoint keeps (I : WorkerState -> Prop) {A} (p : prog A) : Prop :=
  match p with
  | Ret _ | Raise _ => True
  | Write _ k | TaskCancel _ k => keeps I k
  | Get k => forall s, I s -> keeps I (k s)
  | Modify f k => (forall s, I s -> I (f s)) /\ keeps I k
  | Call _ k | Await _ k => forall a, keeps I (k a)
  | CreateTask _ k => forall t, keeps I (k t)
  | TaskDone _ k => forall b, keeps I (k b)
  end.

(** The background task that is registered and not finished, if any. *)
Definition active_of (w : world) : option task :=
  match run_task (state w) with
  | Some t => if is_finished t w then None else Some t
  | None => None
  end.

Definition already_running (cmd_id : string) : pyval :=
  envelope (PStr cmd_id) "run_task.error"
    (PDict [("message", PStr "A browser task is already running")]).

Definition missing_task (cmd_id : string) : pyval :=
  envelope (PStr cmd_id) "run_task.error" (PDict [("message", PStr "Missing task")]).

(** The payload has no usable ["task"]: the key is absent, or its value
    is a string that is empty once stripped. *)
Definition task_missing (kvs : list (string * pyval)) : Prop :=
  match assoc_get kvs "task" with
  | None => True
  | Some (PStr s) => py_strip s = ""
  | Some _ => False
  end.

(** The ["step"] of a [run_task.event] envelope. *)
Definition step_field (m : pyval) : pyval :=
  match m with
  | PDict kvs =>
      match dict_get kvs "payload" PNone with
      | PDict p => dict_get p "step" PNone
      | _ => PNone
      end
  | _ => PNone
  end.

(** The event [ev] of run [id] for step number [step]. *)
Definition is_step_event (id ev : string) (step : nat) (m : pyval) : Prop :=
  is_run_event id m /\ event_of m = PStr ev /\ step_field m = step_of step.

(** An event of one of the first three step-end sub-reports. *)
Definition is_report_event (id : string) (m : pyval) : Prop :=
  is_run_event id m /\
  (event_of m = PStr "model_output" \/ event_of m = PStr "action_result"
   \/ event_of m = PStr "screenshot").

(** Two worlds that differ at most in what is already on standard
    output. *)
Definition same_but_out (w1 w2 : world) : Prop :=
  state w1 = state w2 /\ ticks w1 = ticks w2 /\ awaited w1 = awaited w2
  /\ created w1 = created w2 /\ finished w1 = finished w2
  /\ cancel_requests w1 = cancel_requests w2.

(** The text [traceback.format_exc()] yields for an answer. *)
Definition traceback_of (a : answer) : pyval :=
  match a with Val v => v | Exc _ => PStr "" end.

Definition stop_ok (cmd_id : string) : pyval :=
  envelope (PStr cmd_id) "stop.ok" status_ok.

(** An environment in which the frame capture fails: importing the
    screenshot event raises; everything else answers [None]. *)
Definition failing_capture : oracle :=
  fun _ op =>
    match op with
    | Ext name _ =>
        if String.eqb name "import" then Exc (mk_exn OtherError "no frame available")
        else Val PNone
    | MultiAct _ => Val PNone
    end.

Definition sample_args : run_args :=
  mk_run_args "run-1" "open the page" None true None None None None false PNone.

(** A world in which run 0 has been started and has not finished. *)
Definition running_world : world :=
  mk_world (set_run_task (Some 0) (set_current_run_id (Some "run-1") STATE))
           [] 0 [] [sample_args] [] [].

Definition cancellation : exn := mk_exn CancelledError "".

(** An environment that answers every call and cancels the run while it
    is suspended in [agent.run]. *)
Definition cancelling : oracle :=
  fun _ op =>
    match op with
    | Ext name _ =>
        if String.eqb name "agent.run" then Exc cancellation else Val (PStr "x")
    | MultiAct _ => Val PNone
    end.

(** An environment in which every external call succeeds. *)
Definition obliging : oracle := fun _ _ => Val (PStr "x").




Definition run_task_message (cmd_id : string) (kvs : list (string * pyval)) : pyval :=
  PDict [("id", PStr cmd_id); ("type", PStr "run_task"); ("payload", PDict kvs)].

(** The sub-profile [handle_open_browser] stores for a payload value. *)
Definition profile_of (v : pyval) : option string :=
  match v with
  | PStr d => if String.eqb (py_strip d) "" then None else Some (py_strip d)
  | _ => None
  end.

(** The launch arguments and the sub-profile are [a0] and [p0]. *)
Definition launch_config (a0 : list string) (p0 : option string) (s : WorkerState) : Prop :=
  chrome_args s = a0 /\ profile_directory s = p0.

(** The executable override is [e0]. *)
Definition executable_is (e0 : pyval) (s : WorkerState) : Prop :=
  chrome_executable_path s = e0.

(** A world in which an executable override has been configured. *)
Definition configured_world : world :=
  mk_world (set_chrome_args ["--old"]
              (set_profile_directory (Some "Work")
                 (set_chrome_executable_path (PStr "/opt/chrome") STATE)))
           [] 0 [] [] [] [].

(* ================================================================== *)
(** ** Further vocabulary: the normaliser, the pattern, the sanitizer *)
(* ================================================================== *)

(** [key.lower() if len(key) == 1 else key] *)
Definition shown_key (key : string) : string :=
  if (String.length key =? 1)%nat then py_lower key else key.


(** The text a typed-text action carries; empty for any other action. *)
Definition typed_text (a : action) : string :=
  match model_dump a with
  | Some (PDict top) =>
      match dict_get top "input" PNone with
      | PDict input_payload =>
          match dict_get input_payload "text" PNone with
          | PStr t => t
          | _ => ""
          end
      | _ => ""
      end
  | _ => ""
  end.

(** What a list of actions types, in order. *)
Definition typed_texts (l : list action) : string :=
  fold_right (fun a acc => (typed_text a ++ acc)%string) "" l.

(** The matches follow one another from [cursor] on: each starts at or
    after the end of the one before, and none is empty. *)
Fixpoint chained (cursor : nat) (ms : list re_match) : Prop :=
  match ms with
  | [] => True
  | m :: rest => cursor <= m_start m /\ m_start m < m_end m /\ chained (m_end m) rest
  end.

(** The action is a typed-text action in whose text the pattern finds a
    placeholder. *)
Definition has_placeholder (a : action) : bool :=
  match model_dump a with
  | Some (PDict top) =>
      match dict_get top "input" PNone with
      | PDict input_payload =>
          match dict_get input_payload "text" PNone with
          | PStr t => match finditer t with [] => false | _ => true end
          | _ => false
          end
      | _ => false
      end
  | _ => false
  end.

(** A typed-text action on element [index] built by the sanitizer. *)
Definition is_input_on (index : pyval) (b : action) : Prop :=
  exists text cl, b = input_action index text cl.

(** The key a [send_keys] action presses, if the action is one. *)
Definition key_of (a : action) : option string :=
  match model_dump a with
  | Some (PDict top) =>
      match dict_get top "send_keys" PNone with
      | PDict payload =>
          match dict_get payload "keys" PNone with
          | PStr keys => Some keys
          | _ => None
          end
      | _ => None
      end
  | _ => None
  end.

(** The keys a list of actions presses, in order. *)
Definition keys_sent (l : list action) : list string :=
  flat_map (fun a => match key_of a with Some k => [k] | None => [] end) l.

(** The keys the placeholders of a text name, in text order. *)
Definition keys_named (text : string) : list string :=
  flat_map (fun m => match _normalize_send_keys_token (m_group1 m) with
                     | Some k => [k]
                     | None => []
                     end)
           (finditer text).

(** An action with a dump the sanitizer passes over: no ["input"] dict. *)
Definition click_action : action :=
  model_validate (PDict [("click", PDict [("index", PInt 3)])]).

(* ================================================================== *)
(** ** Further vocabulary: programs *)
(* ================================================================== *)

(** The external calls of a run, synchronous or awaited, in order, each
    with its answer. *)
Fixpoint calls {A} (env : oracle) (p : prog A) (w : world) : list (ext_op * answer) :=
  match p with
  | Ret _ | Raise _ => []
  | Write m k => calls env k (with_write m w)
  | Get k => calls env (k (state w)) w
  | Modify f k => calls env k (with_state f w)
  | Call op k =>
      let a := env (ticks w) op in
      (op, a) :: calls env (k a) (with_call w)
  | Await op k =>
      let a := env (ticks w) op in
      (op, a) :: calls env (k a) (with_await op a w)
  | CreateTask args k => calls env (k (List.length (created w))) (with_task args w)
  | TaskDone t k => calls env (k (is_finished t w)) w
  | TaskCancel t k => calls env k (with_cancel t w)
  end.

(** A specification of a program from state [s], whatever the
    environment answers: every envelope it writes satisfies [W]; if it
    returns [a] in state [s'] then [Q a s']; if it raises [e] in state
    [s'] then [R e s']. *)
Fixpoint wp {A} (W : pyval -> Prop) (Q : A -> WorkerState -> Prop)
         (R : exn -> WorkerState -> Prop) (p : prog A) (s : WorkerState) : Prop :=
  match p with
  | Ret a => Q a s
  | Raise e => R e s
  | Write m k => W m /\ wp W Q R k s
  | Get k => wp W Q R (k s) s
  | Modify f k => wp W Q R k (f s)
  | Call _ k | Await _ k => forall a, wp W Q R (k a) s
  | CreateTask _ k => forall t, wp W Q R (k t) s
  | TaskDone _ k => forall b, wp W Q R (k b) s
  | TaskCancel _ k => wp W Q R k s
  end.

(** Under calm answers the program returns, having written nothing. *)
Fixpoint ends_quietly {A} (p : prog A) : Prop :=
  match p with
  | Ret _ => True
  | Raise _ | Write _ _ => False
  | Get k => forall s, ends_quietly (k s)
  | Modify _ k | TaskCancel _ k => ends_quietly k
  | Call _ k | Await _ k => forall a, calm_answer a -> ends_quietly (k a)
  | CreateTask _ k => forall t, ends_quietly (k t)
  | TaskDone _ k => forall b, ends_quietly (k b)
  end.

(** The program answers once.  Under calm answers, along every path it
    writes one envelope, which satisfies [P], and then returns without
    writing again; when [strict] is off it may instead raise an ordinary
    exception before it has written anything. *)
Fixpoint responds (strict : bool) (P : pyval -> Prop) {A} (p : prog A) : Prop :=
  match p with
  | Ret _ => False
  | Raise e => if strict then False else is_exception e = true
  | Write m k => P m /\ ends_quietly k
  | Get k => forall s, responds strict P (k s)
  | Modify _ k | TaskCancel _ k => responds strict P k
  | Call _ k | Await _ k => forall a, calm_answer a -> responds strict P (k a)
  | CreateTask _ k => forall t, responds strict P (k t)
  | TaskDone _ k => forall b, responds strict P (k b)
  end.

(** Every background run the program creates has arguments satisfying
    [P]. *)
Fixpoint all_tasks (P : run_args -> Prop) {A} (p : prog A) : Prop :=
  match p with
  | Ret _ | Raise _ => True
  | Write _ k | Modify _ k | TaskCancel _ k => all_tasks P k
  | Get k => forall s, all_tasks P (k s)
  | Call _ k | Await _ k => forall a, all_tasks P (k a)
  | CreateTask args k => P args /\ forall t, all_tasks P (k t)
  | TaskDone _ k => forall b, all_tasks P (k b)
  end.

(** The envelope answers command [cmd_id] with one of the given types. *)
Definition reply_to (cmd_id : string) (types : list string) (m : pyval) : Prop :=
  id_of m = PStr cmd_id /\ exists ty, In ty types /\ type_of m = PStr ty.

(** The ["payload"] of an envelope. *)
Definition payload_of (m : pyval) : pyval :=
  match m with PDict kvs => dict_get kvs "payload" PNone | _ => PNone end.

(** A field of the payload of an envelope. *)
Definition field_of (m : pyval) (key : string) : pyval :=
  match payload_of m with PDict p => dict_get p key PNone | _ => PNone end.

(** The text [str] gives for a value whose text is fixed: [None], a
    boolean, an integer or a string. *)
Definition simple_text (v : pyval) : option string :=
  match v with
  | PNone => Some "None"
  | PBool true => Some "True"
  | PBool false => Some "False"
  | PInt z => Some (Z_to_string z)
  | PStr s => Some s
  | _ => None
  end.

(** [str(msg.get("id")) if msg.get("id") is not None else ""] for a
    scalar id. *)
Definition id_text (v : pyval) : string :=
  match v with
  | PNone => ""
  | _ => match simple_text v with Some s => s | None => "" end
  end.

Definition is_scalar (v : pyval) : Prop := simple_text v <> None.



(** The envelope the dispatcher writes for a command it does not know. *)
Definition unknown_reply (cmd_id shown : string) : pyval :=
  envelope (id_or_none cmd_id) "error"
    (PDict [("message", PStr ("Unknown command: " ++ shown)%string)]).

(** The envelope the dispatcher writes when a handler raises. *)
Definition crash_reply (cmd_id : string) (tb : pyval) : pyval :=
  envelope (id_or_none cmd_id) "error"
    (PDict ([("message", PStr "Handler crashed")]
              ++ (if truthy tb then [("traceback", tb)] else []))).

(** A payload that is not an object, and not replaced by [{}]. *)
Definition bad_payload (v : pyval) : Prop :=
  truthy v = true /\ forall kvs, v <> PDict kvs.

(** The world after [handle_stop]: a cancellation is requested when a
    run is active. *)
Definition stopped (w : world) : world :=
  match active_of w with Some t => with_cancel t w | None => w end.

Definition method_ok (cmd_id method : string) : pyval :=
  envelope (PStr cmd_id) (method ++ ".ok")%string status_ok.

Definition method_error (cmd_id method : string) (tb : pyval) : pyval :=
  envelope (PStr cmd_id) (method ++ ".error")%string (PDict [("traceback", tb)]).

(** Two worlds that differ at most in the external calls made: the
    state, the output, the runs created and finished and the
    cancellations requested are the same. *)
Definition same_but_calls (w1 w2 : world) : Prop :=
  state w1 = state w2 /\ out w1 = out w2 /\ created w1 = created w2
  /\ finished w1 = finished w2 /\ cancel_requests w1 = cancel_requests w2.

(** An await that raised an ordinary exception. *)
Definition failed_attempt (oa : ext_op * answer) : Prop :=
  match snd oa with Exc e => is_exception e = true | Val _ => False end.

(** An await on handle [b] by which the engine confirms that the session
    is usable: the page list, a blank page, or the launch. *)
Definition confirms (b : pyval) (oa : ext_op * answer) : Prop :=
  (exists v, snd oa = Val v)
  /\ In (fst oa) [Ext "get_pages" [b]; Ext "new_page" [b; PStr "about:blank"];
                  Ext "start" [b]].

Definition close_browser_ok (cmd_id : string) : pyval :=
  envelope (PStr cmd_id) "close_browser.ok" status_ok.

Definition close_browser_error (cmd_id : string) (tb : pyval) : pyval :=
  envelope (PStr cmd_id) "close_browser.error"
    (PDict [("message", PStr "Failed to close browser"); ("traceback", tb)]).

(** An environment in which the engine object has only a [close]
    method, which succeeds. *)
Definition only_close : oracle :=
  fun _ op =>
    match op with
    | Ext "getattr" [_; PStr "close"] => Val (PObj 9)
    | Ext "getattr" _ => Exc (mk_exn AttributeError "no such method")
    | _ => Val PNone
    end.

(** The awaits of [w2] continue those of [w1]. *)
Definition extends (w1 w2 : world) : Prop :=
  exists l, awaited w2 = awaited w1 ++ l.

(** The probe [os.path.exists(path)]. *)
Definition probe (path : string) : ext_op := Ext "os.path.exists" [PStr path].

(** A probe that answered that the path does not exist. *)
Definition missed (oa : ext_op * answer) : Prop :=
  match snd oa with Val v => truthy v = false | Exc _ => False end.

(** Every external call the program can make, synchronous or awaited,
    satisfies [P]. *)
Fixpoint all_ops (P : ext_op -> Prop) {A} (p : prog A) : Prop :=
  match p with
  | Ret _ | Raise _ => True
  | Write _ k | Modify _ k | TaskCancel _ k => all_ops P k
  | Get k => forall s, all_ops P (k s)
  | Call op k | Await op k => P op /\ forall a, all_ops P (k a)
  | CreateTask _ k => forall t, all_ops P (k t)
  | TaskDone _ k => forall b, all_ops P (k b)
  end.

(** An environment in which only Chromium is installed. *)
Definition only_chromium : oracle :=
  fun _ op =>
    match op with
    | Ext "os.path.exists" [PStr "/Applications/Chromium.app/Contents/MacOS/Chromium"] =>
        Val (PBool true)
    | _ => Val (PBool false)
    end.

(** An environment in which another browser holds the profile lock. *)
Definition profile_locked : oracle :=
  fun _ op =>
    match op with
    | Ext "fcntl.flock" [_; PStr "LOCK_EX|LOCK_NB"] =>
        Exc (mk_exn OSError "Resource temporarily unavailable")
    | _ => Val (PStr "x")
    end.



(** The call neither navigates, nor closes a page, nor builds or runs an
    agent. *)
Definition read_only (op : ext_op) : Prop :=
  match op with
  | Ext name _ => in_strs name ["page.goto"; "close_page"; "Agent"; "agent.run"; "setattr"] = false
  | MultiAct _ => False
  end.

(** An optional string as [handle_run_task] passes it on: absent, or
    non-empty and stripped. *)
Definition stripped_option (o : option string) : Prop :=
  match o with
  | None => True
  | Some s => s <> "" /\ py_strip s = s
  end.

(** The arguments of a run started for command [cmd_id]: the run is
    named after the command, its task is non-empty and stripped, and so
    is each optional string. *)
Definition normalised_run (cmd_id : string) (a : run_args) : Prop :=
  run_id a = cmd_id
  /\ ra_task a <> "" /\ py_strip (ra_task a) = ra_task a
  /\ stripped_option (browser_use_model a)
  /\ stripped_option (openai_api_key a)
  /\ stripped_option (openai_base_url a)
  /\ stripped_option (openai_model a).

(** A read_tab_text.ok reply carries an index that is not negative and
    a text of at most 16000 characters. *)
Definition text_reply_ok (m : pyval) : Prop :=
  has_type "read_tab_text.ok" m = true ->
  exists i t,
    field_of m "index" = PInt i /\ (0 <= i)%Z
    /\ field_of m "text" = PStr t /\ (Z.of_nat (String.length t) <= 16000)%Z.

(** The tab descriptions number the tabs from [idx] on. *)
Fixpoint indexed (idx : nat) (tabs : list pyval) : Prop :=
  match tabs with
  | [] => True
  | t :: rest =>
      (exists kvs, t = PDict kvs /\ dict_get kvs "index" PNone = PInt (Z.of_nat idx))
      /\ indexed (S idx) rest
  end.

(** The active index names one of the tabs, and is null only when there
    is no tab. *)
Definition valid_active (tabs : list pyval) (v : pyval) : Prop :=
  (v = PNone /\ tabs = [])
  \/ exists i, v = PInt (Z.of_nat i) /\ i < List.length tabs.

(** The excerpt is null or a text of at most 8000 characters. *)
Definition excerpt_ok (v : pyval) : Prop :=
  v = PNone \/ exists t, v = PStr t /\ (Z.of_nat (String.length t) <= 8000)%Z.

(** A get_tab_context.ok reply is well formed. *)
Definition context_reply_ok (m : pyval) : Prop :=
  has_type "get_tab_context.ok" m = true ->
  exists tabs,
    field_of m "tabs" = PList tabs /\ indexed 0 tabs
    /\ valid_active tabs (field_of m "active_index")
    /\ excerpt_ok (field_of m "active_text_excerpt").

(** An environment with one open tab: the state summary lists one tab
    object, every other call answers a short text. *)
Definition one_tab : oracle :=
  fun _ op =>
    match op with
    | Ext "getattr" [_; PStr "tabs"] => Val (PList [PObj 5])
    | _ => Val (PStr "x")
    end.

Definition close_all_windows_ok (cmd_id : string) : pyval :=
  envelope (PStr cmd_id) "close_all_windows.ok" status_ok.

(** An environment whose browser has three pages open. *)
Definition three_pages : oracle :=
  fun _ op =>
    match op with
    | Ext "get_pages" _ => Val (PList [PObj 10; PObj 11; PObj 12])
    | _ => Val PNone
    end.

(* ================================================================== *)
(** * Properties of the normaliser and the sanitizer *)
(* ================================================================== *)

Module Sanitizer.

(** Concrete runs. *)

Example normalize_enter : _normalize_send_keys_token "Enter" = Some "Enter".
Proof. reflexivity. Qed.

Example normalize_ctrl_l : _normalize_send_keys_token "Ctrl+L" = Some "Control+l".
Proof. reflexivity. Qed.

Example normalize_cmd_shift_tab :
  _normalize_send_keys_token " cmd + Shift + Tab " = Some "Meta+Shift+Tab".
Proof. reflexivity. Qed.

Example normalize_last_key_wins :
  _normalize_send_keys_token "Ctrl+a+B" = Some "Control+b".
Proof. reflexivity. Qed.

Example normalize_unknown : _normalize_send_keys_token "unknownfoo" = None.
Proof. reflexivity. Qed.

Example finditer_hello :
  finditer "Hello{Enter}World" = [mk_match 5 12 "Enter"].
Proof. reflexivity. Qed.

Example finditer_nested :
  finditer "a{{b}c}{}{d" = [mk_match 2 5 "b"].
Proof. reflexivity. Qed.

Example finditer_adjacent :
  finditer "{a}{b}" = [mk_match 0 3 "a"; mk_match 3 6 "b"].
Proof. reflexivity. Qed.

Example finditer_doubled : finditer "{{a}}" = [mk_match 1 4 "a"].
Proof. reflexivity. Qed.

Example finditer_empty_tokens : finditer "{}{}x{y" = [].
Proof. reflexivity. Qed.

Example split_examples :
  py_split "+" "a++b" = ["a"; ""; "b"] /\ py_split "+" "" = [""]
  /\ py_split "+" "+" = [""; ""].
Proof. repeat split. Qed.

Example strip_examples :
  py_strip "  Ctrl " = "Ctrl" /\ py_strip "   " = "" /\ py_strip "a b" = "a b".
Proof. repeat split. Qed.

(** The white-space characters below 256 are 9-13, 28-32, 133 and 160;
    the upper-case ones are A-Z and 192-222 except 215. *)
Example isspace_codes :
  filter (fun n => py_isspace (ascii_of_nat n)) (seq 0 256)
  = [9; 10; 11; 12; 13; 28; 29; 30; 31; 32; 133; 160].
Proof. vm_compute. reflexivity. Qed.

Example lower_codes :
  filter (fun n => negb (Ascii.eqb (lower_char (ascii_of_nat n)) (ascii_of_nat n)))
         (seq 0 256)
  = seq 65 26 ++ seq 192 23 ++ seq 216 7.
Proof. vm_compute. reflexivity. Qed.

Example number_texts :
  Z_to_string 5 = "5" /\ Z_to_string (-3) = "-3" /\ Z_to_string 0 = "0".
Proof. repeat split. Qed.

Lemma brace_free_cons c s :
  brace_free (String c s) = negb (is_brace c) && brace_free s.
Proof.
  unfold brace_free, is_brace; simpl.
  destruct (Ascii.eqb c "{"), (Ascii.eqb c "}"),
    (contains_char "{" s), (contains_char "}" s); reflexivity.
Qed.

Lemma span_token_stop tok c rest :
  brace_free tok = true -> is_brace c = true ->
  span_token (tok ++ String c rest)%string = (tok, String c rest).
Proof.
  intros Hf Hc. induction tok as [|a tok IH]; simpl.
  - now rewrite Hc.
  - rewrite brace_free_cons in Hf. apply andb_true_iff in Hf as [Ha Hf].
    apply negb_true_iff in Ha. rewrite Ha, (IH Hf). reflexivity.
Qed.

Lemma match_here_token tok rest :
  brace_free tok = true -> tok <> "" ->
  match_here ("{" ++ tok ++ "}" ++ rest)%string = Some tok.
Proof.
  intros Hf Hne. simpl.
  change (String "}" rest) with (String "}"%char rest).
  rewrite (span_token_stop tok "}"%char rest Hf eq_refl).
  destruct tok; [congruence | reflexivity].
Qed.

Lemma finditer_at_skip s : forall pos k,
  String.length s <= k -> finditer_at pos k s = [].
Proof.
  induction s as [|c s IH]; intros pos k Hk; simpl in *; [reflexivity|].
  destruct k; [lia|]. apply IH. lia.
Qed.

Lemma length_append (s1 s2 : string) :
  String.length (s1 ++ s2)%string = String.length s1 + String.length s2.
Proof. induction s1; simpl; congruence. Qed.

(** The pattern on a text that is exactly one bracketed token. *)
Lemma finditer_single tok :
  brace_free tok = true -> tok <> "" ->
  finditer ("{" ++ tok ++ "}")%string = [mk_match 0 (String.length tok + 2) tok].
Proof.
  intros Hf Hne. unfold finditer.
  change ("{" ++ tok ++ "}")%string with (String "{"%char (tok ++ "}"))%string.
  cbn [finditer_at].
  change (String "{"%char (tok ++ "}"))%string with ("{" ++ tok ++ "}" ++ "")%string.
  rewrite (match_here_token tok "" Hf Hne). cbn [Nat.add].
  rewrite finditer_at_skip; [reflexivity|].
  rewrite length_append. simpl. lia.
Qed.

Lemma contains_char_append ch s1 s2 :
  contains_char ch (s1 ++ s2)%string = contains_char ch s1 || contains_char ch s2.
Proof.
  induction s1 as [|c s1 IH]; simpl; [reflexivity|].
  rewrite IH. now rewrite orb_assoc.
Qed.

Lemma py_drop_all s : forall n, String.length s <= n -> py_drop n s = "".
Proof.
  induction s as [|c s IH]; intros [|n] H; simpl in *; try reflexivity; try lia.
  apply IH. lia.
Qed.

Lemma append_nonempty_r (s1 s2 : string) : s2 <> "" -> (s1 ++ s2)%string <> "".
Proof. destruct s1; simpl; [auto | discriminate]. Qed.

Lemma clear_for_false cv : clear_for false cv = clear_flag cv.
Proof. unfold clear_for, clear_flag. destruct (is_none cv); reflexivity. Qed.

Lemma clear_for_true cv : clear_for true cv = None.
Proof. reflexivity. Qed.

(** What the sanitizer does with a text that is one bracketed token. *)
Lemma sanitize_single_token a tok index cv :
  typed_text_action a ("{" ++ tok ++ "}")%string index cv ->
  brace_free tok = true -> tok <> "" ->
  sanitize_action a =
    match _normalize_send_keys_token tok with
    | Some keys => [input_action index "" (clear_flag cv); send_keys_action keys]
    | None => [input_action index ("{" ++ tok ++ "}")%string (clear_flag cv)]
    end.
Proof.
  intros (top & ip & Hd & Hin & Htxt & Hidx & Hcl) Hf Hne.
  unfold sanitize_action. rewrite Hd, Hin, Htxt, Hidx, Hcl.
  replace (contains_char "{" ("{" ++ tok ++ "}")%string) with true by reflexivity.
  replace (contains_char "}" ("{" ++ tok ++ "}")%string) with true
    by (symmetry; simpl; rewrite contains_char_append; simpl; apply orb_true_r).
  cbn [negb orb].
  rewrite (finditer_single tok Hf Hne).
  cbn [sanitize_matches m_start m_end m_group1].
  replace (py_slice 0 0 ("{" ++ tok ++ "}")%string) with "" by reflexivity.
  cbn [String.eqb negb].
  assert (Hdrop : py_drop (String.length tok + 2) ("{" ++ tok ++ "}")%string = "")
    by (apply py_drop_all; simpl; rewrite length_append; simpl; lia).
  destruct (_normalize_send_keys_token tok) as [keys|].
  - cbv iota beta. rewrite Hdrop. reflexivity.
  - replace (negb (("{" ++ tok ++ "}")%string =? "")) with true by reflexivity.
    cbv iota beta. rewrite Hdrop, clear_for_false. reflexivity.
Qed.

(** *** The inner loop: where the clear flag can appear *)

Lemma no_clear_input index text : no_clear (input_action index text None).
Proof. reflexivity. Qed.

Lemma no_clear_send_keys keys : no_clear (send_keys_action keys).
Proof. reflexivity. Qed.

Create HintDb sanitizer.
#[local] Hint Resolve no_clear_input no_clear_send_keys : sanitizer.

Ltac split_step :=
  match goal with
  | |- context [sanitize_matches ?r ?i ?c ?l ?k ?t] =>
      let out := fresh "out" in let cur := fresh "cur" in
      let ty := fresh "ty" in let E := fresh "E" in
      destruct (sanitize_matches r i c l k t) as [[out cur] ty] eqn:E
  end.

Lemma sanitize_matches_typed raw index cv matches : forall cursor,
  Forall no_clear (fst (fst (sanitize_matches raw index cv matches cursor true))).
Proof.
  induction matches as [|m rest IH]; intros cursor; cbn [sanitize_matches].
  - constructor.
  - specialize (IH (m_end m)).
    destruct (negb (py_slice cursor (m_start m) raw =? "")),
      (_normalize_send_keys_token (m_group1 m));
      cbn [negb app clear_for andb];
      try (destruct (negb (("{" ++ m_group1 m ++ "}")%string =? "")));
      split_step; cbn [fst app] in *;
      repeat (constructor; auto with sanitizer); assumption.
Qed.

Lemma sanitize_matches_flag raw index cv matches : forall cursor,
  snd (sanitize_matches raw index cv matches cursor true) = true.
Proof.
  induction matches as [|m rest IH]; intros cursor; cbn [sanitize_matches];
    [reflexivity|].
  specialize (IH (m_end m)).
  destruct (negb (py_slice cursor (m_start m) raw =? "")),
    (_normalize_send_keys_token (m_group1 m));
    cbn [negb]; try (destruct (negb (("{" ++ m_group1 m ++ "}")%string =? "")));
    split_step; cbn [snd] in *; assumption.
Qed.

(** From a fresh start, a non-empty list of matches emits a first action
    and only that one may carry the flag; the loop ends with
    [has_typed_anything] set. *)
Lemma sanitize_matches_first raw index cv m rest cursor :
  exists first others cursor',
    sanitize_matches raw index cv (m :: rest) cursor false
      = (first :: others, cursor', true) /\ Forall no_clear others.
Proof.
  cbn [sanitize_matches].
  replace (negb (("{" ++ m_group1 m ++ "}")%string =? "")) with true by reflexivity.
  pose proof (sanitize_matches_typed raw index cv rest (m_end m)) as Hrest.
  pose proof (sanitize_matches_flag raw index cv rest (m_end m)) as Hlast.
  destruct (sanitize_matches raw index cv rest (m_end m) true) as [[o c'] t] eqn:E.
  cbn [fst snd] in *. subst t.
  destruct (negb (py_slice cursor (m_start m) raw =? "")),
    (_normalize_send_keys_token (m_group1 m)); cbn [negb app];
    rewrite E; eexists _, _, _; (split; [reflexivity|]);
    repeat (constructor; auto with sanitizer); assumption.
Qed.

(** The clear flag appears at most on the first action emitted for an
    original action. *)
Lemma sanitize_action_clear_first a first others :
  sanitize_action a = first :: others -> Forall no_clear others.
Proof.
  unfold sanitize_action.
  destruct (model_dump a) as [[| | | |?|top|]|]; try (intros [= _ <-]; constructor).
  destruct (dict_get top "input" PNone) as [| | | |?|ip|]; try (intros [= _ <-]; constructor).
  destruct (dict_get ip "text" PNone) as [| | |raw|?|?|]; try (intros [= _ <-]; constructor).
  destruct (negb (contains_char "{" raw) || negb (contains_char "}" raw));
    [intros [= _ <-]; constructor|].
  destruct (finditer raw) as [|m rest]; [intros [= _ <-]; constructor|].
  destruct (sanitize_matches_first raw (dict_get ip "index" PNone)
              (dict_get ip "clear" PNone) m rest 0)
    as (f & o & c & -> & Ho).
  cbn [negb].
  destruct (negb (py_drop c raw =? "")); intros [= _ <-]; auto.
  apply Forall_app; split; auto. repeat constructor.
Qed.

(** *** The inner loop: literal spans before a token *)

Lemma sanitize_matches_span raw index cv before : forall m after cursor typed,
  let span := py_slice (cursor_after before cursor) (m_start m) raw in
  span <> "" ->
  exists cl,
    In (input_action index span cl)
       (fst (fst (sanitize_matches raw index cv (before ++ m :: after) cursor typed)))
    /\ (cl = None \/ (before = [] /\ typed = false /\ cl = clear_flag cv)).
Proof.
  induction before as [|b before IH]; intros m after cursor typed span Hne.
  - cbn [app sanitize_matches]. subst span. cbn [cursor_after fold_left] in *.
    destruct (String.eqb_spec (py_slice cursor (m_start m) raw) "") as [E|_];
      [contradiction|]. cbn [negb].
    exists (clear_for typed cv). split.
    + destruct (_normalize_send_keys_token (m_group1 m));
        try (destruct (negb (("{" ++ m_group1 m ++ "}")%string =? "")));
        split_step; cbn [fst app]; left; reflexivity.
    + destruct typed; [left; reflexivity | right].
      rewrite clear_for_false. auto.
  - cbn [app sanitize_matches]. subst span.
    change (cursor_after (b :: before) cursor) with (cursor_after before (m_end b)) in *.
    replace (negb (("{" ++ m_group1 b ++ "}")%string =? "")) with true by reflexivity.
    destruct (IH m after (m_end b) true Hne) as (cl & Hin & [Hcl | (_ & [=] & _)]).
    exists cl. split; [|left; exact Hcl].
    destruct (sanitize_matches raw index cv (before ++ m :: after) (m_end b) true)
      as [[o c'] t] eqn:E.
    cbn [fst] in Hin.
    destruct (negb (py_slice cursor (m_start b) raw =? "")),
      (_normalize_send_keys_token (m_group1 b)); cbn [negb app];
      rewrite E; cbn [fst];
      repeat (first [assumption | apply in_cons | (apply in_or_app; right)]).
Qed.

(** *** Modifier combinations, in general *)

Lemma plain_no_space s : plain s = true -> no_space s = true.
Proof.
  unfold plain, no_space. intros H. apply andb_true_iff in H as [_ H].
  induction s as [|c s IH]; simpl in *; [reflexivity|].
  apply andb_true_iff in H as [Hc H]. apply andb_true_iff in Hc as [_ Hc].
  now rewrite Hc, IH.
Qed.

Lemma plain_no_plus s : plain s = true -> no_plus s = true.
Proof.
  unfold plain, no_plus. intros H. apply andb_true_iff in H as [_ H].
  induction s as [|c s IH]; simpl in *; [reflexivity|].
  apply andb_true_iff in H as [Hc H]. apply andb_true_iff in Hc as [Hc _].
  now rewrite Hc, IH.
Qed.

Lemma plain_nonempty s : plain s = true -> s <> "".
Proof. destruct s; [discriminate | discriminate]. Qed.

Lemma all_chars_append p s1 s2 :
  all_chars p (s1 ++ s2)%string = all_chars p s1 && all_chars p s2.
Proof. induction s1; simpl; [reflexivity|]. now rewrite IHs1, andb_assoc. Qed.

Lemma rstrip_no_space s : no_space s = true -> rstrip s = s.
Proof.
  unfold no_space. induction s as [|c s IH]; simpl; [reflexivity|].
  intros H. apply andb_true_iff in H as [Hc H]. rewrite (IH H).
  apply negb_true_iff in Hc. rewrite Hc. destruct s; reflexivity.
Qed.

Lemma py_strip_no_space s : no_space s = true -> py_strip s = s.
Proof.
  intros H. unfold py_strip.
  assert (lstrip s = s) as ->; [|now apply rstrip_no_space].
  destruct s as [|c s]; [reflexivity|]. unfold no_space in H. simpl in *.
  apply andb_true_iff in H as [Hc _]. apply negb_true_iff in Hc. now rewrite Hc.
Qed.

Lemma append_assoc (a b c : string) : ((a ++ b) ++ c = a ++ (b ++ c))%string.
Proof. induction a; simpl; congruence. Qed.

Lemma split_on_segment p : forall acc,
  no_plus p = true ->
  (forall rest, split_on "+" acc (p ++ "+" ++ rest)%string
                = (acc ++ p)%string :: split_on "+" "" rest)
  /\ split_on "+" acc p = [(acc ++ p)%string].
Proof.
  unfold no_plus. induction p as [|c p IH]; intros acc H; simpl in *.
  - assert (acc ++ "" = acc)%string as -> by (induction acc; simpl; congruence).
    split; reflexivity.
  - apply andb_true_iff in H as [Hc H]. apply negb_true_iff in Hc.
    unfold is_plus in Hc. rewrite Hc.
    destruct (IH (acc ++ String c "")%string H) as [IH1 IH2].
    replace (acc ++ String c p)%string with ((acc ++ String c "") ++ p)%string
      by (rewrite append_assoc; reflexivity).
    split; [intros rest; apply IH1 | apply IH2].
Qed.

Lemma split_join parts :
  parts <> [] -> Forall (fun p => plain p = true) parts ->
  py_split "+" (py_join "+" parts) = parts.
Proof.
  unfold py_split. induction parts as [|p parts IH]; intros Hne Hall; [congruence|].
  inversion Hall as [|? ? Hp Hrest]; subst.
  destruct parts as [|q parts].
  - simpl. now destruct (split_on_segment p "" (plain_no_plus p Hp)) as [_ ->].
  - change (py_join "+" (p :: q :: parts))
      with (p ++ "+" ++ py_join "+" (q :: parts))%string.
    destruct (split_on_segment p "" (plain_no_plus p Hp)) as [-> _].
    simpl append at 1. f_equal. apply IH; [discriminate | assumption].
Qed.

Lemma join_no_space parts :
  Forall (fun p => plain p = true) parts -> no_space (py_join "+" parts) = true.
Proof.
  induction parts as [|p parts IH]; intros Hall; [reflexivity|].
  inversion Hall as [|? ? Hp Hrest]; subst.
  destruct parts as [|q parts]; [now apply plain_no_space|].
  change (py_join "+" (p :: q :: parts))
    with (p ++ "+" ++ py_join "+" (q :: parts))%string.
  unfold no_space in *. rewrite !all_chars_append.
  rewrite (plain_no_space p Hp : all_chars _ p = true), (IH Hrest). reflexivity.
Qed.

Lemma join_nonempty parts :
  parts <> [] -> Forall (fun p => plain p = true) parts -> py_join "+" parts <> "".
Proof.
  destruct parts as [|p parts]; [congruence|]. intros _ Hall.
  inversion Hall as [|? ? Hp _]; subst.
  destruct p; [discriminate|]. destruct parts; discriminate.
Qed.

Lemma join_has_plus p parts :
  parts <> [] -> contains_char "+" (py_join "+" (p :: parts)) = true.
Proof.
  destruct parts as [|q parts]; [congruence|]. intros _.
  change (py_join "+" (p :: q :: parts))
    with (p ++ "+" ++ py_join "+" (q :: parts))%string.
  rewrite contains_char_append. simpl. apply orb_true_r.
Qed.

Lemma lower_keeps_plus s :
  contains_char "+" s = true -> contains_char "+" (py_lower s) = true.
Proof.
  induction s as [|c s IH]; simpl; [discriminate|].
  intros H. apply orb_true_iff in H as [H|H].
  - apply Ascii.eqb_eq in H. subst c. reflexivity.
  - rewrite (IH H). apply orb_true_r.
Qed.

Lemma simple_map_no_plus l v :
  str_lookup simple_map l = Some v -> contains_char "+" l = false.
Proof.
  unfold simple_map. cbn [str_lookup].
  repeat match goal with
         | |- context [String.eqb ?k l] =>
             destruct (String.eqb_spec k l); [subst l; intros _; reflexivity|]
         end.
  discriminate.
Qed.

Lemma scan_parts_modifiers ms : forall acc k0,
  Forall (fun m => is_modifier m = true) ms ->
  scan_parts ms acc k0 = (acc ++ map canonical ms, k0).
Proof.
  unfold is_modifier, canonical.
  induction ms as [|m ms IH]; intros acc k0 Hms; simpl; [now rewrite app_nil_r|].
  inversion Hms as [|? ? Hm Hrest]; subst.
  destruct (modifier_of (py_lower m)) as [c|]; [|discriminate].
  rewrite (IH _ _ Hrest), <- app_assoc. reflexivity.
Qed.

Lemma scan_parts_combo ms1 key ms2 : forall acc k0,
  Forall (fun m => is_modifier m = true) (ms1 ++ ms2) -> is_modifier key = false ->
  scan_parts (ms1 ++ key :: ms2) acc k0 = (acc ++ map canonical (ms1 ++ ms2), Some key).
Proof.
  induction ms1 as [|m ms1 IH]; intros acc k0 Hms Hkey; cbn [app scan_parts].
  - unfold is_modifier in Hkey.
    destruct (modifier_of (py_lower key)); [discriminate|].
    now apply scan_parts_modifiers.
  - inversion Hms as [|? ? Hm Hrest]; subst.
    unfold is_modifier in Hm. cbn [map]. unfold canonical at 1.
    destruct (modifier_of (py_lower m)) as [c|]; [|discriminate].
    rewrite (IH _ _ Hrest Hkey), <- app_assoc. reflexivity.
Qed.

(** A combination of modifier aliases around one key normalises to the
    canonical modifiers, in order, then the key, joined by [+]; a
    one-character key is lower-cased. *)
Lemma normalize_combination ms1 key ms2 :
  ms1 ++ ms2 <> [] ->
  Forall (fun p => plain p = true) (ms1 ++ key :: ms2) ->
  Forall (fun m => is_modifier m = true) (ms1 ++ ms2) -> is_modifier key = false ->
  _normalize_send_keys_token (py_join "+" (ms1 ++ key :: ms2))
  = Some (py_join "+" (map canonical (ms1 ++ ms2)
                         ++ [if (String.length key =? 1)%nat then py_lower key else key])).
Proof.
  intros Hne Hplain Hms Hkey.
  assert (Hne' : ms1 ++ key :: ms2 <> []) by (destruct ms1; discriminate).
  unfold _normalize_send_keys_token.
  rewrite (py_strip_no_space _ (join_no_space _ Hplain)).
  destruct (String.eqb_spec (py_join "+" (ms1 ++ key :: ms2)) "") as [E|_];
    [exfalso; exact (join_nonempty _ Hne' Hplain E)|].
  assert (Hplus : contains_char "+" (py_join "+" (ms1 ++ key :: ms2)) = true).
  { destruct ms1 as [|m ms1]; cbn [app].
    - apply join_has_plus. destruct ms2; [now contradiction Hne | discriminate].
    - apply join_has_plus. destruct ms1; discriminate. }
  destruct (str_lookup simple_map (py_lower (py_join "+" (ms1 ++ key :: ms2))))
    as [v|] eqn:E.
  { apply simple_map_no_plus in E. rewrite (lower_keeps_plus _ Hplus) in E. discriminate. }
  rewrite Hplus. unfold plus_parts. rewrite (split_join _ Hne' Hplain).
  assert (Hparts : filter (fun p => negb (p =? "")) (map py_strip (ms1 ++ key :: ms2))
                   = ms1 ++ key :: ms2).
  { clear -Hplain. induction (ms1 ++ key :: ms2) as [|p l IH]; [reflexivity|].
    inversion Hplain as [|? ? Hp Hrest]; subst. simpl.
    rewrite (py_strip_no_space p (plain_no_space p Hp)).
    destruct (String.eqb_spec p "") as [->|_]; [discriminate|]. simpl.
    now rewrite (IH Hrest). }
  rewrite Hparts, (scan_parts_combo ms1 key ms2 [] None Hms Hkey). cbn [app].
  destruct (ms1 ++ key :: ms2) eqn:E'; [congruence | reflexivity].
Qed.

Example normalize_combination_ctrl_l :
  _normalize_send_keys_token (py_join "+" (["Ctrl"] ++ "L" :: [])) = Some "Control+l".
Proof.
  apply (normalize_combination ["Ctrl"] "L" []);
    [discriminate | repeat constructor ..| reflexivity].
Qed.

Example normalize_combination_key_first :
  _normalize_send_keys_token (py_join "+" ([] ++ "L" :: ["shift"; "CTRL"]))
  = Some "Shift+Control+l".
Proof.
  apply (normalize_combination [] "L" ["shift"; "CTRL"]);
    [discriminate | repeat constructor ..| reflexivity].
Qed.

(** *** The pattern needs both braces *)

Lemma span_token_split s : forall tok rest,
  span_token s = (tok, rest) -> s = (tok ++ rest)%string.
Proof.
  induction s as [|c s IH]; intros tok rest; simpl.
  - intros [= <- <-]. reflexivity.
  - destruct (is_brace c); [intros [= <- <-]; reflexivity|].
    destruct (span_token s) as [t r]. intros [= <- <-].
    simpl. f_equal. now apply IH.
Qed.

Lemma match_here_braces s tok :
  match_here s = Some tok ->
  contains_char "{" s = true /\ contains_char "}" s = true.
Proof.
  destruct s as [|c s]; [discriminate|]. simpl.
  destruct (Ascii.eqb_spec c "{"%char) as [->|_]; [|discriminate].
  destruct (span_token s) as [t r] eqn:E. apply span_token_split in E. subst s.
  destruct t as [|a t]; [discriminate|].
  destruct r as [|c' r]; [discriminate|].
  destruct (Ascii.eqb_spec c' "}"%char) as [->|_]; [|discriminate].
  intros _. split; [reflexivity|].
  simpl. rewrite contains_char_append. simpl.
  now rewrite !orb_true_r.
Qed.

Lemma finditer_at_braces s : forall pos skip,
  finditer_at pos skip s <> [] ->
  contains_char "{" s = true /\ contains_char "}" s = true.
Proof.
  induction s as [|c s IH]; intros pos skip H; [now contradiction H|].
  cbn [finditer_at] in H.
  assert (Hrec : forall p k, finditer_at p k s <> [] ->
            contains_char "{" (String c s) = true /\ contains_char "}" (String c s) = true).
  { intros p k Hk. destruct (IH p k Hk) as [H1 H2]. simpl.
    now rewrite H1, H2, !orb_true_r. }
  destruct skip as [|k]; [|now apply (Hrec _ _ H)].
  destruct (match_here (String c s)) as [tok|] eqn:E;
    [now apply (match_here_braces _ tok) | now apply (Hrec _ _ H)].
Qed.

Lemma flat_map_single {A B} (f : A -> list B) (a : A) : flat_map f [a] = f a.
Proof. simpl. apply app_nil_r. Qed.

(** *** What the pattern matches *)

Lemma span_token_brace_free s : forall tok rest,
  span_token s = (tok, rest) -> brace_free tok = true.
Proof.
  induction s as [|c s IH]; intros tok rest; simpl.
  - intros [= <- <-]. reflexivity.
  - destruct (is_brace c) eqn:Hc; [intros [= <- <-]; reflexivity|].
    destruct (span_token s) as [t r]. intros [= <- <-].
    rewrite brace_free_cons, Hc. simpl. now apply (IH t r).
Qed.

Lemma match_here_sound s tok :
  match_here s = Some tok ->
  brace_free tok = true /\ tok <> ""
  /\ exists rest, s = ("{" ++ tok ++ "}" ++ rest)%string.
Proof.
  destruct s as [|c s]; [discriminate|]. simpl.
  destruct (Ascii.eqb_spec c "{"%char) as [->|_]; [|discriminate].
  destruct (span_token s) as [t r] eqn:E.
  pose proof (span_token_brace_free s t r E) as Hf.
  apply span_token_split in E. subst s.
  destruct t as [|a t]; [discriminate|].
  destruct r as [|c' r]; [discriminate|].
  destruct (Ascii.eqb_spec c' "}"%char) as [->|_]; [|discriminate].
  intros [= <-]. split; [assumption|]. split; [discriminate|].
  exists r. reflexivity.
Qed.

(** Every match is a bracketed, non-empty, brace-free token of the text,
    found where the match says. *)
Lemma finditer_at_sound s : forall pos skip m,
  In m (finditer_at pos skip s) ->
  brace_free (m_group1 m) = true /\ m_group1 m <> ""
  /\ m_end m = m_start m + String.length (m_group1 m) + 2
  /\ exists before rest,
       s = (before ++ "{" ++ m_group1 m ++ "}" ++ rest)%string
       /\ m_start m = pos + String.length before.
Proof.
  induction s as [|c s IH]; intros pos skip m Hin; [contradiction|].
  cbn [finditer_at] in Hin.
  assert (Hrec : forall k, In m (finditer_at (S pos) k s) ->
    brace_free (m_group1 m) = true /\ m_group1 m <> ""
    /\ m_end m = m_start m + String.length (m_group1 m) + 2
    /\ exists before rest,
         String c s = (before ++ "{" ++ m_group1 m ++ "}" ++ rest)%string
         /\ m_start m = pos + String.length before).
  { intros k Hk. destruct (IH (S pos) k m Hk) as (H1 & H2 & H3 & before & rest & Hs & Hst).
    repeat (split; [assumption|]).
    exists (String c before), rest. split; [simpl; now rewrite Hs|].
    simpl. lia. }
  destruct skip as [|k]; [|now apply (Hrec k)].
  destruct (match_here (String c s)) as [tok|] eqn:E; [|now apply (Hrec 0)].
  destruct Hin as [<-|Hin]; [|now apply (Hrec _ Hin)].
  destruct (match_here_sound _ tok E) as (Hf & Hne & rest & Hs).
  cbn [m_start m_end m_group1].
  repeat (split; [first [assumption | reflexivity]|]).
  exists "", rest. split; [exact Hs | simpl; lia].
Qed.

Lemma finditer_sound text m :
  In m (finditer text) ->
  brace_free (m_group1 m) = true /\ m_group1 m <> ""
  /\ m_end m = m_start m + String.length (m_group1 m) + 2
  /\ exists before rest,
       text = (before ++ "{" ++ m_group1 m ++ "}" ++ rest)%string
       /\ m_start m = String.length before.
Proof. intros H. exact (finditer_at_sound text 0 0 m H). Qed.

(** The sanitizer on a typed-text action whose text has matches. *)
Lemma sanitize_action_matches a raw index cv m rest :
  typed_text_action a raw index cv -> finditer raw = m :: rest ->
  sanitize_action a =
    let '(out, cursor, typed) := sanitize_matches raw index cv (m :: rest) 0 false in
    let suffix := py_drop cursor raw in
    if negb (suffix =? "") then out ++ [input_action index suffix None]
    else if negb typed then out ++ [a] else out.
Proof.
  intros (top & ip & Hd & Hin & Htxt & Hidx & Hcl) Hfind.
  destruct (finditer_at_braces raw 0 0) as [H1 H2];
    [unfold finditer in Hfind; rewrite Hfind; discriminate|].
  unfold sanitize_action. rewrite Hd, Hin, Htxt, Hidx, Hcl, H1, H2, Hfind.
  reflexivity.
Qed.

(** *** One token between two literal spans *)

Lemma finditer_at_prefix pre : forall pos s,
  brace_free pre = true ->
  finditer_at pos 0 (pre ++ s)%string = finditer_at (pos + String.length pre) 0 s.
Proof.
  induction pre as [|c pre IH]; intros pos s Hf; cbn [append String.length].
  - now rewrite Nat.add_0_r.
  - rewrite brace_free_cons in Hf. apply andb_true_iff in Hf as [Hc Hf].
    apply negb_true_iff in Hc. unfold is_brace in Hc.
    apply orb_false_iff in Hc as [Hc _].
    cbn [finditer_at match_here]. rewrite Hc, (IH (S pos) s Hf).
    f_equal. lia.
Qed.

Lemma finditer_at_skip_over s1 : forall pos s2,
  finditer_at pos (String.length s1) (s1 ++ s2)%string
  = finditer_at (pos + String.length s1) 0 s2.
Proof.
  induction s1 as [|c s1 IH]; intros pos s2; cbn [append String.length].
  - now rewrite Nat.add_0_r.
  - cbn [finditer_at]. rewrite IH. f_equal. lia.
Qed.

Lemma finditer_at_brace_free s pos :
  brace_free s = true -> finditer_at pos 0 s = [].
Proof.
  intros Hf. destruct (finditer_at pos 0 s) eqn:E; [reflexivity|].
  destruct (finditer_at_braces s pos 0) as [H _]; [rewrite E; discriminate|].
  unfold brace_free in Hf. rewrite H in Hf. discriminate.
Qed.

Lemma finditer_one_token pre tok post :
  brace_free pre = true -> brace_free tok = true -> tok <> "" ->
  brace_free post = true ->
  finditer (pre ++ "{" ++ tok ++ "}" ++ post)%string
  = [mk_match (String.length pre) (String.length pre + String.length tok + 2) tok].
Proof.
  intros Hpre Htok Hne Hpost. unfold finditer.
  rewrite (finditer_at_prefix pre 0 _ Hpre). cbn [Nat.add].
  change ("{" ++ tok ++ "}" ++ post)%string
    with (String "{"%char (tok ++ "}" ++ post))%string.
  cbn [finditer_at].
  change (String "{"%char (tok ++ "}" ++ post))%string
    with ("{" ++ tok ++ "}" ++ post)%string.
  rewrite (match_here_token tok post Htok Hne). f_equal.
  replace (tok ++ "}" ++ post)%string with ((tok ++ "}") ++ post)%string
    by (now rewrite append_assoc).
  replace (String.length tok + 1) with (String.length (tok ++ "}")%string)
    by (rewrite length_append; reflexivity).
  rewrite finditer_at_skip_over. now apply finditer_at_brace_free.
Qed.

Lemma substring_prefix s1 s2 :
  substring 0 (String.length s1) (s1 ++ s2)%string = s1.
Proof.
  induction s1 as [|c s1 IH]; cbn.
  - destruct s2; reflexivity.
  - now rewrite IH.
Qed.

Lemma py_drop_append s1 s2 : py_drop (String.length s1) (s1 ++ s2)%string = s2.
Proof. induction s1 as [|c s1 IH]; cbn; [reflexivity | assumption]. Qed.

Lemma brace_free_has_no_brace s ch :
  brace_free s = true -> is_brace ch = true -> contains_char ch s = false.
Proof.
  unfold brace_free, is_brace. intros Hf Hc.
  apply andb_true_iff in Hf as [H1 H2].
  apply negb_true_iff in H1. apply negb_true_iff in H2.
  apply orb_true_iff in Hc as [Hc|Hc]; apply Ascii.eqb_eq in Hc; subst ch; assumption.
Qed.

(** A text with one recognised token between two non-empty literal
    spans: the span before, the key, the span after. *)
Lemma sanitize_span_key_span a pre tok post index cv keys :
  typed_text_action a (pre ++ "{" ++ tok ++ "}" ++ post)%string index cv ->
  brace_free pre = true -> pre <> "" ->
  brace_free tok = true -> tok <> "" ->
  brace_free post = true -> post <> "" ->
  _normalize_send_keys_token tok = Some keys ->
  _sanitize_actions [a] =
    [ input_action index pre (clear_flag cv);
      send_keys_action keys;
      input_action index post None ].
Proof.
  intros H Hpre Hpne Htok Htne Hpost Hpone Hn.
  unfold _sanitize_actions. rewrite flat_map_single.
  rewrite (sanitize_action_matches a _ index cv _ [] H
             (finditer_one_token pre tok post Hpre Htok Htne Hpost)).
  cbn [sanitize_matches m_start m_end m_group1].
  unfold py_slice. rewrite Nat.sub_0_r, substring_prefix, Hn.
  destruct (String.eqb_spec pre "") as [E|_]; [contradiction|].
  cbn [negb app]. rewrite clear_for_false.
  replace (String.length pre + String.length tok + 2)
    with (String.length (pre ++ "{" ++ tok ++ "}")%string)
    by (repeat (rewrite length_append; cbn); lia).
  replace (pre ++ "{" ++ tok ++ "}" ++ post)%string
    with ((pre ++ "{" ++ tok ++ "}") ++ post)%string
    by (repeat (rewrite append_assoc; cbn); reflexivity).
  rewrite py_drop_append.
  destruct (String.eqb_spec post "") as [E|_]; [contradiction|].
  reflexivity.
Qed.

(** C1.  A typed-text action "Hello{Enter}World" at index 5 with
    clear=true is rewritten into exactly: typing "Hello" (index 5,
    clear=true), key-press "Enter", typing "World" (index 5, no clear);
    so is every text made of a literal span, a recognised token and a
    literal span.  In general every non-empty literal span before a token
    becomes a typing action at the original index, and within the actions
    emitted for one original action only the first can carry the clear
    flag. *)
Theorem sanitize_hello_enter_world :
  (forall a,
     typed_text_action a "Hello{Enter}World" (PInt 5) (PBool true) ->
     _sanitize_actions [a] =
       [ input_action (PInt 5) "Hello" (Some (PBool true));
         send_keys_action "Enter";
         input_action (PInt 5) "World" None ])
  /\ (forall a pre tok post index cv keys,
        typed_text_action a (pre ++ "{" ++ tok ++ "}" ++ post)%string index cv ->
        brace_free pre = true -> pre <> "" ->
        brace_free tok = true -> tok <> "" ->
        brace_free post = true -> post <> "" ->
        _normalize_send_keys_token tok = Some keys ->
        _sanitize_actions [a] =
          [ input_action index pre (clear_flag cv);
            send_keys_action keys;
            input_action index post None ])
  /\ (forall a raw index cv before m after,
        typed_text_action a raw index cv ->
        finditer raw = before ++ m :: after ->
        let span := py_slice (cursor_after before 0) (m_start m) raw in
        span <> "" ->
        exists cl,
          In (input_action index span cl) (_sanitize_actions [a])
          /\ (cl = None \/ (before = [] /\ cl = clear_flag cv)))
  /\ (forall a first others,
        sanitize_action a = first :: others -> Forall no_clear others).
Proof.
  split; [|split; [exact sanitize_span_key_span|split]].
  - intros a H. unfold _sanitize_actions. rewrite flat_map_single.
    rewrite (sanitize_action_matches a _ _ _ (mk_match 5 12 "Enter") [] H eq_refl).
    reflexivity.
  - intros a raw index cv before m after H Hfind span Hne.
    unfold _sanitize_actions. rewrite flat_map_single.
    destruct (sanitize_matches_span raw index cv before m after 0 false Hne)
      as (cl & Hin & Hcl).
    exists cl. split.
    + destruct (before ++ m :: after) as [|m0 l] eqn:El;
        [destruct before; discriminate|].
      rewrite (sanitize_action_matches a raw index cv m0 l H Hfind).
      destruct (sanitize_matches raw index cv (m0 :: l) 0 false) as [[o c] t].
      cbn [fst] in Hin. cbv zeta.
      destruct (negb (py_drop c raw =? "")); [apply in_or_app; now left|].
      destruct (negb t); [apply in_or_app; now left | assumption].
    + destruct Hcl as [Hcl | (Hb & _ & Hcl)]; [now left | now right].
  - exact sanitize_action_clear_first.
Qed.

Lemma sanitize_hello_enter_world_witness :
  _sanitize_actions [hello_action] =
    [ input_action (PInt 5) "Hello" (Some (PBool true));
      send_keys_action "Enter";
      input_action (PInt 5) "World" None ]
  /\ (exists cl,
        In (input_action (PInt 5) "Hello" cl) (_sanitize_actions [hello_action])
        /\ (cl = None \/ (@nil re_match = [] /\ cl = clear_flag (PBool true))))
  /\ Forall no_clear [send_keys_action "Enter"; input_action (PInt 5) "World" None].
Proof.
  assert (H : typed_text_action hello_action "Hello{Enter}World" (PInt 5) (PBool true)).
  { exists [("input",
       PDict [("index", PInt 5); ("text", PStr "Hello{Enter}World"); ("clear", PBool true)])],
      [("index", PInt 5); ("text", PStr "Hello{Enter}World"); ("clear", PBool true)].
    repeat split; reflexivity. }
  destruct sanitize_hello_enter_world as (T1 & T0 & T2 & T3).
  split; [|split].
  - apply (T0 hello_action "Hello" "Enter" "World" (PInt 5) (PBool true) "Enter" H);
      first [reflexivity | discriminate].
  - apply (T2 hello_action "Hello{Enter}World" (PInt 5) (PBool true)
              [] (mk_match 5 12 "Enter") [] H eq_refl).
    simpl. discriminate.
  - apply (T3 hello_action (input_action (PInt 5) "Hello" (Some (PBool true)))).
    reflexivity.
Defined.

Lemma ctrl_l_action_typed :
  typed_text_action (ctrl_l_action [("clear", PBool false)]) "{Ctrl+L}" (PInt 2) (PBool false).
Proof.
  exists [("input", PDict [("index", PInt 2); ("text", PStr "{Ctrl+L}"); ("clear", PBool false)])],
    [("index", PInt 2); ("text", PStr "{Ctrl+L}"); ("clear", PBool false)].
  repeat split; reflexivity.
Qed.

(** C2.  A typed-text action whose text is one recognised token, such
    as "{Ctrl+L}" at index 2, is rewritten into an empty-text typing
    action at the same index that keeps the original clear flag, followed
    by the key-press of the normalised key.  Normalisation maps the
    aliases ctrl/control, cmd/command/meta, alt/option, shift to Control,
    Meta, Alt, Shift, whatever their case, lower-cases a one-character
    key and joins the modifiers, in order, then the key with "+":
    "Ctrl+L" becomes "Control+l". *)
Theorem sanitize_single_recognized_token :
  (forall a cv,
     typed_text_action a "{Ctrl+L}" (PInt 2) cv ->
     _sanitize_actions [a] =
       [ input_action (PInt 2) "" (clear_flag cv); send_keys_action "Control+l" ])
  /\ (forall a tok index cv keys,
        typed_text_action a ("{" ++ tok ++ "}")%string index cv ->
        brace_free tok = true -> tok <> "" ->
        _normalize_send_keys_token tok = Some keys ->
        _sanitize_actions [a] =
          [ input_action index "" (clear_flag cv); send_keys_action keys ])
  /\ (forall m,
        (In (py_lower m) ["ctrl"; "control"] -> canonical m = "Control") /\
        (In (py_lower m) ["cmd"; "command"; "meta"] -> canonical m = "Meta") /\
        (In (py_lower m) ["alt"; "option"] -> canonical m = "Alt") /\
        (py_lower m = "shift" -> canonical m = "Shift"))
  /\ (forall ms1 key ms2,
        ms1 ++ ms2 <> [] ->
        Forall (fun p => plain p = true) (ms1 ++ key :: ms2) ->
        Forall (fun m => is_modifier m = true) (ms1 ++ ms2) ->
        is_modifier key = false ->
        _normalize_send_keys_token (py_join "+" (ms1 ++ key :: ms2))
        = Some (py_join "+"
                  (map canonical (ms1 ++ ms2)
                     ++ [if (String.length key =? 1)%nat then py_lower key else key])))
  /\ _normalize_send_keys_token "Ctrl+L" = Some "Control+l".
Proof.
  assert (General : forall a tok index cv keys,
        typed_text_action a ("{" ++ tok ++ "}")%string index cv ->
        brace_free tok = true -> tok <> "" ->
        _normalize_send_keys_token tok = Some keys ->
        _sanitize_actions [a] =
          [ input_action index "" (clear_flag cv); send_keys_action keys ]).
  { intros a tok index cv keys H Hf Hne Hn.
    unfold _sanitize_actions. rewrite flat_map_single.
    rewrite (sanitize_single_token a tok index cv H Hf Hne), Hn. reflexivity. }
  split; [|split; [exact General|split; [|split]]].
  - intros a cv H.
    apply (General a "Ctrl+L" (PInt 2) cv "Control+l" H); [reflexivity | discriminate | reflexivity].
  - intros m. unfold canonical.
    repeat split; simpl; intros H;
      repeat (destruct H as [H|H]; [rewrite <- H; reflexivity|]);
      try contradiction.
    rewrite H. reflexivity.
  - exact normalize_combination.
  - reflexivity.
Qed.

Lemma sanitize_single_recognized_token_witness :
  _sanitize_actions [ctrl_l_action [("clear", PBool false)]] =
    [ input_action (PInt 2) "" (Some (PBool false)); send_keys_action "Control+l" ]
  /\ canonical "CTRL" = "Control"
  /\ _normalize_send_keys_token (py_join "+" (["Cmd"] ++ "V" :: ["shift"]))
     = Some "Meta+Shift+v".
Proof.
  destruct sanitize_single_recognized_token as (T1 & T2 & T3 & T4 & T5).
  split; [|split].
  - apply (T2 (ctrl_l_action [("clear", PBool false)]) "Ctrl+L" (PInt 2) (PBool false)
              "Control+l" ctrl_l_action_typed); [reflexivity | discriminate | reflexivity].
  - apply (T3 "CTRL"). simpl. auto.
  - apply (T4 ["Cmd"] "V" ["shift"]); [discriminate | repeat constructor .. | reflexivity].
Defined.

(** *** Unrecognised tokens *)




Lemma literal_action_typed text index :
  typed_text_action (literal_action text index) text index PNone.
Proof.
  exists [("input", PDict [("index", index); ("text", PStr text)])],
    [("index", index); ("text", PStr text)].
  repeat split; reflexivity.
Qed.



(* ------------------------------------------------------------------ *)
(** ** Further properties of the normaliser *)

Lemma rstrip_idempotent s : rstrip (rstrip s) = rstrip s.
Proof.
  induction s as [|c s IH]; [reflexivity|]. simpl.
  destruct (rstrip s) as [|d r] eqn:E.
  - destruct (py_isspace c) eqn:Hc; simpl; [reflexivity | now rewrite Hc].
  - simpl in *. rewrite IH. reflexivity.
Qed.

Lemma lstrip_head s c t : lstrip s = String c t -> py_isspace c = false.
Proof.
  induction s as [|a s IH]; simpl; [discriminate|].
  destruct (py_isspace a) eqn:Ha; [exact IH|]. now intros [= <- _].
Qed.

Lemma rstrip_head c t :
  py_isspace c = false -> exists r, rstrip (String c t) = String c r.
Proof.
  intros Hc. simpl. destruct (rstrip t); rewrite ?Hc; eauto.
Qed.

(** [strip] is idempotent. *)
Lemma py_strip_idempotent s : py_strip (py_strip s) = py_strip s.
Proof.
  unfold py_strip. destruct (lstrip s) as [|c t] eqn:E; [reflexivity|].
  pose proof (lstrip_head _ _ _ E) as Hc.
  destruct (rstrip_head c t Hc) as [r Hr].
  assert (lstrip (rstrip (String c t)) = rstrip (String c t)) as ->.
  { rewrite Hr. simpl. now rewrite Hc. }
  apply rstrip_idempotent.
Qed.

Lemma simple_map_values l v : str_lookup simple_map l = Some v -> v <> "".
Proof.
  unfold simple_map. cbn [str_lookup].
  repeat match goal with
         | |- context [String.eqb ?k l] =>
             destruct (String.eqb k l); [intros [= <-]; discriminate|]
         end.
  discriminate.
Qed.

Lemma scan_parts_key parts : forall mods k0 ms key,
  scan_parts parts mods k0 = (ms, Some key) -> In key parts \/ k0 = Some key.
Proof.
  induction parts as [|p parts IH]; intros mods k0 ms key; cbn [scan_parts].
  - intros [= _ ->]. now right.
  - destruct (modifier_of (py_lower p)); intros H; apply IH in H as [H|H].
    + left. now right.
    + now right.
    + left. now right.
    + injection H as ->. left. now left.
Qed.

Lemma py_lower_length s : String.length (py_lower s) = String.length s.
Proof. induction s; simpl; congruence. Qed.

Lemma join_empty parts : py_join "+" parts = "" -> parts = [] \/ parts = [""].
Proof.
  destruct parts as [|p [|q parts]]; cbn [py_join]; auto.
  - intros ->. now right.
  - destruct p; discriminate.
Qed.

Lemma shown_key_nonempty key : key <> "" -> shown_key key <> "".
Proof.
  unfold shown_key. intros Hne.
  destruct (String.length key =? 1)%nat; [|assumption].
  destruct key; [congruence | discriminate].
Qed.

(** X1.  The normaliser ignores white space around a token, and the key
    it recognises is never the empty string. *)
Theorem normalize_ignores_padding tok :
  _normalize_send_keys_token (py_strip tok) = _normalize_send_keys_token tok
  /\ forall key, _normalize_send_keys_token tok = Some key -> key <> "".
Proof.
  split.
  - unfold _normalize_send_keys_token. now rewrite py_strip_idempotent.
  - intros key. unfold _normalize_send_keys_token.
    destruct (py_strip tok =? ""); [discriminate|].
    destruct (str_lookup simple_map (py_lower (py_strip tok))) as [v|] eqn:E.
    { intros [= <-]. exact (simple_map_values _ _ E). }
    destruct (contains_char "+" (py_strip tok)); [|discriminate].
    destruct (plus_parts (py_strip tok)) as [|p parts] eqn:Ep; [discriminate|].
    destruct (scan_parts (p :: parts) [] None) as [mods [k|]] eqn:Es; [|discriminate].
    intros [= <-] Hj.
    assert (Hk : k <> "").
    { apply scan_parts_key in Es as [Hin|]; [|discriminate].
      rewrite <- Ep in Hin. unfold plus_parts in Hin.
      apply filter_In in Hin as [_ Hk]. intros ->. discriminate. }
    fold (shown_key k) in Hj.
    apply join_empty in Hj as [Hj|Hj].
    + destruct mods; discriminate.
    + destruct mods as [|m [|? ?]]; try discriminate.
      injection Hj as Hj. exact (shown_key_nonempty k Hk Hj).
Qed.






Lemma normalize_ignores_padding_witness :
  _normalize_send_keys_token (py_strip "  Enter ") = _normalize_send_keys_token "  Enter "
  /\ "Enter" <> "".
Proof.
  destruct (normalize_ignores_padding "  Enter ") as [H1 H2].
  split; [exact H1 | exact (H2 "Enter" eq_refl)].
Defined.

(* ------------------------------------------------------------------ *)
(** ** Further properties of the pattern *)

Lemma chained_from c c' ms : c' <= c -> chained c ms -> chained c' ms.
Proof. destruct ms as [|m ms]; cbn; [auto|]. intros H (H1 & H2 & H3). repeat split; auto; lia. Qed.

Lemma finditer_at_chained s : forall pos skip,
  chained (pos + skip) (finditer_at pos skip s).
Proof.
  induction s as [|c s IH]; intros pos skip; cbn [finditer_at]; [exact I|].
  destruct skip as [|k].
  - destruct (match_here (String c s)) as [tok|].
    + cbn [chained m_start m_end]. split; [lia|]. split; [lia|].
      replace (pos + String.length tok + 2) with (S pos + (String.length tok + 1)) by lia.
      apply IH.
    + apply (chained_from (S pos + 0)); [lia | apply IH].
  - replace (pos + S k) with (S pos + k) by lia. apply IH.
Qed.

Lemma substring_middle before mid rest :
  substring (String.length before) (String.length mid) (before ++ mid ++ rest)%string = mid.
Proof.
  induction before as [|c before IH]; cbn [append String.length substring].
  - apply substring_prefix.
  - destruct mid; exact IH.
Qed.

Lemma token_span before tok rest :
  (before ++ "{" ++ tok ++ "}" ++ rest
   = before ++ ("{" ++ tok ++ "}") ++ rest)%string.
Proof. cbn. now rewrite append_assoc. Qed.

Lemma token_length tok : String.length ("{" ++ tok ++ "}")%string = String.length tok + 2.
Proof. cbn. rewrite length_append. cbn. lia. Qed.

(** X3.  The matches of the placeholder pattern come in text order and
    do not overlap, and each one is a bracketed token: non-empty, free of
    braces, and found in the text at the span the match reports. *)
Theorem placeholder_matches_in_order text :
  chained 0 (finditer text)
  /\ forall m, In m (finditer text) ->
       brace_free (m_group1 m) = true /\ m_group1 m <> ""
       /\ py_slice (m_start m) (m_end m) text = ("{" ++ m_group1 m ++ "}")%string
       /\ m_end m <= String.length text.
Proof.
  split; [exact (finditer_at_chained text 0 0)|].
  intros m Hin.
  destruct (finditer_at_sound text 0 0 m Hin) as (Hf & Hne & Hend & before & rest & Ht & Hs).
  split; [assumption|]. split; [assumption|].
  rewrite Nat.add_0_l in Hs. unfold py_slice. rewrite Hend, Hs.
  replace (String.length before + String.length (m_group1 m) + 2 - String.length before)
    with (String.length ("{" ++ m_group1 m ++ "}")%string)
    by (rewrite token_length; lia).
  rewrite Ht, token_span. split.
  - apply substring_middle.
  - repeat (rewrite length_append; cbn [String.length append]). lia.
Qed.

Lemma placeholder_matches_in_order_witness :
  brace_free "Enter" = true /\ "Enter" <> ""
  /\ py_slice 5 12 "Hello{Enter}World" = "{Enter}"
  /\ 12 <= String.length "Hello{Enter}World".
Proof.
  destruct (placeholder_matches_in_order "Hello{Enter}World") as [_ H].
  apply (H (mk_match 5 12 "Enter")). left. reflexivity.
Defined.

(* ------------------------------------------------------------------ *)
(** ** Further properties of the sanitizer *)

Lemma sanitize_action_nonempty a : sanitize_action a <> [].
Proof.
  unfold sanitize_action.
  destruct (model_dump a) as [[| | | |?|top|]|]; try discriminate.
  destruct (dict_get top "input" PNone) as [| | | |?|ip|]; try discriminate.
  destruct (dict_get ip "text" PNone) as [| | |raw|?|?|]; try discriminate.
  destruct (negb (contains_char "{" raw) || negb (contains_char "}" raw));
    [discriminate|].
  destruct (finditer raw) as [|m rest]; [discriminate|].
  destruct (sanitize_matches_first raw (dict_get ip "index" PNone)
              (dict_get ip "clear" PNone) m rest 0)
    as (f & o & c & -> & Ho).
  cbn [negb]. destruct (negb (py_drop c raw =? "")); discriminate.
Qed.

(** X4.  The sanitizer never drops an action: every action of the plan
    leaves at least one action in the result, so the result is at least
    as long as the plan. *)
Theorem sanitize_never_drops actions :
  (forall a, In a actions -> sanitize_action a <> [])
  /\ List.length actions <= List.length (_sanitize_actions actions).
Proof.
  split; [intros a _; apply sanitize_action_nonempty|].
  unfold _sanitize_actions.
  induction actions as [|a l IH]; cbn [flat_map List.length]; [lia|].
  rewrite length_app. pose proof (sanitize_action_nonempty a) as H.
  destruct (sanitize_action a); [congruence | cbn; lia].
Qed.

Lemma sanitize_never_drops_witness :
  sanitize_action hello_action <> [].
Proof.
  destruct (sanitize_never_drops [hello_action]) as [H _].
  apply H. left. reflexivity.
Defined.

Lemma sanitize_action_plain a : has_placeholder a = false -> sanitize_action a = [a].
Proof.
  unfold has_placeholder, sanitize_action.
  destruct (model_dump a) as [[| | | |?|top|]|]; try reflexivity.
  destruct (dict_get top "input" PNone) as [| | | |?|ip|]; try reflexivity.
  destruct (dict_get ip "text" PNone) as [| | |raw|?|?|]; try reflexivity.
  destruct (finditer raw); [intros _|discriminate].
  destruct (negb (contains_char "{" raw) || negb (contains_char "}" raw)); reflexivity.
Qed.

(** X5.  Actions in which the pattern finds no placeholder pass through
    unchanged: an action whose dump fails, that is not a typed-text
    action, or whose text has no complete bracketed token.  A plan made
    of such actions is returned as it is. *)
Theorem sanitize_passes_plain_actions actions :
  Forall (fun a => has_placeholder a = false) actions ->
  _sanitize_actions actions = actions.
Proof.
  unfold _sanitize_actions.
  induction 1 as [|a l Ha _ IH]; cbn [flat_map]; [reflexivity|].
  rewrite (sanitize_action_plain a Ha), IH. reflexivity.
Qed.

Lemma sanitize_passes_plain_actions_witness :
  _sanitize_actions [click_action; literal_action "a } b { c" (PInt 1); mk_action None]
  = [click_action; literal_action "a } b { c" (PInt 1); mk_action None].
Proof.
  apply sanitize_passes_plain_actions. repeat constructor.
Defined.

(** *** What the result types *)

Lemma append_empty_r (s : string) : (s ++ "")%string = s.
Proof. induction s; simpl; congruence. Qed.

Lemma typed_texts_app l1 l2 :
  typed_texts (l1 ++ l2) = (typed_texts l1 ++ typed_texts l2)%string.
Proof.
  induction l1 as [|a l1 IH]; cbn [app typed_texts fold_right]; [reflexivity|].
  fold (typed_texts (l1 ++ l2)). fold (typed_texts l1).
  now rewrite IH, append_assoc.
Qed.

Lemma typed_text_input index text cl : typed_text (input_action index text cl) = text.
Proof. reflexivity. Qed.

Lemma slice_then_drop s : forall i j,
  i <= j -> j <= String.length s ->
  (py_slice i j s ++ py_drop j s)%string = py_drop i s.
Proof.
  unfold py_slice.
  induction s as [|c s IH]; intros i j Hij Hj; cbn [String.length] in Hj.
  - assert (j = 0) as -> by lia. assert (i = 0) as -> by lia. reflexivity.
  - destruct i as [|i], j as [|j]; try lia.
    + reflexivity.
    + cbn [Nat.sub substring py_drop append]. f_equal.
      specialize (IH 0 j). rewrite Nat.sub_0_r in IH. cbn [py_drop] in IH.
      replace (py_drop 0 s) with s in IH by (destruct s; reflexivity).
      apply IH; lia.
    + cbn [Nat.sub substring py_drop]. apply IH; lia.
Qed.

Lemma drop_at_token before tok rest :
  py_drop (String.length before) (before ++ "{" ++ tok ++ "}" ++ rest)%string
  = (("{" ++ tok ++ "}") ++
     py_drop (String.length before + String.length tok + 2)
             (before ++ "{" ++ tok ++ "}" ++ rest))%string.
Proof.
  rewrite py_drop_append.
  replace (String.length before + String.length tok + 2)
    with (String.length (before ++ "{" ++ tok ++ "}")%string)
    by (repeat (rewrite length_append; cbn [String.length append]); lia).
  replace (before ++ "{" ++ tok ++ "}" ++ rest)%string
    with ((before ++ "{" ++ tok ++ "}") ++ rest)%string.
  - rewrite py_drop_append. cbn. now rewrite append_assoc.
  - rewrite (token_span before tok rest). apply append_assoc.
Qed.

(** The inner loop on placeholders none of which is recognised: what it
    emits types the text between the cursor and the end of the last
    match, placeholders included. *)
Lemma sanitize_matches_text raw index cv matches : forall cursor typed,
  chained cursor matches ->
  (forall m, In m matches ->
     _normalize_send_keys_token (m_group1 m) = None
     /\ exists before rest,
          raw = (before ++ "{" ++ m_group1 m ++ "}" ++ rest)%string
          /\ m_start m = String.length before
          /\ m_end m = m_start m + String.length (m_group1 m) + 2) ->
  cursor <= String.length raw ->
  let '(out, cursor', typed') := sanitize_matches raw index cv matches cursor typed in
  (typed_texts out ++ py_drop cursor' raw)%string = py_drop cursor raw
  /\ cursor' <= String.length raw
  /\ Forall (is_input_on index) out.
Proof.
  induction matches as [|m rest IH]; intros cursor typed Hch Hall Hc;
    cbn [sanitize_matches].
  - split; [reflexivity|]. split; [assumption | constructor].
  - destruct Hch as (Hcs & Hse & Hch).
    destruct (Hall m (or_introl eq_refl)) as (Hnone & before & after & Hraw & Hs & He).
    assert (Hend : m_end m <= String.length raw).
    { rewrite He, Hs, Hraw. repeat (rewrite length_append; cbn [String.length append]). lia. }
    rewrite Hnone.
    replace (negb (("{" ++ m_group1 m ++ "}")%string =? "")) with true by reflexivity.
    set (typed1 := if negb (py_slice cursor (m_start m) raw =? "") then true else typed).
    specialize (IH (m_end m) true Hch (fun m' H' => Hall m' (or_intror H')) Hend).
    assert (Hdrop : py_drop cursor raw
                    = (py_slice cursor (m_start m) raw ++ ("{" ++ m_group1 m ++ "}")
                       ++ py_drop (m_end m) raw)%string).
    { rewrite <- (slice_then_drop raw cursor (m_start m)) by lia.
      f_equal. rewrite He, Hs, Hraw. apply drop_at_token. }
    destruct (sanitize_matches raw index cv rest (m_end m) true) as [[o c'] t].
    destruct IH as (IH1 & IH2 & IH3).
    destruct (String.eqb_spec (py_slice cursor (m_start m) raw) "") as [E|E];
      cbn [negb]; (split; [|split; [assumption|]]).
    + rewrite Hdrop, E, !typed_texts_app. cbn [typed_texts fold_right].
      rewrite typed_text_input, append_empty_r. fold (typed_texts o).
      rewrite <- IH1. cbn [append]. now rewrite !append_assoc.
    + repeat constructor; [eexists _, _; reflexivity | assumption].
    + rewrite Hdrop, !typed_texts_app. cbn [typed_texts fold_right].
      rewrite !typed_text_input, !append_empty_r. fold (typed_texts o).
      rewrite <- IH1. now rewrite !append_assoc.
    + repeat constructor; try (eexists _, _; reflexivity); assumption.
Qed.

(** X6.  Placeholders that are not recognised cost the text nothing: when
    no token of a typed-text action names a key, the actions that replace
    it are typed-text actions on the same element, and what they type,
    in order, is the original text. *)
Theorem unrecognized_placeholders_keep_the_text a raw index cv :
  typed_text_action a raw index cv ->
  (forall m, In m (finditer raw) -> _normalize_send_keys_token (m_group1 m) = None) ->
  typed_texts (sanitize_action a) = raw
  /\ Forall (fun b => b = a \/ is_input_on index b) (sanitize_action a).
Proof.
  intros Ha Hnone.
  assert (Htext : typed_text a = raw).
  { destruct Ha as (top & ip & Hd & Hin & Htxt & _). unfold typed_text.
    now rewrite Hd, Hin, Htxt. }
  destruct (finditer raw) as [|m rest] eqn:Ef.
  - rewrite sanitize_action_plain.
    + cbn. rewrite append_empty_r.
      split; [assumption | constructor; [now left | constructor]].
    + destruct Ha as (top & ip & Hd & Hin & Htxt & _). unfold has_placeholder.
      now rewrite Hd, Hin, Htxt, Ef.
  - rewrite (sanitize_action_matches a raw index cv m rest Ha Ef).
    pose proof (sanitize_matches_text raw index cv (m :: rest) 0 false) as H.
    destruct (sanitize_matches_first raw index cv m rest 0) as (f & o & c & E & _).
    rewrite E in H |- *.
    destruct H as (H1 & H2 & H3).
    + rewrite <- Ef. exact (finditer_at_chained raw 0 0).
    + intros m' Hm'. rewrite <- Ef in Hm'. split; [now apply Hnone; rewrite Ef in *|].
      destruct (finditer_at_sound raw 0 0 m' Hm') as (_ & _ & Hend & b & r & Hr & Hs).
      rewrite Nat.add_0_l in Hs. exists b, r. repeat split; assumption.
    + lia.
    + replace (py_drop 0 raw) with raw in H1 by (destruct raw; reflexivity).
      assert (Hweak : Forall (fun b => b = a \/ is_input_on index b) (f :: o)).
      { eapply Forall_impl; [|exact H3]. intros b Hb. now right. }
      cbv beta iota zeta.
      destruct (String.eqb_spec (py_drop c raw) "") as [Es|Es]; cbn [negb].
      * rewrite Es, append_empty_r in H1. split; assumption.
      * split.
        -- rewrite typed_texts_app. cbn [typed_texts fold_right].
           rewrite typed_text_input, append_empty_r. exact H1.
        -- apply Forall_app. split; [assumption|].
           constructor; [right; eexists _, _; reflexivity | constructor].
Qed.

Lemma unrecognized_placeholders_keep_the_text_witness :
  typed_texts (sanitize_action (literal_action "f({x}, {y}) {" (PInt 4)))
  = "f({x}, {y}) {"
  /\ Forall (fun b => b = literal_action "f({x}, {y}) {" (PInt 4) \/ is_input_on (PInt 4) b)
            (sanitize_action (literal_action "f({x}, {y}) {" (PInt 4))).
Proof.
  apply (unrecognized_placeholders_keep_the_text _ _ (PInt 4) PNone).
  - apply literal_action_typed.
  - intros m Hm. vm_compute in Hm.
    destruct Hm as [<-|[<-|[]]]; reflexivity.
Defined.

(** *** What the result presses *)

Lemma keys_sent_app l1 l2 : keys_sent (l1 ++ l2) = keys_sent l1 ++ keys_sent l2.
Proof. apply flat_map_app. Qed.

Lemma sanitize_matches_keys raw index cv matches : forall cursor typed,
  keys_sent (fst (fst (sanitize_matches raw index cv matches cursor typed)))
  = flat_map (fun m => match _normalize_send_keys_token (m_group1 m) with
                       | Some k => [k]
                       | None => []
                       end) matches.
Proof.
  induction matches as [|m rest IH]; intros cursor typed; cbn [sanitize_matches flat_map];
    [reflexivity|].
  replace (negb (("{" ++ m_group1 m ++ "}")%string =? "")) with true by reflexivity.
  destruct (negb (py_slice cursor (m_start m) raw =? "")),
    (_normalize_send_keys_token (m_group1 m)), typed; cbn [negb];
    match goal with
    | |- context [sanitize_matches raw index cv rest ?c ?t] =>
        specialize (IH c t); destruct (sanitize_matches raw index cv rest c t) as [[o c'] t']
    end;
    cbn [fst] in *; rewrite !keys_sent_app, IH; reflexivity.
Qed.

(** X7.  The keys the sanitizer presses are the keys the placeholders of
    the text name, one press for each recognised placeholder, in text
    order: no recognised key is lost, repeated or reordered, and nothing
    else is pressed. *)
Theorem recognised_keys_are_pressed_in_order a raw index cv :
  typed_text_action a raw index cv -> key_of a = None ->
  keys_sent (sanitize_action a) = keys_named raw.
Proof.
  intros Ha Hk. unfold keys_named.
  destruct (finditer raw) as [|m rest] eqn:Ef.
  - rewrite sanitize_action_plain.
    + cbn. now rewrite Hk.
    + destruct Ha as (top & ip & Hd & Hin & Htxt & _). unfold has_placeholder.
      now rewrite Hd, Hin, Htxt, Ef.
  - rewrite (sanitize_action_matches a raw index cv m rest Ha Ef).
    pose proof (sanitize_matches_keys raw index cv (m :: rest) 0 false) as H.
    destruct (sanitize_matches_first raw index cv m rest 0) as (f & o & c & E & _).
    rewrite E in H |- *. cbn [fst] in H. cbv beta iota zeta.
    destruct (negb (py_drop c raw =? "")); cbn [negb]; [|exact H].
    rewrite keys_sent_app, H. cbn. apply app_nil_r.
Qed.

Lemma recognised_keys_are_pressed_in_order_witness :
  keys_sent (sanitize_action (literal_action "a{Tab}b{nope}{Ctrl+L}" (PInt 4)))
  = ["Tab"; "Control+l"].
Proof.
  apply (recognised_keys_are_pressed_in_order
           (literal_action "a{Tab}b{nope}{Ctrl+L}" (PInt 4))
           "a{Tab}b{nope}{Ctrl+L}" (PInt 4) PNone).
  - apply literal_action_typed.
  - reflexivity.
Defined.

End Sanitizer.

(* ================================================================== *)
(** * Properties of programs *)
(* ================================================================== *)

Local Open Scope prog_scope.

(** *** Running composite programs *)

Lemma interp_bind {A B} env (p : prog A) (f : A -> prog B) : forall w,
  interp env (bind p f) w =
    match interp env p w with
    | (Returned a, w') => interp env (f a) w'
    | (Raised e, w') => (Raised e, w')
    end.
Proof. induction p; intros w; cbn; auto. Qed.

Lemma interp_catch {A} env (p : prog A) (h : exn -> prog A) : forall w,
  interp env (catch p h) w =
    match interp env p w with
    | (Returned a, w') => (Returned a, w')
    | (Raised e, w') => interp env (h e) w'
    end.
Proof. induction p; intros w; cbn; auto. Qed.

Lemma interp_finally {A} env (p : prog A) (f : prog unit) : forall w,
  interp env (finally p f) w =
    match interp env p w with
    | (r, w') =>
        match interp env f w' with
        | (Returned _, w'') => (r, w'')
        | (Raised e, w'') => (Raised e, w'')
        end
    end.
Proof.
  induction p; intros w; cbn; auto;
    rewrite interp_bind; destruct (interp env f w) as [[[]|e'] w']; reflexivity.
Qed.

Lemma interp_try_except {A} env (p : prog A) (h : exn -> prog A) w :
  interp env (try_except p h) w =
    match interp env p w with
    | (Returned a, w') => (Returned a, w')
    | (Raised e, w') =>
        if is_exception e then interp env (h e) w' else (Raised e, w')
    end.
Proof.
  unfold try_except. rewrite interp_catch.
  destruct (interp env p w) as [[a|e] w']; [reflexivity|].
  destruct (is_exception e); reflexivity.
Qed.

(** *** What a program writes *)

Lemma all_writes_mono (P Q : pyval -> Prop) {A} (p : prog A) :
  (forall m, P m -> Q m) -> all_writes P p -> all_writes Q p.
Proof. intros HPQ. induction p; cbn; intuition auto. Qed.

Lemma all_writes_bind P {A B} (p : prog A) (f : A -> prog B) :
  all_writes P p -> (forall a, all_writes P (f a)) -> all_writes P (bind p f).
Proof. intros Hp Hf. induction p; cbn in *; intuition auto. Qed.

Lemma all_writes_catch P {A} (p : prog A) (h : exn -> prog A) :
  all_writes P p -> (forall e, all_writes P (h e)) -> all_writes P (catch p h).
Proof. intros Hp Hh. induction p; cbn in *; intuition auto. Qed.

Lemma all_writes_try_except P {A} (p : prog A) (h : exn -> prog A) :
  all_writes P p -> (forall e, all_writes P (h e)) -> all_writes P (try_except p h).
Proof.
  intros Hp Hh. apply all_writes_catch; [assumption|].
  intros e. destruct (is_exception e); [apply Hh | exact I].
Qed.

Lemma all_writes_try_except_class P c {A} (p : prog A) (h : exn -> prog A) :
  all_writes P p -> (forall e, all_writes P (h e)) ->
  all_writes P (try_except_class c p h).
Proof.
  intros Hp Hh. apply all_writes_catch; [assumption|].
  intros e. destruct (is_class c e); [apply Hh | exact I].
Qed.

Lemma all_writes_finally P {A} (p : prog A) (f : prog unit) :
  all_writes P p -> all_writes P f -> all_writes P (finally p f).
Proof.
  intros Hp Hf. induction p; cbn in *; intuition auto;
    apply all_writes_bind; auto; intros; exact I.
Qed.

Lemma all_writes_for_each P {X} (xs : list X) (body : X -> prog unit) :
  (forall x, all_writes P (body x)) -> all_writes P (for_each xs body).
Proof.
  intros Hb. induction xs as [|x xs IH]; cbn; [exact I|].
  apply all_writes_bind; auto.
Qed.

(** The lines a run appends to standard output. *)
Lemma all_writes_sound P {A} (p : prog A) env : forall w,
  all_writes P p ->
  exists ws, out (world_of (interp env p w)) = out w ++ ws /\ Forall P ws.
Proof.
  unfold world_of.
  induction p as [a|e|m k IH|k IH|f k IH|op k IH|op k IH|args k IH|t k IH|t k IH];
    intros w Hp; cbn in *.
  1,2: exists []; split; [now rewrite app_nil_r | constructor].
  - destruct Hp as [Hm Hk]. destruct (IH (with_write m w) Hk) as (ws & Hws & Hall).
    exists (m :: ws). split; [|constructor; assumption].
    rewrite Hws. cbn. now rewrite <- app_assoc.
  - apply IH, Hp.
  - exact (IH (with_state f w) Hp).
  - exact (IH _ (with_call w) (Hp _)).
  - exact (IH _ (with_await op _ w) (Hp _)).
  - exact (IH _ (with_task args w) (Hp _)).
  - apply IH, Hp.
  - exact (IH (with_cancel t w) Hp).
Qed.

(** *** Suspension points *)

Lemma no_await_bind {A B} (p : prog A) (f : A -> prog B) :
  no_await p -> (forall a, no_await (f a)) -> no_await (bind p f).
Proof. intros Hp Hf. induction p; cbn in *; intuition auto. Qed.

Lemma no_await_catch {A} (p : prog A) (h : exn -> prog A) :
  no_await p -> (forall e, no_await (h e)) -> no_await (catch p h).
Proof. intros Hp Hh. induction p; cbn in *; intuition auto. Qed.

Lemma no_await_try_except {A} (p : prog A) (h : exn -> prog A) :
  no_await p -> (forall e, no_await (h e)) -> no_await (try_except p h).
Proof.
  intros Hp Hh. apply no_await_catch; [assumption|].
  intros e. destruct (is_exception e); [apply Hh | exact I].
Qed.

Lemma no_await_try_except_class c {A} (p : prog A) (h : exn -> prog A) :
  no_await p -> (forall e, no_await (h e)) -> no_await (try_except_class c p h).
Proof.
  intros Hp Hh. apply no_await_catch; [assumption|].
  intros e. destruct (is_class c e); [apply Hh | exact I].
Qed.

Lemma no_await_finally {A} (p : prog A) (f : prog unit) :
  no_await p -> no_await f -> no_await (finally p f).
Proof.
  intros Hp Hf. induction p; cbn in *; intuition auto;
    apply no_await_bind; auto; intros; exact I.
Qed.

Lemma no_await_sound {A} (p : prog A) env : forall w,
  no_await p -> awaited (world_of (interp env p w)) = awaited w.
Proof.
  unfold world_of.
  induction p as [a|e|m k IH|k IH|f k IH|op k IH|op k IH|args k IH|t k IH|t k IH];
    intros w Hp; cbn in *; try reflexivity; try contradiction.
  - exact (IH (with_write m w) Hp).
  - apply IH, Hp.
  - exact (IH (with_state f w) Hp).
  - exact (IH _ (with_call w) (Hp _)).
  - exact (IH _ (with_task args w) (Hp _)).
  - apply IH, Hp.
  - exact (IH (with_cancel t w) Hp).
Qed.

(** *** Cancellation *)

Lemma cancel_not_exception e : is_cancel e -> is_exception e = false.
Proof. unfold is_cancel, is_exception. now intros ->. Qed.

Lemma exception_not_cancel e : is_exception e = true -> ~ is_cancel e.
Proof. unfold is_cancel, is_exception. intros H He. now rewrite He in H. Qed.

Lemma cancel_transparent_bind {A B} (p : prog A) (f : A -> prog B) :
  cancel_transparent p -> (forall a, cancel_transparent (f a)) ->
  cancel_transparent (bind p f).
Proof.
  intros Hp Hf. induction p; cbn in *; intuition auto.
  match goal with H : forall e, is_cancel e -> _ = _ |- _ => now rewrite H end.
Qed.

Lemma cancel_transparent_catch {A} (p : prog A) (h : exn -> prog A) :
  cancel_transparent p ->
  (forall e, is_cancel e -> h e = Raise e) ->
  (forall e, cancel_transparent (h e)) ->
  cancel_transparent (catch p h).
Proof.
  intros Hp Hc Hh. induction p; cbn in *; intuition auto.
  match goal with H : forall e, is_cancel e -> _ = _ |- _ => rewrite H by assumption end.
  cbn. auto.
Qed.

Lemma cancel_transparent_try_except {A} (p : prog A) (h : exn -> prog A) :
  cancel_transparent p -> (forall e, cancel_transparent (h e)) ->
  cancel_transparent (try_except p h).
Proof.
  intros Hp Hh. apply cancel_transparent_catch; [assumption| |].
  - intros e He. now rewrite (cancel_not_exception e He).
  - intros e. destruct (is_exception e); [apply Hh | exact I].
Qed.

Lemma cancel_transparent_try_except_class c {A} (p : prog A) (h : exn -> prog A) :
  c <> CancelledError ->
  cancel_transparent p -> (forall e, cancel_transparent (h e)) ->
  cancel_transparent (try_except_class c p h).
Proof.
  intros Hc Hp Hh. apply cancel_transparent_catch; [assumption| |].
  - intros e He. unfold is_class. rewrite He. destruct c; congruence.
  - intros e. destruct (is_class c e); [apply Hh | exact I].
Qed.

(** A [finally] block is crossed at once only when its body has no
    suspension point. *)
Lemma cancel_transparent_finally {A} (p : prog A) (f : prog unit) :
  no_await p -> cancel_transparent f -> cancel_transparent (finally p f).
Proof.
  intros Hp Hf. induction p; cbn in *; intuition auto;
    apply cancel_transparent_bind; auto; intros; exact I.
Qed.

Lemma no_await_cancel_transparent {A} (p : prog A) :
  no_await p -> cancel_transparent p.
Proof. induction p; cbn; intuition auto. Qed.

Lemma cancel_transparent_for_each {X} (xs : list X) (body : X -> prog unit) :
  (forall x, cancel_transparent (body x)) -> cancel_transparent (for_each xs body).
Proof.
  intros Hb. induction xs as [|x xs IH]; cbn; [exact I|].
  apply cancel_transparent_bind; auto.
Qed.

(** A cancellation delivered at an await of a transparent program is
    what the program raises. *)
Lemma cancel_transparent_sound {A} (p : prog A) env : forall w,
  cancel_transparent p ->
  exists l,
    awaited (world_of (interp env p w)) = awaited w ++ l /\
    forall op e, In (op, Exc e) l -> is_cancel e ->
                 result_of (interp env p w) = Raised e.
Proof.
  unfold world_of, result_of.
  induction p as [a|e|m k IH|k IH|f k IH|op k IH|op k IH|args k IH|t k IH|t k IH];
    intros w Hp; cbn in *.
  1,2: exists []; split; [now rewrite app_nil_r | intros ? ? []].
  - exact (IH (with_write m w) Hp).
  - apply IH, Hp.
  - exact (IH (with_state f w) Hp).
  - exact (IH _ (with_call w) (Hp _)).
  - destruct Hp as [Hc Hk].
    destruct (IH (env (ticks w) op) (with_await op (env (ticks w) op) w) (Hk _))
      as (l & Hl & Hrest).
    exists ((op, env (ticks w) op) :: l). split.
    + rewrite Hl. cbn. now rewrite <- app_assoc.
    + intros op' e' [Heq | Hin] He'; [|now apply (Hrest op' e')].
      injection Heq as _ Ha. rewrite Ha, (Hc e' He'). reflexivity.
  - exact (IH _ (with_task args w) (Hp _)).
  - apply IH, Hp.
  - exact (IH (with_cancel t w) Hp).
Qed.

(** *** Ordinary failures *)

Lemma raises_exceptions_bind {A B} (p : prog A) (f : A -> prog B) :
  raises_exceptions p -> (forall a, raises_exceptions (f a)) ->
  raises_exceptions (bind p f).
Proof. intros Hp Hf. induction p; cbn in *; intuition auto. Qed.

Lemma never_raises_bind {A B} (p : prog A) (f : A -> prog B) :
  never_raises p -> (forall a, never_raises (f a)) -> never_raises (bind p f).
Proof. intros Hp Hf. induction p; cbn in *; intuition auto. Qed.

Lemma never_raises_weaken {A} (p : prog A) : never_raises p -> raises_exceptions p.
Proof. induction p; cbn; intuition auto. Qed.

(** [except Exception] absorbs every ordinary failure of its body. *)
Lemma never_raises_try_except {A} (p : prog A) (h : exn -> prog A) :
  raises_exceptions p -> (forall e, never_raises (h e)) ->
  never_raises (try_except p h).
Proof.
  intros Hp Hh. unfold try_except.
  induction p; cbn in *; intuition auto.
  match goal with H : is_exception _ = true |- _ => rewrite H end. apply Hh.
Qed.

Lemma raises_exceptions_try_except {A} (p : prog A) (h : exn -> prog A) :
  raises_exceptions p -> (forall e, raises_exceptions (h e)) ->
  raises_exceptions (try_except p h).
Proof.
  intros Hp Hh. unfold try_except.
  induction p; cbn in *; intuition auto.
  match goal with H : is_exception _ = true |- _ => rewrite H end. apply Hh.
Qed.

Lemma raises_exceptions_for_each {X} (xs : list X) (body : X -> prog unit) :
  (forall x, raises_exceptions (body x)) -> raises_exceptions (for_each xs body).
Proof.
  intros Hb. induction xs as [|x xs IH]; cbn; [exact I|].
  apply raises_exceptions_bind; auto.
Qed.

Lemma never_raises_sound {A} (p : prog A) env : forall w,
  calm env -> never_raises p -> exists a, result_of (interp env p w) = Returned a.
Proof.
  unfold result_of. intros w Hcalm. revert w.
  induction p as [a|e|m k IH|k IH|f k IH|op k IH|op k IH|args k IH|t k IH|t k IH];
    intros w Hp; cbn in *; try contradiction; eauto.
Qed.

(** *** Invariants of the global state *)

Lemma keeps_bind Inv {A B} (p : prog A) (f : A -> prog B) :
  keeps Inv p -> (forall a, keeps Inv (f a)) -> keeps Inv (bind p f).
Proof. intros Hp Hf. induction p; cbn in *; intuition auto. Qed.

Lemma keeps_catch Inv {A} (p : prog A) (h : exn -> prog A) :
  keeps Inv p -> (forall e, keeps Inv (h e)) -> keeps Inv (catch p h).
Proof. intros Hp Hh. induction p; cbn in *; intuition auto. Qed.

Lemma keeps_try_except Inv {A} (p : prog A) (h : exn -> prog A) :
  keeps Inv p -> (forall e, keeps Inv (h e)) -> keeps Inv (try_except p h).
Proof.
  intros Hp Hh. apply keeps_catch; [assumption|].
  intros e. destruct (is_exception e); [apply Hh | exact I].
Qed.

Lemma keeps_try_except_class Inv c {A} (p : prog A) (h : exn -> prog A) :
  keeps Inv p -> (forall e, keeps Inv (h e)) -> keeps Inv (try_except_class c p h).
Proof.
  intros Hp Hh. apply keeps_catch; [assumption|].
  intros e. destruct (is_class c e); [apply Hh | exact I].
Qed.

Lemma keeps_finally Inv {A} (p : prog A) (f : prog unit) :
  keeps Inv p -> keeps Inv f -> keeps Inv (finally p f).
Proof.
  intros Hp Hf. induction p; cbn in *; intuition auto;
    apply keeps_bind; auto; intros; exact I.
Qed.

Lemma keeps_sound Inv {A} (p : prog A) env : forall w,
  keeps Inv p -> Inv (state w) -> Inv (state (world_of (interp env p w))).
Proof.
  unfold world_of.
  induction p as [a|e|m k IH|k IH|f k IH|op k IH|op k IH|args k IH|t k IH|t k IH];
    intros w Hp Hw; cbn in *; auto.
  destruct Hp as [Hf Hk]. exact (IH (with_state f w) Hk (Hf _ Hw)).
Qed.

(** *** The calls of composite programs *)

Lemma calls_bind {A B} env (p : prog A) (f : A -> prog B) : forall w,
  calls env (bind p f) w =
    calls env p w ++
    match interp env p w with
    | (Returned a, w') => calls env (f a) w'
    | (Raised _, _) => []
    end.
Proof.
  induction p; intros w; cbn; auto; try (now rewrite app_nil_r);
    f_equal; auto.
Qed.

Lemma calls_catch {A} env (p : prog A) (h : exn -> prog A) : forall w,
  calls env (catch p h) w =
    calls env p w ++
    match interp env p w with
    | (Returned _, _) => []
    | (Raised e, w') => calls env (h e) w'
    end.
Proof.
  induction p; intros w; cbn; auto; try (now rewrite app_nil_r);
    f_equal; auto.
Qed.

Lemma calls_finally {A} env (p : prog A) (f : prog unit) : forall w,
  calls env (finally p f) w = calls env p w ++ calls env f (world_of (interp env p w)).
Proof.
  unfold world_of.
  induction p; intros w; cbn; auto;
    try (rewrite calls_bind; destruct (interp env f w) as [[[]|?] ?]; cbn;
         now rewrite app_nil_r);
    f_equal; auto.
Qed.

(** *** Specifications *)

Lemma wp_mono {A} (W W' : pyval -> Prop) (Q Q' : A -> WorkerState -> Prop)
      (R R' : exn -> WorkerState -> Prop) (p : prog A) :
  (forall m, W m -> W' m) -> (forall a s, Q a s -> Q' a s) ->
  (forall e s, R e s -> R' e s) ->
  forall s, wp W Q R p s -> wp W' Q' R' p s.
Proof. intros HW HQ HR. induction p; intros s; cbn; intuition auto. Qed.

Lemma wp_bind {A B} W (Q : B -> WorkerState -> Prop) R (p : prog A) (f : A -> prog B) :
  forall s, wp W (fun a s' => wp W Q R (f a) s') R p s -> wp W Q R (bind p f) s.
Proof. induction p; intros s; cbn; intuition auto. Qed.

Lemma wp_catch {A} W (Q : A -> WorkerState -> Prop) R (p : prog A) (h : exn -> prog A) :
  forall s, wp W Q (fun e s' => wp W Q R (h e) s') p s -> wp W Q R (catch p h) s.
Proof. induction p; intros s; cbn; intuition auto. Qed.

Lemma wp_try_except {A} W (Q : A -> WorkerState -> Prop) R (p : prog A) (h : exn -> prog A) :
  forall s,
    wp W Q (fun e s' => if is_exception e then wp W Q R (h e) s' else R e s') p s ->
    wp W Q R (try_except p h) s.
Proof.
  intros s H. apply wp_catch. revert H. apply wp_mono; auto.
  intros e s'. destruct (is_exception e); auto.
Qed.

Lemma wp_try_except_class {A} W (Q : A -> WorkerState -> Prop) R c (p : prog A)
      (h : exn -> prog A) :
  forall s,
    wp W Q (fun e s' => if is_class c e then wp W Q R (h e) s' else R e s') p s ->
    wp W Q R (try_except_class c p h) s.
Proof.
  intros s H. apply wp_catch. revert H. apply wp_mono; auto.
  intros e s'. destruct (is_class c e); auto.
Qed.

Lemma wp_finally {A} W (Q : A -> WorkerState -> Prop) R (p : prog A) (f : prog unit) :
  forall s,
    wp W (fun a s' => wp W (fun _ s'' => Q a s'') R f s')
         (fun e s' => wp W (fun _ s'' => R e s'') R f s') p s ->
    wp W Q R (finally p f) s.
Proof.
  induction p; intros s; cbn; intuition auto; apply wp_bind; assumption.
Qed.

(** A program that keeps the state as it is satisfies any specification
    that holds of that state. *)
Lemma wp_frame {A} W (Q : A -> WorkerState -> Prop) R (p : prog A) s :
  all_writes W p -> keeps (eq s) p ->
  (forall a, Q a s) -> (forall e, R e s) -> wp W Q R p s.
Proof.
  intros HW Hk HQ HR. induction p; cbn in *; intuition auto.
  match goal with H : forall s', s = s' -> s = _ |- _ => rewrite <- (H s eq_refl) end.
  auto.
Qed.

Lemma wp_writes {A} W (p : prog A) :
  all_writes W p -> forall s, wp W (fun _ _ => True) (fun _ _ => True) p s.
Proof. intros HW. induction p; intros s; cbn in *; intuition auto. Qed.

Lemma wp_for_each {X} W (Inv : WorkerState -> Prop) R (xs : list X) (body : X -> prog unit) :
  (forall x s, Inv s -> wp W (fun _ s' => Inv s') R (body x) s) ->
  forall s, Inv s -> wp W (fun _ s' => Inv s') R (for_each xs body) s.
Proof.
  intros Hb. induction xs as [|x xs IH]; intros s Hs; cbn [for_each]; [exact Hs|].
  apply wp_bind. eapply wp_mono; [| | |apply Hb, Hs]; auto.
Qed.

Lemma wp_sound {A} W (Q : A -> WorkerState -> Prop) R (p : prog A) env : forall w,
  wp W Q R p (state w) ->
  (exists ws, out (world_of (interp env p w)) = out w ++ ws /\ Forall W ws)
  /\ match result_of (interp env p w) with
     | Returned a => Q a (state (world_of (interp env p w)))
     | Raised e => R e (state (world_of (interp env p w)))
     end.
Proof.
  unfold world_of, result_of.
  induction p as [a|e|m k IH|k IH|f k IH|op k IH|op k IH|args k IH|t k IH|t k IH];
    intros w Hp; cbn in *.
  1,2: split; [exists []; split; [now rewrite app_nil_r | constructor] | assumption].
  - destruct Hp as [Hm Hk]. destruct (IH (with_write m w) Hk) as ((ws & Hws & Hall) & Hr).
    split; [|exact Hr].
    exists (m :: ws). split; [|constructor; assumption].
    rewrite Hws. cbn. now rewrite <- app_assoc.
  - apply IH, Hp.
  - exact (IH (with_state f w) Hp).
  - exact (IH _ (with_call w) (Hp _)).
  - exact (IH _ (with_await op _ w) (Hp _)).
  - exact (IH _ (with_task args w) (Hp _)).
  - apply IH, Hp.
  - exact (IH (with_cancel t w) Hp).
Qed.

(** *** Ordinary failures, continued *)

Lemma raises_exceptions_catch {A} (p : prog A) (h : exn -> prog A) :
  raises_exceptions p -> (forall e, is_exception e = true -> raises_exceptions (h e)) ->
  raises_exceptions (catch p h).
Proof. intros Hp Hh. induction p; cbn in *; intuition auto. Qed.

Lemma raises_exceptions_try_except_class c {A} (p : prog A) (h : exn -> prog A) :
  raises_exceptions p -> (forall e, raises_exceptions (h e)) ->
  raises_exceptions (try_except_class c p h).
Proof.
  intros Hp Hh. apply raises_exceptions_catch; [assumption|].
  intros e He. destruct (is_class c e); [apply Hh | exact He].
Qed.

Lemma raises_exceptions_finally {A} (p : prog A) (f : prog unit) :
  raises_exceptions p -> raises_exceptions f -> raises_exceptions (finally p f).
Proof.
  intros Hp Hf. induction p; cbn in *; intuition auto;
    apply raises_exceptions_bind; auto.
Qed.

Lemma never_raises_for_each {X} (xs : list X) (body : X -> prog unit) :
  (forall x, never_raises (body x)) -> never_raises (for_each xs body).
Proof.
  intros Hb. induction xs as [|x xs IH]; cbn; [exact I|].
  apply never_raises_bind; auto.
Qed.

(** *** Answering once *)

Lemma ends_quietly_bind {A B} (p : prog A) (f : A -> prog B) :
  ends_quietly p -> (forall a, ends_quietly (f a)) -> ends_quietly (bind p f).
Proof. intros Hp Hf. induction p; cbn in *; intuition auto. Qed.

Lemma ends_quietly_catch {A} (p : prog A) (h : exn -> prog A) :
  ends_quietly p -> ends_quietly (catch p h).
Proof. intros Hp. induction p; cbn in *; intuition auto. Qed.

Lemma ends_quietly_sound {A} (p : prog A) env : forall w,
  calm env -> ends_quietly p ->
  exists a w', interp env p w = (Returned a, w') /\ out w' = out w.
Proof.
  intros w Hcalm. revert w.
  induction p as [a|e|m k IH|k IH|f k IH|op k IH|op k IH|args k IH|t k IH|t k IH];
    intros w Hp; cbn in *; try contradiction; eauto.
  - exact (IH (with_state f w) Hp).
  - exact (IH _ (with_call w) (Hp _ (Hcalm _ _))).
  - exact (IH _ (with_await op _ w) (Hp _ (Hcalm _ _))).
  - exact (IH _ (with_task args w) (Hp _)).
  - exact (IH (with_cancel t w) Hp).
Qed.

Lemma responds_weaken P {A} (p : prog A) : responds true P p -> responds false P p.
Proof. induction p; cbn; intuition auto. Qed.


(** A silent prefix that raises ordinary exceptions only. *)
Lemma responds_bind P {A B} (p : prog A) (f : A -> prog B) :
  silent p -> raises_exceptions p -> (forall a, responds false P (f a)) ->
  responds false P (bind p f).
Proof. unfold silent. intros Hs Hr Hf. induction p; cbn in *; intuition auto. Qed.

(** A silent prefix that does not raise. *)
Lemma responds_bind_strict P strict {A B} (p : prog A) (f : A -> prog B) :
  silent p -> never_raises p -> (forall a, responds strict P (f a)) ->
  responds strict P (bind p f).
Proof. unfold silent. intros Hs Hr Hf. induction p; cbn in *; intuition auto. Qed.

(** [except Exception] around a body that answers once or fails before
    answering, with a handler that answers once. *)
Lemma responds_try_except P {A} (p : prog A) (h : exn -> prog A) :
  responds false P p -> (forall e, responds true P (h e)) ->
  responds true P (try_except p h).
Proof.
  unfold try_except. intros Hp Hh. induction p; cbn in *; intuition auto.
  - match goal with H : is_exception _ = true |- _ => rewrite H end. apply Hh.
  - now apply ends_quietly_catch.
Qed.

Lemma responds_sound P {A} (p : prog A) env : forall w,
  calm env -> responds true P p ->
  exists a m w',
    interp env p w = (Returned a, w') /\ out w' = out w ++ [m] /\ P m.
Proof.
  intros w Hcalm. revert w.
  induction p as [a|e|m k IH|k IH|f k IH|op k IH|op k IH|args k IH|t k IH|t k IH];
    intros w Hp; cbn in *; try contradiction; eauto.
  - destruct Hp as [Hm Hk].
    destruct (ends_quietly_sound k env (with_write m w) Hcalm Hk) as (a & w' & Hi & Ho).
    exists a, m, w'. repeat split; assumption.
  - exact (IH (with_state f w) Hp).
  - exact (IH _ (with_call w) (Hp _ (Hcalm _ _))).
  - exact (IH _ (with_await op _ w) (Hp _ (Hcalm _ _))).
  - exact (IH _ (with_task args w) (Hp _)).
  - exact (IH (with_cancel t w) Hp).
Qed.

(** *** The runs a program creates *)

Lemma all_tasks_bind P {A B} (p : prog A) (f : A -> prog B) :
  all_tasks P p -> (forall a, all_tasks P (f a)) -> all_tasks P (bind p f).
Proof. intros Hp Hf. induction p; cbn in *; intuition auto. Qed.

Lemma all_tasks_catch P {A} (p : prog A) (h : exn -> prog A) :
  all_tasks P p -> (forall e, all_tasks P (h e)) -> all_tasks P (catch p h).
Proof. intros Hp Hh. induction p; cbn in *; intuition auto. Qed.

Lemma all_tasks_try_except P {A} (p : prog A) (h : exn -> prog A) :
  all_tasks P p -> (forall e, all_tasks P (h e)) -> all_tasks P (try_except p h).
Proof.
  intros Hp Hh. apply all_tasks_catch; [assumption|].
  intros e. destruct (is_exception e); [apply Hh | exact I].
Qed.

Lemma all_tasks_sound P {A} (p : prog A) env : forall w,
  all_tasks P p ->
  exists l, created (world_of (interp env p w)) = created w ++ l /\ Forall P l.
Proof.
  unfold world_of.
  induction p as [a|e|m k IH|k IH|f k IH|op k IH|op k IH|args k IH|t k IH|t k IH];
    intros w Hp; cbn in *.
  1,2: exists []; split; [now rewrite app_nil_r | constructor].
  - exact (IH (with_write m w) Hp).
  - apply IH, Hp.
  - exact (IH (with_state f w) Hp).
  - exact (IH _ (with_call w) (Hp _)).
  - exact (IH _ (with_await op _ w) (Hp _)).
  - destruct Hp as [Ha Hk].
    destruct (IH (List.length (created w)) (with_task args w) (Hk _)) as (l & Hl & Hall).
    exists (args :: l). split; [|constructor; assumption].
    rewrite Hl. cbn. now rewrite <- app_assoc.
  - apply IH, Hp.
  - exact (IH (with_cancel t w) Hp).
Qed.

(** *** The calls a program can make *)

Lemma all_ops_bind P {A B} (p : prog A) (f : A -> prog B) :
  all_ops P p -> (forall a, all_ops P (f a)) -> all_ops P (bind p f).
Proof. intros Hp Hf. induction p; cbn in *; intuition auto. Qed.

Lemma all_ops_catch P {A} (p : prog A) (h : exn -> prog A) :
  all_ops P p -> (forall e, all_ops P (h e)) -> all_ops P (catch p h).
Proof. intros Hp Hh. induction p; cbn in *; intuition auto. Qed.

Lemma all_ops_try_except P {A} (p : prog A) (h : exn -> prog A) :
  all_ops P p -> (forall e, all_ops P (h e)) -> all_ops P (try_except p h).
Proof.
  intros Hp Hh. apply all_ops_catch; [assumption|].
  intros e. destruct (is_exception e); [apply Hh | exact I].
Qed.

Lemma all_ops_try_except_class P c {A} (p : prog A) (h : exn -> prog A) :
  all_ops P p -> (forall e, all_ops P (h e)) -> all_ops P (try_except_class c p h).
Proof.
  intros Hp Hh. apply all_ops_catch; [assumption|].
  intros e. destruct (is_class c e); [apply Hh | exact I].
Qed.

Lemma all_ops_finally P {A} (p : prog A) (f : prog unit) :
  all_ops P p -> all_ops P f -> all_ops P (finally p f).
Proof.
  intros Hp Hf. induction p; cbn in *; intuition auto;
    apply all_ops_bind; auto; intros; exact I.
Qed.

Lemma all_ops_for_each P {X} (xs : list X) (body : X -> prog unit) :
  (forall x, all_ops P (body x)) -> all_ops P (for_each xs body).
Proof.
  intros Hb. induction xs as [|x xs IH]; cbn; [exact I|].
  apply all_ops_bind; auto.
Qed.


(** *** Sequencing under a specification *)

Lemma wp_bind_with {A B} W (Qp : A -> WorkerState -> Prop) (Q : B -> WorkerState -> Prop) R
      (p : prog A) (f : A -> prog B) s :
  wp W Qp (fun _ _ => True) p s ->
  (forall a s', Qp a s' -> wp W Q R (f a) s') ->
  (forall e s', R e s') ->
  wp W Q R (bind p f) s.
Proof.
  intros Hp Hf HR. apply wp_bind. revert Hp. apply wp_mono; auto.
Qed.

Lemma wp_bind_silent {A B} W (Q : B -> WorkerState -> Prop) R
      (p : prog A) (f : A -> prog B) s :
  all_writes W p ->
  (forall a s', wp W Q R (f a) s') ->
  (forall e s', R e s') ->
  wp W Q R (bind p f) s.
Proof.
  intros Hp Hf HR. apply wp_bind_with with (Qp := fun _ _ => True); auto.
  now apply wp_writes.
Qed.
Module Worker.

Lemma interp_active_task env w :
  interp env active_task w = (Returned (active_of w), w).
Proof.
  unfold active_task, active_of. cbn.
  destruct (run_task (state w)); reflexivity.
Qed.

Lemma handle_run_task_rejected env w cmd_id payload t :
  active_of w = Some t ->
  interp env (handle_run_task cmd_id payload) w
  = (Returned tt, with_write (already_running cmd_id) w).
Proof.
  intros Ht. unfold handle_run_task.
  rewrite interp_bind, interp_active_task, Ht. reflexivity.
Qed.

Lemma handle_run_task_missing env w cmd_id kvs :
  active_of w = None -> task_missing kvs ->
  interp env (handle_run_task cmd_id (PDict kvs)) w
  = (Returned tt, with_write (missing_task cmd_id) w).
Proof.
  unfold task_missing. intros Ha Ht. unfold handle_run_task.
  rewrite interp_bind, interp_active_task, Ha.
  cbn [py_get bind]. unfold dict_get.
  destruct (assoc_get kvs "task") as [[| | |s| | |]|]; try contradiction.
  - cbn [py_str bind]. rewrite Ht. reflexivity.
  - reflexivity.
Qed.

(** C10.  With no run active, a run_task whose payload has no task, or a
    task that is an empty or white-space-only string, is answered by
    run_task.error "Missing task" and starts nothing: that envelope is the
    only thing written, no task is created, the current run id and the
    rest of the state are unchanged. *)
Theorem run_task_without_task env w cmd_id kvs :
  active_of w = None -> task_missing kvs ->
  let r := interp env (handle_run_task cmd_id (PDict kvs)) w in
  result_of r = Returned tt
  /\ out (world_of r) = out w ++ [missing_task cmd_id]
  /\ created (world_of r) = created w
  /\ state (world_of r) = state w
  /\ awaited (world_of r) = awaited w
  /\ cancel_requests (world_of r) = cancel_requests w.
Proof.
  intros Ha Ht r. subst r. rewrite (handle_run_task_missing env w cmd_id kvs Ha Ht).
  repeat split.
Qed.

Lemma run_task_without_task_witness :
  let r := interp (fun _ _ => Val PNone)
             (handle_run_task "7" (PDict [("task", PStr "   ")])) world0 in
  result_of r = Returned tt
  /\ out (world_of r) = out world0 ++ [missing_task "7"]
  /\ created (world_of r) = created world0
  /\ state (world_of r) = state world0
  /\ awaited (world_of r) = awaited world0
  /\ cancel_requests (world_of r) = cancel_requests world0.
Proof.
  apply (run_task_without_task (fun _ _ => Val PNone) world0 "7" [("task", PStr "   ")]);
    reflexivity.
Defined.

(** *** Automation: one step of a structural proof about a program *)

Ltac break_match :=
  match goal with
  | |- context [if ?b then _ else _] =>
      lazymatch b with
      | context [if _ then _ else _] => fail
      | context [match _ with _ => _ end] => fail
      | _ => destruct b eqn:?
      end
  | |- context [match ?x with _ => _ end] =>
      lazymatch x with
      | context [if _ then _ else _] => fail
      | context [match _ with _ => _ end] => fail
      | _ => destruct x eqn:?
      end
  end.

Ltac prog_rule :=
  match goal with
  | |- _ /\ _ => split
  | |- all_writes _ (bind _ _) => apply all_writes_bind
  | |- all_writes _ (try_except _ _) => apply all_writes_try_except
  | |- all_writes _ (try_except_class _ _ _) => apply all_writes_try_except_class
  | |- all_writes _ (finally _ _) => apply all_writes_finally
  | |- all_writes _ (for_each _ _) => apply all_writes_for_each
  | |- silent (bind _ _) => apply all_writes_bind
  | |- silent (try_except _ _) => apply all_writes_try_except
  | |- silent (try_except_class _ _ _) => apply all_writes_try_except_class
  | |- silent (finally _ _) => apply all_writes_finally
  | |- silent (for_each _ _) => apply all_writes_for_each
  | |- no_await (bind _ _) => apply no_await_bind
  | |- no_await (try_except _ _) => apply no_await_try_except
  | |- no_await (try_except_class _ _ _) => apply no_await_try_except_class
  | |- no_await (finally _ _) => apply no_await_finally
  | |- cancel_transparent (bind _ _) => apply cancel_transparent_bind
  | |- cancel_transparent (try_except _ _) => apply cancel_transparent_try_except
  | |- cancel_transparent (try_except_class _ _ _) =>
      apply cancel_transparent_try_except_class; [discriminate| |]
  | |- cancel_transparent (finally _ _) => apply cancel_transparent_finally
  | |- cancel_transparent (for_each _ _) => apply cancel_transparent_for_each
  | |- raises_exceptions (bind _ _) => apply raises_exceptions_bind
  | |- raises_exceptions (try_except _ _) => apply raises_exceptions_try_except
  | |- raises_exceptions (for_each _ _) => apply raises_exceptions_for_each
  | |- never_raises (bind _ _) => apply never_raises_bind
  | |- never_raises (try_except _ _) => apply never_raises_try_except
  | |- keeps _ (bind _ _) => apply keeps_bind
  | |- keeps _ (try_except _ _) => apply keeps_try_except
  | |- keeps _ (try_except_class _ _ _) => apply keeps_try_except_class
  | |- keeps _ (finally _ _) => apply keeps_finally
  end.

Create HintDb prog.

Ltac prog_step :=
  first
    [ exact I
    | assumption
    | reflexivity
    | progress intros
    | prog_rule
    | solve [auto with prog]
    | break_match
    | progress cbn [all_writes no_await cancel_transparent raises_exceptions
                    never_raises keeps
                    call await _write assign get_state pass of_answer
                    getattr getattr_default py_get py_str py_int py_eq py_list
                    format_exc _emit _err path_div bind]
    | progress unfold py_get, py_str, py_int, py_eq, py_list, getattr_default,
        getattr, call, await, format_exc, _write, assign, get_state, pass,
        _emit, _err, path_div, of_answer ].

Ltac prog_auto := repeat prog_step.

Lemma no_await_active_task : no_await active_task.
Proof. unfold active_task. prog_auto. Qed.

#[local] Hint Resolve no_await_active_task : prog.


Lemma no_await_cancel_active : no_await cancel_active.
Proof. unfold cancel_active. prog_auto. Qed.

#[local] Hint Resolve no_await_cancel_active : prog.



(** *** The session manager, structurally *)

Section SessionManager.
Variable P : pyval -> Prop.

Lemma all_writes_import_browser_use : all_writes P _maybe_import_browser_use.
Proof. unfold _maybe_import_browser_use. prog_auto. Qed.

Lemma all_writes_first_existing l : all_writes P (first_existing l).
Proof. induction l; cbn [first_existing]; prog_auto. Qed.

Lemma all_writes_check_profile_lock d : all_writes P (_check_profile_lock d).
Proof. unfold _check_profile_lock. prog_auto. Qed.

Lemma all_writes_safe_awaitable_call t m : all_writes P (_safe_awaitable_call t m).
Proof. unfold _safe_awaitable_call. prog_auto. Qed.

#[local] Hint Resolve all_writes_import_browser_use all_writes_first_existing
  all_writes_check_profile_lock all_writes_safe_awaitable_call : prog.

Lemma all_writes_first_method t l : all_writes P (first_method t l).
Proof. induction l; cbn [first_method]; prog_auto. Qed.

#[local] Hint Resolve all_writes_first_method : prog.

Lemma all_writes_ensure_browser d h ws : all_writes P (_ensure_browser d h ws).
Proof.
  unfold _ensure_browser, _safe_kill_browser, _default_chrome_executable_path.
  prog_auto.
Qed.
End SessionManager.

#[local] Hint Resolve all_writes_import_browser_use all_writes_first_existing
  all_writes_check_profile_lock all_writes_safe_awaitable_call
  all_writes_first_method all_writes_ensure_browser : prog.

Lemma ct_import_browser_use : cancel_transparent _maybe_import_browser_use.
Proof. unfold _maybe_import_browser_use. prog_auto. Qed.

Lemma ct_first_existing l : cancel_transparent (first_existing l).
Proof. induction l; cbn [first_existing]; prog_auto. Qed.

Lemma no_await_check_profile_lock d : no_await (_check_profile_lock d).
Proof. unfold _check_profile_lock. prog_auto. Qed.

Lemma ct_check_profile_lock d : cancel_transparent (_check_profile_lock d).
Proof. apply no_await_cancel_transparent, no_await_check_profile_lock. Qed.

Lemma ct_safe_awaitable_call t m : cancel_transparent (_safe_awaitable_call t m).
Proof. unfold _safe_awaitable_call. prog_auto. Qed.

#[local] Hint Resolve ct_import_browser_use ct_first_existing ct_check_profile_lock
  ct_safe_awaitable_call : prog.

Lemma ct_first_method t l : cancel_transparent (first_method t l).
Proof. induction l; cbn [first_method]; prog_auto. Qed.

#[local] Hint Resolve ct_first_method : prog.

Lemma ct_ensure_browser d h ws : cancel_transparent (_ensure_browser d h ws).
Proof.
  unfold _ensure_browser, _safe_kill_browser, _default_chrome_executable_path.
  prog_auto.
Qed.

(** *** The background run, structurally *)

Lemma is_run_event_emit run_id payload :
  is_run_event run_id (envelope (PStr run_id) "run_task.event" (PDict payload)).
Proof. split; reflexivity. Qed.

#[local] Hint Resolve is_run_event_emit : prog.

Lemma all_writes_persist_screenshot P id step b :
  all_writes P (_persist_screenshot id step b).
Proof. unfold _persist_screenshot, _run_artifacts_dir. prog_auto. Qed.

#[local] Hint Resolve all_writes_persist_screenshot : prog.

Section RunWrites.
Variable id : string.
Lemma all_writes_emit payload : all_writes (is_run_event id) (_emit id payload).
Proof. unfold _emit, _write. cbn. split; [apply is_run_event_emit | exact I]. Qed.

#[local] Hint Resolve all_writes_emit : prog.

Lemma all_writes_page_event ev step ag : all_writes (is_run_event id) (page_event id ev step ag).
Proof. unfold page_event. prog_auto. Qed.

#[local] Hint Resolve all_writes_page_event : prog.

Lemma all_writes_report_model_outputs ag step n :
  all_writes (is_run_event id) (report_model_outputs id ag step n).
Proof. unfold report_model_outputs. prog_auto. Qed.

Lemma all_writes_report_action_results ag step n :
  all_writes (is_run_event id) (report_action_results id ag step n).
Proof. unfold report_action_results. prog_auto. Qed.

Lemma all_writes_report_screenshot ag step : all_writes (is_run_event id) (report_screenshot id ag step).
Proof. unfold report_screenshot. prog_auto. Qed.

#[local] Hint Resolve all_writes_report_model_outputs all_writes_report_action_results
  all_writes_report_screenshot : prog.

Lemma all_writes_run_callback ag cb c : all_writes (is_run_event id) (run_callback id ag cb c).
Proof.
  destruct cb; cbn [run_callback]; unfold on_step_start, on_step_end, multi_act;
    prog_auto.
Qed.

#[local] Hint Resolve all_writes_run_callback : prog.

Lemma all_writes_agent_run ag kw script : forall c,
  all_writes (is_run_event id) (agent_run id ag kw script c).
Proof. induction script; intros c; cbn [agent_run]; prog_auto. Qed.

Lemma all_writes_choose_llm a x y : all_writes (is_run_event id) (choose_llm a x y).
Proof. unfold choose_llm. prog_auto. Qed.
End RunWrites.

#[local] Hint Resolve all_writes_emit all_writes_page_event all_writes_run_callback
  all_writes_agent_run all_writes_choose_llm : prog.

Lemma is_run_event_started id : is_run_event id (started_event id).
Proof. split; reflexivity. Qed.

#[local] Hint Resolve is_run_event_started : prog.

Lemma all_writes_run_agent_steps script a :
  all_writes (is_run_event (run_id a)) (run_agent_steps script a).
Proof.
  unfold run_agent_steps. prog_auto.
Qed.

Lemma ct_page_event id ev step ag : cancel_transparent (page_event id ev step ag).
Proof. unfold page_event. prog_auto. Qed.

Lemma ct_persist_screenshot id step b : cancel_transparent (_persist_screenshot id step b).
Proof. unfold _persist_screenshot, _run_artifacts_dir. prog_auto. Qed.

#[local] Hint Resolve ct_page_event ct_persist_screenshot ct_ensure_browser : prog.

Lemma ct_report_model_outputs id ag step n :
  cancel_transparent (report_model_outputs id ag step n).
Proof. unfold report_model_outputs. prog_auto. Qed.

Lemma ct_report_action_results id ag step n :
  cancel_transparent (report_action_results id ag step n).
Proof. unfold report_action_results. prog_auto. Qed.

Lemma ct_report_screenshot id ag step : cancel_transparent (report_screenshot id ag step).
Proof. unfold report_screenshot. prog_auto. Qed.

#[local] Hint Resolve ct_report_model_outputs ct_report_action_results
  ct_report_screenshot : prog.

Lemma ct_run_callback id ag cb c : cancel_transparent (run_callback id ag cb c).
Proof.
  destruct cb; cbn [run_callback]; unfold on_step_start, on_step_end, multi_act;
    prog_auto.
Qed.

#[local] Hint Resolve ct_run_callback : prog.

Lemma ct_agent_run id ag kw script : forall c,
  cancel_transparent (agent_run id ag kw script c).
Proof. induction script; intros c; cbn [agent_run]; prog_auto. Qed.

Lemma ct_choose_llm a x y : cancel_transparent (choose_llm a x y).
Proof. unfold choose_llm. prog_auto. Qed.

#[local] Hint Resolve ct_agent_run ct_choose_llm : prog.

(** No handler inside the run absorbs a cancellation: delivered at any
    of its awaits, it leaves the [try] block at once. *)
Lemma ct_run_agent_steps script a : cancel_transparent (run_agent_steps script a).
Proof. unfold run_agent_steps. prog_auto. Qed.

(** *** The step callbacks never fail on ordinary exceptions *)

Lemma nr_page_event id ev step ag : never_raises (page_event id ev step ag).
Proof. unfold page_event. prog_auto. Qed.

Lemma re_persist_screenshot id step b : raises_exceptions (_persist_screenshot id step b).
Proof. unfold _persist_screenshot, _run_artifacts_dir. prog_auto. Qed.

#[local] Hint Resolve nr_page_event re_persist_screenshot : prog.

Lemma nr_report_model_outputs id ag step n :
  never_raises (report_model_outputs id ag step n).
Proof. unfold report_model_outputs. prog_auto. Qed.

Lemma nr_report_action_results id ag step n :
  never_raises (report_action_results id ag step n).
Proof. unfold report_action_results. prog_auto. Qed.

Lemma nr_report_screenshot id ag step : never_raises (report_screenshot id ag step).
Proof. unfold report_screenshot. prog_auto. Qed.

Example pad4_examples : pad4 7 = "0007" /\ pad4 4321 = "4321".
Proof. split; reflexivity. Qed.

(** *** The step callbacks *)

Ltac answer_cases env Hcalm :=
  repeat match goal with
         | |- context [env ?n ?op] =>
             let H := fresh "Hc" in
             pose proof (Hcalm n op) as H;
             destruct (env n op) as [?|[[] ?]]; cbn in H |- *; try discriminate H
         end.

Lemma interp_page_event env w id ev step ag :
  calm env ->
  exists m w',
    interp env (page_event id ev step ag) w = (Returned tt, w')
    /\ out w' = out w ++ [m]
    /\ is_step_event id ev step m.
Proof.
  intros Hcalm. unfold page_event. rewrite interp_try_except. cbn.
  answer_cases env Hcalm;
    eexists _, _; (split; [reflexivity|]); cbn; (split; [reflexivity|]);
    repeat split.
Qed.

Lemma is_report_event_emit id ev rest :
  ev = "model_output" \/ ev = "action_result" \/ ev = "screenshot" ->
  is_report_event id
    (envelope (PStr id) "run_task.event" (PDict (("event", PStr ev) :: rest))).
Proof.
  intros H. split; [split; reflexivity|]. cbn.
  destruct H as [->|[->| ->]]; auto.
Qed.

Lemma all_writes_emit_report id ev rest :
  ev = "model_output" \/ ev = "action_result" \/ ev = "screenshot" ->
  all_writes (is_report_event id) (_emit id (("event", PStr ev) :: rest)).
Proof. intros H. cbn. split; [now apply is_report_event_emit | exact I]. Qed.

#[local] Hint Resolve all_writes_emit_report : prog.
#[local] Hint Extern 1 (_ = _ \/ _) => (left; reflexivity) || (right; left; reflexivity)
                                      || (right; right; reflexivity) : prog.

Lemma report_writes_model_outputs id ag step n :
  all_writes (is_report_event id) (report_model_outputs id ag step n).
Proof. unfold report_model_outputs. prog_auto. Qed.

Lemma report_writes_action_results id ag step n :
  all_writes (is_report_event id) (report_action_results id ag step n).
Proof. unfold report_action_results. prog_auto. Qed.

Lemma report_writes_screenshot id ag step :
  all_writes (is_report_event id) (report_screenshot id ag step).
Proof. unfold report_screenshot. prog_auto. Qed.

Lemma returned_exists {A} (r : outcome A * world) a :
  result_of r = Returned a -> r = (Returned a, world_of r).
Proof. destruct r as [o w]. cbn. now intros ->. Qed.

(** C9.  As long as no cancellation is delivered, a step survives any
    failure of its sub-reports.  [on_step_start] returns after emitting
    the step's step_start event.  [on_step_end] runs its four sub-reports
    one after the other, each from where the previous one stopped and
    whatever the previous ones did: each returns, none raises, and the
    last thing emitted is the step's step_end event; before it come only
    model_output, action_result and screenshot events.  In particular a
    frame capture that raises suppresses neither event. *)
Theorem step_events_survive_failures env w id ag c :
  calm env ->
  (exists m w1,
     interp env (on_step_start id ag c) w
       = (Returned (mk_counters (S (step_index c)) (reported_model_outputs c)
                                (reported_action_results c)), w1)
     /\ out w1 = out w ++ [m]
     /\ is_step_event id "step_start" (S (step_index c)) m)
  /\ (let r1 := interp env (report_model_outputs id ag (step_index c)
                              (reported_model_outputs c)) w in
      let r2 := interp env (report_action_results id ag (step_index c)
                              (reported_action_results c)) (world_of r1) in
      let r3 := interp env (report_screenshot id ag (step_index c)) (world_of r2) in
      let r4 := interp env (page_event id "step_end" (step_index c) ag) (world_of r3) in
      exists n1 n2 ws m,
        result_of r1 = Returned n1 /\ result_of r2 = Returned n2
        /\ result_of r3 = Returned tt /\ result_of r4 = Returned tt
        /\ interp env (on_step_end id ag c) w
           = (Returned (mk_counters (step_index c) n1 n2), world_of r4)
        /\ out (world_of r4) = out w ++ ws ++ [m]
        /\ Forall (is_report_event id) ws
        /\ is_step_event id "step_end" (step_index c) m).
Proof.
  intros Hcalm. split.
  - unfold on_step_start. rewrite interp_bind.
    destruct (interp_page_event env w id "step_start" (S (step_index c)) ag Hcalm)
      as (m & w1 & -> & Hout & Hm).
    exists m, w1. cbn. auto.
  - intros r1 r2 r3 r4.
    destruct (never_raises_sound _ env w Hcalm
                (nr_report_model_outputs id ag (step_index c) (reported_model_outputs c)))
      as (n1 & H1).
    destruct (never_raises_sound _ env (world_of r1) Hcalm
                (nr_report_action_results id ag (step_index c) (reported_action_results c)))
      as (n2 & H2).
    destruct (never_raises_sound _ env (world_of r2) Hcalm
                (nr_report_screenshot id ag (step_index c))) as ([] & H3).
    destruct (interp_page_event env (world_of r3) id "step_end" (step_index c) ag Hcalm)
      as (m & w4 & H4 & Hout4 & Hm).
    destruct (all_writes_sound _ _ env w
                (report_writes_model_outputs id ag (step_index c) (reported_model_outputs c)))
      as (ws1 & Hws1 & Hall1).
    destruct (all_writes_sound _ _ env (world_of r1)
                (report_writes_action_results id ag (step_index c)
                   (reported_action_results c)))
      as (ws2 & Hws2 & Hall2).
    destruct (all_writes_sound _ _ env (world_of r2)
                (report_writes_screenshot id ag (step_index c)))
      as (ws3 & Hws3 & Hall3).
    fold r1 in H1, Hws1. fold r2 in H2, Hws2. fold r3 in H3, Hws3. fold r4 in H4.
    exists n1, n2, (ws1 ++ ws2 ++ ws3), m.
    split; [assumption|]. split; [assumption|]. split; [assumption|].
    split; [now rewrite H4|]. split; [|split; [|split; [|exact Hm]]].
    + unfold on_step_end. rewrite interp_bind. fold r1.
      rewrite (returned_exists r1 n1 H1), interp_bind. fold r2.
      rewrite (returned_exists r2 n2 H2), interp_bind. fold r3.
      rewrite (returned_exists r3 tt H3), interp_bind. fold r4.
      rewrite H4. reflexivity.
    + rewrite H4. cbn. rewrite Hout4, Hws3, Hws2, Hws1.
      now rewrite <- !app_assoc.
    + repeat (apply Forall_app; split); assumption.
Qed.

Lemma calm_failing_capture : calm failing_capture.
Proof.
  intros n [name args|acts]; cbn; [|exact I].
  destruct (String.eqb name "import"); cbn; auto.
Qed.

Lemma step_events_survive_failures_witness :
  calm failing_capture
  /\ exists m,
       out (world_of (interp failing_capture
                        (on_step_end "run-1" (PObj 0) (mk_counters 1 0 0)) world0))
       = [m]
       /\ is_step_event "run-1" "step_end" 1 m.
Proof.
  split; [exact calm_failing_capture|].
  destruct (step_events_survive_failures failing_capture world0 "run-1" (PObj 0)
              (mk_counters 1 0 0) calm_failing_capture)
    as (_ & n1 & n2 & ws & m & _ & _ & _ & _ & Hrun & Hout & _ & Hm).
  exists m. split; [|exact Hm].
  rewrite Hrun. cbn [world_of snd]. rewrite Hout.
  revert Hout. vm_compute. intros Hout.
  destruct ws as [|x [|y ws]]; [reflexivity| discriminate Hout | discriminate Hout].
Defined.

(** *** What is already on standard output does not matter *)

Lemma same_but_out_write m w1 w2 :
  same_but_out w1 w2 -> same_but_out (with_write m w1) (with_write m w2).
Proof. unfold same_but_out. cbn. tauto. Qed.

Lemma interp_out_irrelevant {A} env (p : prog A) : forall w1 w2,
  same_but_out w1 w2 ->
  result_of (interp env p w1) = result_of (interp env p w2)
  /\ same_but_out (world_of (interp env p w1)) (world_of (interp env p w2))
  /\ exists ws, out (world_of (interp env p w1)) = out w1 ++ ws
                /\ out (world_of (interp env p w2)) = out w2 ++ ws.
Proof.
  unfold result_of, world_of.
  induction p as [a|e|m k IH|k IH|f k IH|op k IH|op k IH|args k IH|t k IH|t k IH];
    intros w1 w2 Hs; cbn.
  1,2: split; [reflexivity|split; [assumption|exists []; now rewrite !app_nil_r]].
  - destruct (IH (with_write m w1) (with_write m w2) (same_but_out_write m _ _ Hs))
      as (Hr & Hw & ws & H1 & H2).
    split; [assumption|split; [assumption|]].
    exists (m :: ws). rewrite H1, H2. cbn. now rewrite <- !app_assoc.
  - destruct Hs as (Hst & Hrest). rewrite Hst. apply IH. split; assumption.
  - apply (IH (with_state f w1) (with_state f w2)).
    destruct Hs as (Hst & Hrest). unfold same_but_out. cbn. now rewrite Hst.
  - destruct Hs as (Hst & Htk & Hrest). rewrite Htk.
    apply (IH _ (with_call w1) (with_call w2)).
    unfold same_but_out. cbn. rewrite Htk. tauto.
  - destruct Hs as (Hst & Htk & Haw & Hrest). rewrite Htk.
    apply (IH _ (with_await op _ w1) (with_await op _ w2)).
    unfold same_but_out. cbn. rewrite Htk, Haw. tauto.
  - destruct Hs as (Hst & Htk & Haw & Hcr & Hrest). rewrite Hcr.
    apply (IH _ (with_task args w1) (with_task args w2)).
    unfold same_but_out. cbn. rewrite Hcr. tauto.
  - destruct Hs as (Hst & Htk & Haw & Hcr & Hfi & Hca).
    unfold is_finished. rewrite Hfi. apply IH. unfold same_but_out. tauto.
  - destruct Hs as (Hst & Htk & Haw & Hcr & Hfi & Hca).
    apply (IH (with_cancel t w1) (with_cancel t w2)).
    unfold same_but_out. cbn. rewrite Hca. tauto.
Qed.

(** *** The three ways a run ends *)

Lemma interp_run_agent env w script a :
  interp env (_run_agent script a) w =
    match interp env (run_agent_steps script a) w with
    | (Returned text, ws) =>
        (Returned tt,
         with_state (set_agent PNone) (with_write (run_ok (run_id a) text) ws))
    | (Raised e, ws) =>
        match cls e with
        | CancelledError =>
            (Raised e,
             with_state (set_agent PNone) (with_write (run_cancelled (run_id a)) ws))
        | _ =>
            (Returned tt,
             with_state (set_agent PNone)
               (with_write
                  (run_failed (run_id a)
                     (traceback_of (env (ticks ws) (Ext "traceback.format_exc" []))))
                  (with_call ws)))
        end
    end.
Proof.
  unfold _run_agent, run_agent_body.
  rewrite interp_finally, interp_catch, interp_bind.
  destruct (interp env (run_agent_steps script a) w) as [[text|e] ws];
    [reflexivity|].
  destruct e as [[] m]; reflexivity.
Qed.

Lemma run_event_not_terminal id m : is_run_event id m -> is_terminal m = false.
Proof.
  intros [Hty _]. unfold is_terminal, has_type. now rewrite Hty.
Qed.

Lemma filter_terminal_events id evs :
  Forall (is_run_event id) evs -> filter is_terminal evs = [].
Proof.
  induction 1 as [|m evs Hm _ IH]; [reflexivity|].
  cbn. now rewrite (run_event_not_terminal id m Hm).
Qed.

(** Every run ends with exactly one terminal signal, after stream events
    only. *)
Lemma run_agent_one_terminal env w script a :
  exists evs last,
    out (world_of (interp env (_run_agent script a) w)) = out w ++ evs ++ [last]
    /\ Forall (is_run_event (run_id a)) evs
    /\ is_terminal last = true
    /\ id_of last = PStr (run_id a)
    /\ filter is_terminal (evs ++ [last]) = [last].
Proof.
  destruct (all_writes_sound _ _ env w (all_writes_run_agent_steps script a))
    as (evs & Hout & Hall).
  rewrite interp_run_agent. unfold world_of in *.
  assert (Hfilter : forall last, is_terminal last = true ->
            filter is_terminal (evs ++ [last]) = [last]).
  { intros last Hl. rewrite filter_app, (filter_terminal_events _ _ Hall).
    cbn. now rewrite Hl. }
  destruct (interp env (run_agent_steps script a) w) as [[text|e] ws]; cbn in Hout.
  - exists evs, (run_ok (run_id a) text). cbn. rewrite Hout, <- app_assoc.
    repeat (split; [first [reflexivity | assumption]|]). now apply Hfilter.
  - destruct e as [[] m]; cbn;
      eexists evs, _; rewrite Hout, <- app_assoc;
      repeat (split; [first [reflexivity | assumption]|]); now apply Hfilter.
Qed.

(** C4.  A run_task received while a run is active is answered at once
    by run_task.error "A browser task is already running", and that
    envelope is the handler's only effect: the global state, the task
    table, the cancellation requests and the awaits are unchanged.
    Whatever the active run still has to do behaves the same with that
    envelope on standard output as without it, and a run emits exactly one
    terminal signal, after stream events only. *)
Theorem run_task_rejected_while_running :
  (forall env w cmd_id payload t,
     active_of w = Some t ->
     interp env (handle_run_task cmd_id payload) w
     = (Returned tt, with_write (already_running cmd_id) w))
  /\ (forall A (rest : prog A) env w m,
        result_of (interp env rest (with_write m w)) = result_of (interp env rest w)
        /\ same_but_out (world_of (interp env rest (with_write m w)))
                        (world_of (interp env rest w))
        /\ exists ws,
             out (world_of (interp env rest w)) = out w ++ ws
             /\ out (world_of (interp env rest (with_write m w))) = out w ++ [m] ++ ws)
  /\ (forall env w script a,
        exists evs last,
          out (world_of (interp env (_run_agent script a) w)) = out w ++ evs ++ [last]
          /\ Forall (is_run_event (run_id a)) evs
          /\ is_terminal last = true
          /\ id_of last = PStr (run_id a)
          /\ filter is_terminal (evs ++ [last]) = [last]).
Proof.
  split; [|split].
  - intros env w cmd_id payload t Ht. now apply handle_run_task_rejected with (t := t).
  - intros A rest env w m.
    destruct (interp_out_irrelevant env rest (with_write m w) w)
      as (Hr & Hw & ws & H1 & H2).
    { unfold same_but_out. cbn. tauto. }
    split; [assumption|split; [assumption|]].
    exists ws. split; [assumption|]. rewrite H1. cbn. now rewrite <- app_assoc.
  - exact run_agent_one_terminal.
Qed.

Lemma run_task_rejected_while_running_witness :
  interp cancelling (handle_run_task "2" (PDict [("task", PStr "again")])) running_world
  = (Returned tt, with_write (already_running "2") running_world).
Proof.
  destruct run_task_rejected_while_running as (T1 & _ & _).
  apply (T1 cancelling running_world "2" (PDict [("task", PStr "again")]) 0).
  reflexivity.
Defined.

Lemma awaited_run_agent env w script a :
  awaited (world_of (interp env (_run_agent script a) w))
  = awaited (world_of (interp env (run_agent_steps script a) w)).
Proof.
  rewrite interp_run_agent. unfold world_of.
  destruct (interp env (run_agent_steps script a) w) as [[text|e] ws];
    [reflexivity|]. destruct e as [[] m]; reflexivity.
Qed.

Lemma interp_handle_stop env w cmd_id payload t :
  active_of w = Some t ->
  interp env (handle_stop cmd_id payload) w
  = (Returned tt, with_write (stop_ok cmd_id) (with_cancel t w)).
Proof.
  intros Ht. unfold handle_stop, cancel_active.
  rewrite interp_try_except, !interp_bind, interp_active_task, Ht. reflexivity.
Qed.

(** C5.  A stop command requests the cancellation of the active task.
    When the cancellation is delivered at any await of the run, the run
    raises it again, having written after its stream events exactly one
    terminal signal, run_task.cancelled with payload status "cancelled",
    and no run_task.ok or run_task.error; the active-agent reference is
    cleared. *)
Theorem cancelled_run_reports_once :
  (forall env w cmd_id payload t,
     active_of w = Some t ->
     interp env (handle_stop cmd_id payload) w
     = (Returned tt, with_write (stop_ok cmd_id) (with_cancel t w)))
  /\ (forall env w script a l op e,
        let r := interp env (_run_agent script a) w in
        awaited (world_of r) = awaited w ++ l ->
        In (op, Exc e) l -> is_cancel e ->
        result_of r = Raised e
        /\ (exists evs,
              out (world_of r) = out w ++ evs ++ [run_cancelled (run_id a)]
              /\ Forall (is_run_event (run_id a)) evs
              /\ filter is_terminal (evs ++ [run_cancelled (run_id a)])
                 = [run_cancelled (run_id a)])
        /\ agent (state (world_of r)) = PNone).
Proof.
  split; [exact interp_handle_stop|].
  intros env w script a l op e r Hlog Hin He. subst r.
  rewrite awaited_run_agent in Hlog.
  destruct (cancel_transparent_sound _ env w (ct_run_agent_steps script a))
    as (l' & Hl' & Hraise).
  rewrite Hl' in Hlog. apply app_inv_head in Hlog. subst l'.
  specialize (Hraise op e Hin He).
  destruct (all_writes_sound _ _ env w (all_writes_run_agent_steps script a))
    as (evs & Hout & Hall).
  rewrite interp_run_agent. unfold result_of, world_of in *.
  destruct (interp env (run_agent_steps script a) w) as [rs ws].
  cbn in Hraise, Hout. subst rs. unfold is_cancel in He. rewrite He. cbn.
  split; [reflexivity|split; [|reflexivity]].
  exists evs. rewrite Hout, <- app_assoc.
  split; [reflexivity|split; [assumption|]].
  rewrite filter_app, (filter_terminal_events _ _ Hall). reflexivity.
Qed.

Lemma cancelled_run_reports_once_witness :
  interp cancelling (handle_stop "3" (PDict [])) running_world
  = (Returned tt, with_write (stop_ok "3") (with_cancel 0 running_world))
  /\ result_of (interp cancelling (_run_agent [] sample_args) world0)
     = Raised cancellation
  /\ agent (state (world_of (interp cancelling (_run_agent [] sample_args) world0)))
     = PNone.
Proof.
  destruct cancelled_run_reports_once as (T1 & T2).
  split; [apply (T1 cancelling running_world "3" (PDict []) 0); reflexivity|].
  destruct (T2 cancelling world0 [] sample_args
              (awaited (world_of (interp cancelling (_run_agent [] sample_args) world0)))
              (Ext "agent.run" [PStr "x"]) cancellation)
    as (Hr & _ & Hag).
  - reflexivity.
  - vm_compute. right. left. reflexivity.
  - reflexivity.
  - split; assumption.
Defined.

(** *** The dispatcher loop *)







Lemma calm_obliging : calm obliging.
Proof. intros n op. exact I. Qed.


(** A line holding JSON that is not an object: [msg.get] raises outside
    every [try] of [main], which ends the loop; the last line is never
    read. *)
Example non_object_line_ends_the_loop :
  let r := interp obliging
             (main_loop [Line "4" (Some (PInt 4));
                         Line "{...}" (Some (run_task_message "r" [("task", PStr "go")]))])
             world0 in
  result_of r = Raised (mk_exn AttributeError "'int' object has no attribute 'get'")
  /\ out (world_of r) = [] /\ created (world_of r) = [].
Proof. repeat split. Qed.

(** A second run_task right after an accepted one is rejected, and a
    stop that follows requests the cancellation of the first. *)
Example back_to_back_commands :
  let r := interp obliging
             (main_loop
                [Line "{...}" (Some (run_task_message "r1" [("task", PStr "go")]));
                 Line "{...}" (Some (run_task_message "r2" [("task", PStr "go")]));
                 Line "{...}" (Some (PDict [("id", PStr "s"); ("type", PStr "stop")]))])
             world0 in
  result_of r = Returned tt
  /\ out (world_of r) = [already_running "r2"; stop_ok "s"]
  /\ List.length (created (world_of r)) = 1
  /\ cancel_requests (world_of r) = [0]
  /\ current_run_id (state (world_of r)) = Some "r1".
Proof. repeat split. Qed.


(** *** Session configuration *)

Section KeepsSession.
Variable Inv : WorkerState -> Prop.

Lemma keeps_import_browser_use : keeps Inv _maybe_import_browser_use.
Proof. unfold _maybe_import_browser_use. prog_auto. Qed.

Lemma keeps_first_existing l : keeps Inv (first_existing l).
Proof. induction l; cbn [first_existing]; prog_auto. Qed.

Lemma keeps_check_profile_lock d : keeps Inv (_check_profile_lock d).
Proof. unfold _check_profile_lock. prog_auto. Qed.

Lemma keeps_safe_awaitable_call t m : keeps Inv (_safe_awaitable_call t m).
Proof. unfold _safe_awaitable_call. prog_auto. Qed.

#[local] Hint Resolve keeps_safe_awaitable_call : prog.

Lemma keeps_first_method t l : keeps Inv (first_method t l).
Proof. induction l; cbn [first_method]; prog_auto. Qed.
End KeepsSession.

#[local] Hint Resolve keeps_import_browser_use keeps_first_existing
  keeps_check_profile_lock keeps_safe_awaitable_call keeps_first_method : prog.

Lemma keeps_launch_config_ensure_browser a0 p0 d h ws :
  keeps (launch_config a0 p0) (_ensure_browser d h ws).
Proof.
  unfold _ensure_browser, _safe_kill_browser, _default_chrome_executable_path.
  prog_auto.
Qed.

Lemma keeps_executable_ensure_browser e0 d h ws :
  truthy e0 = true -> keeps (executable_is e0) (_ensure_browser d h ws).
Proof.
  intros He0. unfold _ensure_browser.
  apply keeps_bind; [prog_auto|]. intros s0.
  apply keeps_bind; [unfold _safe_kill_browser; prog_auto|].
  intros [b|]; [prog_auto|].
  apply keeps_bind; [prog_auto|]. intros browser_use.
  apply keeps_bind; [prog_auto|]. intros Browser.
  cbn [bind get_state keeps]. intros s5 Hs5.
  unfold executable_is in Hs5. rewrite Hs5, He0. cbn [bind].
  prog_auto.
Qed.

Lemma interp_configure_session env w v args pd :
  interp env (configure_session v args pd) w
  = (Returned tt,
     with_state (fun s =>
                   set_profile_directory (profile_of pd)
                     (set_chrome_args args
                        (if truthy v then set_chrome_executable_path v s else s))) w).
Proof.
  unfold configure_session, profile_of.
  assert (Hblank : forall d, d = "" -> py_strip d = "") by (now intros d ->).
  destruct (truthy v), args as [|x args]; cbn -[py_strip String.eqb];
    destruct pd as [| | |d| | |]; cbn -[py_strip String.eqb]; try reflexivity;
    destruct (String.eqb_spec d "") as [Hd|Hd];
    [rewrite (Hblank d Hd)|destruct (py_strip d =? "")| rewrite (Hblank d Hd)
    |destruct (py_strip d =? "")|rewrite (Hblank d Hd)|destruct (py_strip d =? "")
    |rewrite (Hblank d Hd)|destruct (py_strip d =? "")]; reflexivity.
Qed.

(** What opening a session does to the configuration, for any invariant
    that the configuration step establishes and the session manager
    keeps. *)
Lemma open_browser_establishes Inv env w cmd_id kvs :
  (forall d h ws, keeps Inv (_ensure_browser d h ws)) ->
  Inv (state (world_of
         (interp env (configure_session (dict_get kvs "chrome_executable_path" PNone)
                        (_normalize_chrome_args (dict_get kvs "chrome_args" PNone))
                        (dict_get kvs "profile_directory" PNone)) w))) ->
  Inv (state (world_of (interp env (handle_open_browser cmd_id (PDict kvs)) w))).
Proof.
  intros Hkeeps Hcfg. unfold handle_open_browser.
  cbn [py_get bind]. rewrite interp_try_except, interp_bind.
  rewrite interp_configure_session in *. cbn [world_of snd] in Hcfg.
  set (w1 := with_state _ w) in *.
  assert (Hbody : keeps Inv
            (_ensure_browser (dict_get kvs "user_data_dir" PNone)
               (truthy (dict_get kvs "headless" (PBool false)))
               (dict_get kvs "window_size" PNone) ;;;
             _write (envelope (PStr cmd_id) "open_browser.ok" status_ok))).
  { apply keeps_bind; [apply Hkeeps | intros; exact I]. }
  pose proof (keeps_sound Inv _ env w1 Hbody Hcfg) as Hw2.
  unfold world_of in *.
  destruct (interp env _ w1) as [[[]|e] w2]; cbn in Hw2 |- *; [assumption|].
  destruct (is_exception e); exact Hw2.
Qed.

Lemma normalize_chrome_args_falsy v :
  truthy v = false -> _normalize_chrome_args v = [].
Proof. destruct v as [| | | |[|x l]| |]; cbn; intros H; try reflexivity; discriminate. Qed.

Lemma profile_of_falsy v : truthy v = false -> profile_of v = None.
Proof.
  destruct v as [| | |d| | |]; cbn; intros H; try reflexivity.
  destruct d; [reflexivity | discriminate].
Qed.

(** C8.  For an open_browser command with an object payload: the extra
    launch arguments and the sub-profile are replaced by what the payload
    gives, so a missing or empty value clears them (no arguments, no
    sub-profile); a missing or empty executable path is not assigned, and
    an executable override configured before is still in place when the
    handler returns, whatever the session manager did. *)
Theorem open_browser_configuration env w cmd_id kvs :
  let given_path := dict_get kvs "chrome_executable_path" PNone in
  let given_args := dict_get kvs "chrome_args" PNone in
  let given_profile := dict_get kvs "profile_directory" PNone in
  let after := state (world_of (interp env (handle_open_browser cmd_id (PDict kvs)) w)) in
  chrome_args after = _normalize_chrome_args given_args
  /\ profile_directory after = profile_of given_profile
  /\ (truthy given_args = false -> chrome_args after = [])
  /\ (truthy given_profile = false -> profile_directory after = None)
  /\ (truthy given_path = false ->
      chrome_executable_path
        (state (world_of (interp env (configure_session given_path
                                        (_normalize_chrome_args given_args)
                                        given_profile) w)))
      = chrome_executable_path (state w))
  /\ (truthy given_path = false ->
      truthy (chrome_executable_path (state w)) = true ->
      chrome_executable_path after = chrome_executable_path (state w)).
Proof.
  intros given_path given_args given_profile after.
  assert (Hlaunch : launch_config (_normalize_chrome_args given_args)
                                  (profile_of given_profile) after).
  { apply open_browser_establishes.
    - intros. apply keeps_launch_config_ensure_browser.
    - rewrite interp_configure_session. split; reflexivity. }
  destruct Hlaunch as [Hargs Hprof].
  split; [assumption|]. split; [assumption|].
  split; [intros H; rewrite Hargs; now apply normalize_chrome_args_falsy|].
  split; [intros H; rewrite Hprof; now apply profile_of_falsy|].
  split.
  - intros H. rewrite interp_configure_session. cbn.
    fold given_path. rewrite H. reflexivity.
  - intros H Hconf.
    apply (open_browser_establishes (executable_is (chrome_executable_path (state w)))).
    + intros. now apply keeps_executable_ensure_browser.
    + rewrite interp_configure_session. unfold executable_is. cbn.
      fold given_path. rewrite H. reflexivity.
Qed.

Lemma open_browser_configuration_witness :
  let after := state (world_of (interp obliging
                 (handle_open_browser "1" (PDict [("headless", PBool true)]))
                 configured_world)) in
  chrome_args after = []
  /\ profile_directory after = None
  /\ chrome_executable_path after = PStr "/opt/chrome".
Proof.
  destruct (open_browser_configuration obliging configured_world "1"
              [("headless", PBool true)]) as (_ & _ & Ha & Hp & _ & He).
  split; [exact (Ha eq_refl)|]. split; [exact (Hp eq_refl)|].
  exact (He eq_refl eq_refl).
Defined.

(* ================================================================== *)
(** ** Launch configuration *)
(* ================================================================== *)

Lemma normalize_chrome_args_items items :
  _normalize_chrome_args (PList items)
  = flat_map (fun item =>
                match item with
                | PStr s => if py_strip s =? "" then [] else [py_strip s]
                | _ => []
                end) items.
Proof. reflexivity. Qed.

(** X8.  The launch arguments [_normalize_chrome_args] keeps are the
    strings of the list, stripped, in order, without the blank ones:
    each is non-empty and has no white space at either end; anything
    that is not a list gives no argument; and normalising again changes
    nothing. *)
Theorem chrome_args_are_normalised v :
  Forall (fun s => s <> "" /\ py_strip s = s) (_normalize_chrome_args v)
  /\ _normalize_chrome_args (str_list (_normalize_chrome_args v)) = _normalize_chrome_args v
  /\ ((forall items, v <> PList items) -> _normalize_chrome_args v = []).
Proof.
  split; [|split].
  - destruct v as [| | | |items| |]; try constructor.
    rewrite normalize_chrome_args_items.
    induction items as [|item items IH]; cbn [flat_map]; [constructor|].
    apply Forall_app. split; [|exact IH].
    destruct item as [| | |s| | |]; try constructor.
    destruct (String.eqb_spec (py_strip s) "") as [E|E]; constructor; [|constructor].
    split; [exact E | apply Sanitizer.py_strip_idempotent].
  - destruct v as [| | | |items| |]; try reflexivity.
    unfold str_list. rewrite !normalize_chrome_args_items.
    induction items as [|item items IH]; cbn [flat_map map]; [reflexivity|].
    rewrite map_app, flat_map_app, IH. f_equal.
    destruct item as [| | |s| | |]; try reflexivity.
    destruct (String.eqb_spec (py_strip s) "") as [E|E]; [reflexivity|].
    cbn. rewrite Sanitizer.py_strip_idempotent.
    destruct (String.eqb_spec (py_strip s) ""); [contradiction | reflexivity].
  - intros H. destruct v as [| | | |items| |]; try reflexivity.
    now contradiction (H items).
Qed.

Lemma chrome_args_are_normalised_witness :
  _normalize_chrome_args (PStr "--headless") = [].
Proof.
  destruct (chrome_args_are_normalised (PStr "--headless")) as (_ & _ & H).
  apply H. discriminate.
Defined.





(* ================================================================== *)
(** ** Handlers, structurally *)
(* ================================================================== *)

Ltac prog_rule2 :=
  match goal with
  | |- raises_exceptions (try_except_class _ _ _) => apply raises_exceptions_try_except_class
  | |- raises_exceptions (finally _ _) => apply raises_exceptions_finally
  | |- never_raises (for_each _ _) => apply never_raises_for_each
  | |- all_tasks _ (bind _ _) => apply all_tasks_bind
  | |- all_tasks _ (try_except _ _) => apply all_tasks_try_except
  | |- ends_quietly (bind _ _) => apply ends_quietly_bind
  | |- responds false _ (bind _ _) => apply responds_bind
  | |- responds true _ (try_except _ _) => apply responds_try_except
  | |- responds false _ (try_except _ _) => apply responds_weaken, responds_try_except
  | |- silent _ => unfold silent
  end.

Ltac prog_step2 :=
  first [ prog_step | prog_rule2
        | progress cbn [all_tasks responds ends_quietly] ].

Ltac prog_auto2 := repeat prog_step2.

(** *** Ordinary failures only *)

Lemma re_import_browser_use : raises_exceptions _maybe_import_browser_use.
Proof. unfold _maybe_import_browser_use. prog_auto2. Qed.

Lemma re_first_existing l : raises_exceptions (first_existing l).
Proof. induction l; cbn [first_existing]; prog_auto2. Qed.

Lemma re_check_profile_lock d : raises_exceptions (_check_profile_lock d).
Proof. unfold _check_profile_lock. prog_auto2. Qed.

Lemma nr_safe_awaitable_call t m : raises_exceptions (_safe_awaitable_call t m).
Proof. unfold _safe_awaitable_call. prog_auto2. Qed.

#[local] Hint Resolve re_import_browser_use re_first_existing re_check_profile_lock
  nr_safe_awaitable_call : prog.

Lemma re_first_method t l : raises_exceptions (first_method t l).
Proof. induction l; cbn [first_method]; prog_auto2. Qed.

#[local] Hint Resolve re_first_method : prog.

Lemma re_ensure_browser d h ws : raises_exceptions (_ensure_browser d h ws).
Proof.
  unfold _ensure_browser, _safe_kill_browser, _default_chrome_executable_path.
  prog_auto2.
Qed.

#[local] Hint Resolve re_ensure_browser : prog.

Section HelperWrites.
Variable P : pyval -> Prop.

Lemma all_writes_active_task : all_writes P active_task.
Proof. unfold active_task. prog_auto2. Qed.

Lemma all_writes_cancel_active : all_writes P cancel_active.
Proof. unfold cancel_active, active_task. prog_auto2. Qed.

Lemma all_writes_clamped_chars v d lo hi : all_writes P (clamped_chars v d lo hi).
Proof. unfold clamped_chars. prog_auto2. Qed.

Lemma all_writes_describe_tabs tabs : forall idx, all_writes P (describe_tabs idx tabs).
Proof. induction tabs; intros idx; cbn [describe_tabs]; prog_auto2. Qed.

Lemma all_writes_find_active tabs tid : all_writes P (find_active tabs tid).
Proof. induction tabs; cbn [find_active]; prog_auto2. Qed.

Lemma all_writes_extract_page_text page n : all_writes P (_extract_page_text page n).
Proof. unfold _extract_page_text. prog_auto2. Qed.
End HelperWrites.

#[local] Hint Resolve all_writes_active_task all_writes_cancel_active all_writes_clamped_chars
  all_writes_describe_tabs all_writes_find_active all_writes_extract_page_text : prog.

Lemma nr_active_task : never_raises active_task.
Proof. unfold active_task. prog_auto2. Qed.

Lemma nr_cancel_active : never_raises cancel_active.
Proof. unfold cancel_active, active_task. prog_auto2. Qed.

Lemma nr_clamped_chars v d lo hi : never_raises (clamped_chars v d lo hi).
Proof. unfold clamped_chars. prog_auto2. Qed.

Lemma re_describe_tabs tabs : forall idx, raises_exceptions (describe_tabs idx tabs).
Proof. induction tabs; intros idx; cbn [describe_tabs]; prog_auto2. Qed.

Lemma re_find_active tabs tid : raises_exceptions (find_active tabs tid).
Proof. induction tabs; cbn [find_active]; prog_auto2. Qed.

Lemma nr_extract_page_text page n : never_raises (_extract_page_text page n).
Proof. unfold _extract_page_text. prog_auto2. Qed.

#[local] Hint Resolve nr_active_task nr_cancel_active nr_clamped_chars re_describe_tabs
  re_find_active nr_extract_page_text : prog.
#[local] Hint Resolve never_raises_weaken : prog.

(** *** One reply for each command *)

Lemma reply_to_envelope cmd_id types ty payload :
  In ty types -> reply_to cmd_id types (envelope (PStr cmd_id) ty payload).
Proof. intros H. split; [reflexivity|]. exists ty. split; [assumption | reflexivity]. Qed.

#[local] Hint Extern 1 (reply_to _ _ (envelope _ _ _)) =>
  (apply reply_to_envelope; cbn; tauto) : prog.

Lemma responds_forward_to_agent cmd_id method :
  responds true (reply_to cmd_id [(method ++ ".ok")%string; (method ++ ".error")%string])
           (forward_to_agent cmd_id method).
Proof. unfold forward_to_agent. prog_auto2. Qed.

Lemma responds_handle_stop cmd_id payload :
  responds true (reply_to cmd_id ["stop.ok"; "stop.error"]) (handle_stop cmd_id payload).
Proof. unfold handle_stop. prog_auto2. Qed.

Lemma responds_handle_close_browser cmd_id payload :
  responds true (reply_to cmd_id ["close_browser.ok"; "close_browser.error"])
           (handle_close_browser cmd_id payload).
Proof. unfold handle_close_browser, _safe_kill_browser. prog_auto2. Qed.

Lemma responds_handle_open_browser cmd_id payload :
  responds true (reply_to cmd_id ["open_browser.ok"; "open_browser.error"])
           (handle_open_browser cmd_id payload).
Proof. unfold handle_open_browser, configure_session. prog_auto2. Qed.

Lemma responds_handle_get_tab_context cmd_id payload :
  responds true (reply_to cmd_id ["get_tab_context.ok"; "get_tab_context.error"])
           (handle_get_tab_context cmd_id payload).
Proof. unfold handle_get_tab_context. prog_auto2. Qed.

Lemma responds_handle_read_tab_text cmd_id payload :
  responds true (reply_to cmd_id ["read_tab_text.ok"; "read_tab_text.error"])
           (handle_read_tab_text cmd_id payload).
Proof. unfold handle_read_tab_text. prog_auto2. Qed.


(** *** The dispatcher *)









Lemma dispatch_scalar kvs :
  is_scalar (dict_get kvs "id" PNone) ->
  dispatch (PDict kvs) =
    let cmd_id := id_text (dict_get kvs "id" PNone) in
    let cmd_type := dict_get kvs "type" PNone in
    let payload := py_or (dict_get kvs "payload" PNone) (PDict []) in
    if negb (truthy cmd_type) then unknown_command cmd_id cmd_type
    else
      found <- lookup_command cmd_type ;;
      match found with
      | None => unknown_command cmd_id cmd_type
      | Some h =>
          try_except (h cmd_id payload)
            (fun _ => tb <- format_exc ;; _err (id_or_none cmd_id) "Handler crashed" tb)
      end.
Proof.
  unfold dispatch, is_scalar. cbn [py_get bind].
  destruct (dict_get kvs "id" PNone) as [|[]| | | | |]; cbn; intros H;
    try reflexivity; congruence.
Qed.






(** X12.  A command whose type names no handler is answered by one
    error envelope, "Unknown command: " followed by the text of the
    type ("None" when it is absent), with the id of the command as a
    string, or null when the id is absent or the empty string; nothing
    else happens. *)
Theorem unknown_command_is_reported env w kvs shown :
  is_scalar (dict_get kvs "id" PNone) ->
  simple_text (dict_get kvs "type" PNone) = Some shown ->
  (forall name, dict_get kvs "type" PNone = PStr name ->
                find_handler HANDLERS name = None) ->
  interp env (dispatch (PDict kvs)) w
  = (Returned tt,
     with_write (unknown_reply (id_text (dict_get kvs "id" PNone)) shown) w).
Proof.
  intros Hid Hty Hunknown. rewrite (dispatch_scalar kvs Hid). cbv zeta.
  destruct (dict_get kvs "type" PNone) as [|[]|z|name|l|d|o]; cbn in Hty;
    try discriminate; injection Hty as <-; try reflexivity.
  - destruct (negb (truthy (PInt z))); reflexivity.
  - destruct (negb (truthy (PStr name))); [reflexivity|].
    cbn [lookup_command bind]. now rewrite (Hunknown name eq_refl).
Qed.

Lemma unknown_command_is_reported_witness :
  interp obliging (dispatch (PDict [("id", PInt 7); ("type", PStr "reload")])) world0
  = (Returned tt, with_write (unknown_reply "7" "reload") world0)
  /\ interp obliging (dispatch (PDict [("id", PStr "")])) world0
     = (Returned tt,
        with_write (envelope PNone "error"
                      (PDict [("message", PStr "Unknown command: None")])) world0).
Proof.
  split.
  - apply (unknown_command_is_reported obliging world0
             [("id", PInt 7); ("type", PStr "reload")] "reload");
      [discriminate | reflexivity |].
    intros name [= <-]. reflexivity.
  - apply (unknown_command_is_reported obliging world0 [("id", PStr "")] "None");
      [discriminate | reflexivity | discriminate].
Defined.

Lemma py_get_bad_payload {A} v key default (k : pyval -> prog A) :
  bad_payload v ->
  exists e, is_exception e = true /\ (x <- py_get v key default ;; k x) = Raise e.
Proof.
  intros [_ Hv].
  destruct v as [| | | | |kvs|]; try (now contradiction (Hv kvs));
    eexists; (split; [|reflexivity]); reflexivity.
Qed.

(** X13.  A payload that is not an object makes [run_task] (with no run
    active) and [close_all_windows] fail outside their own handlers: the
    dispatcher reports one error envelope "Handler crashed", with the
    traceback when there is one, and goes on; no run is created and the
    state is unchanged. *)
Theorem malformed_payload_is_reported env w kvs name :
  is_scalar (dict_get kvs "id" PNone) ->
  dict_get kvs "type" PNone = PStr name ->
  name = "run_task" \/ name = "close_all_windows" ->
  bad_payload (dict_get kvs "payload" PNone) ->
  active_of w = None ->
  interp env (dispatch (PDict kvs)) w
  = (Returned tt,
     with_write (crash_reply (id_text (dict_get kvs "id" PNone))
                   (traceback_of (env (ticks w) (Ext "traceback.format_exc" []))))
                (with_call w)).
Proof.
  intros Hid Hty Hname Hbad Hidle. rewrite (dispatch_scalar kvs Hid). cbv zeta.
  rewrite Hty.
  assert (Hp : py_or (dict_get kvs "payload" PNone) (PDict [])
               = dict_get kvs "payload" PNone)
    by (unfold py_or; now rewrite (proj1 Hbad)).
  rewrite Hp.
  destruct Hname as [-> | ->]; cbn [truthy negb String.eqb Ascii.eqb Bool.eqb
                                     lookup_command bind HANDLERS find_handler].
  - rewrite interp_try_except. unfold handle_run_task.
    rewrite interp_bind, interp_active_task, Hidle.
    destruct (py_get_bad_payload (dict_get kvs "payload" PNone) "task" (PStr "")
                (fun task_v => task_s <- py_str task_v ;;
                   if py_strip task_s =? "" then
                     _write (envelope (PStr (id_text (dict_get kvs "id" PNone)))
                               "run_task.error"
                               (PDict [("message", PStr "Missing task")]))
                   else Ret tt) Hbad) as (e & He & _).
    destruct (dict_get kvs "payload" PNone) as [| | | | |d|] eqn:E;
      try (now contradiction (proj2 Hbad d)); reflexivity.
  - rewrite interp_try_except. unfold handle_close_all_windows.
    destruct (dict_get kvs "payload" PNone) as [| | | | |d|] eqn:E;
      try (now contradiction (proj2 Hbad d)); reflexivity.
Qed.

Lemma malformed_payload_is_reported_witness :
  interp obliging
    (dispatch (PDict [("id", PStr "9"); ("type", PStr "run_task");
                      ("payload", PStr "open the page")])) world0
  = (Returned tt, with_write (crash_reply "9" (PStr "x")) (with_call world0)).
Proof.
  apply (malformed_payload_is_reported obliging world0
           [("id", PStr "9"); ("type", PStr "run_task");
            ("payload", PStr "open the page")] "run_task").
  - discriminate.
  - reflexivity.
  - now left.
  - split; [reflexivity | discriminate].
  - reflexivity.
Defined.

(** *** Stop, pause and resume *)

Lemma interp_cancel_active env w :
  interp env cancel_active w = (Returned tt, stopped w).
Proof.
  unfold cancel_active, stopped.
  rewrite interp_bind, interp_active_task.
  destruct (active_of w); reflexivity.
Qed.

Lemma active_of_stopped w : active_of (stopped w) = active_of w.
Proof. unfold stopped. destruct (active_of w) eqn:E; [|exact E]. exact E. Qed.



(** X15.  [pause] and [resume] are forwarded to the agent of the active
    run and to nothing else.  With no agent registered they answer ok
    and make no call; with one, they call the method once on that agent
    and answer ok when it returns, and the .error envelope with the
    traceback when it raises an ordinary exception. *)
Theorem pause_and_resume_are_forwarded env w cmd_id method :
  (agent (state w) = PNone ->
   interp env (forward_to_agent cmd_id method) w
   = (Returned tt, with_write (method_ok cmd_id method) w))
  /\ (agent (state w) <> PNone ->
      forall v, env (ticks w) (Ext method [agent (state w)]) = Val v ->
      interp env (forward_to_agent cmd_id method) w
      = (Returned tt, with_write (method_ok cmd_id method) (with_call w)))
  /\ (agent (state w) <> PNone ->
      forall e, env (ticks w) (Ext method [agent (state w)]) = Exc e ->
      is_exception e = true ->
      interp env (forward_to_agent cmd_id method) w
      = (Returned tt,
         with_write (method_error cmd_id method
                       (traceback_of (env (S (ticks w)) (Ext "traceback.format_exc" []))))
                    (with_call (with_call w)))).
Proof.
  unfold forward_to_agent. destruct w as [s o tk aw cr fin cq]. cbn [state ticks].
  split; [|split].
  - intros Ha. cbn. rewrite Ha. reflexivity.
  - intros Ha v Hv.
    destruct (agent s) eqn:E; try congruence; cbn; rewrite E; cbn; rewrite E, Hv; reflexivity.
  - intros Ha e He Hex.
    destruct (agent s) eqn:E; try congruence; cbn; rewrite E; cbn; rewrite E, He; cbn;
      rewrite Hex; reflexivity.
Qed.

Lemma pause_and_resume_are_forwarded_witness :
  interp obliging (handle_pause "p" (PDict [])) world0
  = (Returned tt, with_write (method_ok "p" "pause") world0)
  /\ interp obliging (handle_resume "r" (PDict []))
            (with_state (set_agent (PObj 1)) world0)
     = (Returned tt,
        with_write (method_ok "r" "resume")
          (with_call (with_state (set_agent (PObj 1)) world0))).
Proof.
  split.
  - destruct (pause_and_resume_are_forwarded obliging world0 "p" "pause") as (H & _).
    apply H. reflexivity.
  - destruct (pause_and_resume_are_forwarded obliging
                (with_state (set_agent (PObj 1)) world0) "r" "resume") as (_ & H & _).
    apply (H ltac:(discriminate) (PStr "x")). reflexivity.
Defined.

(* ================================================================== *)
(** ** The session manager, by runs *)
(* ================================================================== *)

Lemma same_but_calls_refl w : same_but_calls w w.
Proof. repeat split. Qed.

Lemma same_but_calls_trans w1 w2 w3 :
  same_but_calls w1 w2 -> same_but_calls w2 w3 -> same_but_calls w1 w3.
Proof. unfold same_but_calls. intuition congruence. Qed.

Lemma raises_exceptions_sound {A} (p : prog A) env : forall w e,
  calm env -> raises_exceptions p ->
  result_of (interp env p w) = Raised e -> is_exception e = true.
Proof.
  unfold result_of. intros w e Hcalm. revert w.
  induction p as [a|e'|m k IH|k IH|f k IH|op k IH|op k IH|args k IH|t k IH|t k IH];
    intros w Hp; cbn in *; eauto; try discriminate.
  intros [= <-]. assumption.
Qed.

(** One attempt: the method is looked up, and awaited when it exists. *)
Lemma safe_awaitable_call_run env w target method :
  let r := interp env (_safe_awaitable_call target method) w in
  same_but_calls w (world_of r)
  /\ ((awaited (world_of r) = awaited w /\ result_of r <> Returned true)
      \/ exists a,
           awaited (world_of r) = awaited w ++ [(Ext method [target], a)]
           /\ match a with
              | Val _ => result_of r = Returned true
              | Exc e => if is_exception e then result_of r = Returned false
                         else result_of r = Raised e
              end).
Proof.
  unfold _safe_awaitable_call, getattr_default. cbn.
  destruct (env (ticks w) (Ext "getattr" [target; PStr method])) as [fn|e].
  - cbn. destruct (is_none fn).
    + split; [repeat split|]. left. split; [reflexivity | discriminate].
    + cbn. split.
      * destruct (env (S (ticks w)) (Ext method [target])) as [v|e]; cbn;
          [|destruct (is_exception e)]; repeat split.
      * right. exists (env (S (ticks w)) (Ext method [target])). split.
        -- destruct (env (S (ticks w)) (Ext method [target])) as [v|e]; cbn;
             [|destruct (is_exception e)]; reflexivity.
        -- destruct (env (S (ticks w)) (Ext method [target])) as [v|e]; cbn;
             [reflexivity|]. destruct (is_exception e); reflexivity.
  - destruct (cls e); cbn; (split; [repeat split|]); left;
      (split; [reflexivity | discriminate]).
Qed.

Lemma first_method_run env target methods : forall w,
  let r := interp env (first_method target methods) w in
  same_but_calls w (world_of r)
  /\ exists failed rest,
       awaited (world_of r) = awaited w ++ failed ++ rest
       /\ Forall failed_attempt failed
       /\ (rest = []
           \/ exists op a, rest = [(op, a)]
                /\ match a with
                   | Val _ => result_of r = Returned tt
                   | Exc e => result_of r = Raised e /\ is_exception e = false
                   end)
       /\ List.length (failed ++ rest) <= List.length methods.
Proof.
  induction methods as [|m methods IH]; intros w; cbn [first_method].
  - split; [apply same_but_calls_refl|]. exists [], []. cbn.
    rewrite app_nil_r. repeat split; auto.
  - cbv zeta. rewrite interp_bind.
    pose proof (safe_awaitable_call_run env w target m) as Hcall. cbv zeta in Hcall.
    unfold result_of, world_of in *.
    destruct (interp env (_safe_awaitable_call target m) w) as [[ok|e] w1] eqn:E.
    + cbn [fst snd] in Hcall. destruct Hcall as (Hsame & Hlog).
      destruct ok.
      * cbn. split; [assumption|].
        destruct Hlog as [[_ Hr]|(a & Ha & Hres)]; [congruence|].
        destruct a as [v|e']; [|destruct (is_exception e'); discriminate].
        exists [], [(Ext m [target], Val v)]. cbn.
        split; [assumption|]. split; [constructor|].
        split; [right; eexists _, _; split; [reflexivity|]; cbn; auto | lia].
      * specialize (IH w1). cbv zeta in IH.
        destruct (interp env (first_method target methods) w1) as [r w2].
        cbn [fst snd] in *. destruct IH as (Hsame2 & failed & rest & Hl & Hf & Hrest & Hlen).
        split; [eapply same_but_calls_trans; eassumption|].
        destruct Hlog as [[Ha _]|(a & Ha & Hres)].
        -- exists failed, rest. rewrite Hl, Ha.
           repeat split; auto. cbn. lia.
        -- destruct a as [v|e']; [discriminate|].
           destruct (is_exception e') eqn:Ee; [|discriminate].
           exists ((Ext m [target], Exc e') :: failed), rest.
           rewrite Hl, Ha, <- !app_assoc. cbn [app].
           split; [reflexivity|]. split; [constructor; assumption|].
           split; [assumption|]. cbn. lia.
    + cbn [fst snd] in *. destruct Hcall as (Hsame & Hlog).
      split; [assumption|].
      destruct Hlog as [[Ha _]|(a & Ha & Hres)].
      * exists [], []. cbn. rewrite app_nil_r. repeat split; auto. lia.
      * destruct a as [v|e']; [discriminate|].
        destruct (is_exception e') eqn:Ee; [discriminate|].
        injection Hres as <-.
        exists [], [(Ext m [target], Exc e)]. cbn.
        split; [assumption|]. split; [constructor|].
        split; [right; eexists _, _; split; [reflexivity|]; cbn; auto | lia].
Qed.


Example kill_falls_back_to_close :
  awaited (world_of (interp only_close (_safe_kill_browser (PObj 1)) world0))
  = [(Ext "close" [PObj 1], Val PNone)].
Proof. reflexivity. Qed.

Lemma state_stopped w : state (stopped w) = state w.
Proof. unfold stopped. destruct (active_of w); reflexivity. Qed.

Lemma out_stopped w : out (stopped w) = out w.
Proof. unfold stopped. destruct (active_of w); reflexivity. Qed.

Lemma created_stopped w : created (stopped w) = created w.
Proof. unfold stopped. destruct (active_of w); reflexivity. Qed.

(** X17.  [close_browser] releases the session.  Under calm answers it
    returns after one reply.  It first requests the cancellation of an
    active run; then either the hard kill went through (or there was no
    session) and the reply is close_browser.ok with the session handle
    and its profile directory cleared, the rest of the state as it was;
    or looking up a method on the engine object raised, and the reply is
    close_browser.error with the session left registered. *)
Theorem close_browser_releases_the_session env w cmd_id payload :
  calm env ->
  exists w',
    interp env (handle_close_browser cmd_id payload) w = (Returned tt, w')
    /\ cancel_requests w' = cancel_requests (stopped w)
    /\ created w' = created w
    /\ ((out w' = out w ++ [close_browser_ok cmd_id]
         /\ state w' = set_browser_user_data_dir PNone (set_browser PNone (state w)))
        \/ (exists tb, out w' = out w ++ [close_browser_error cmd_id tb]
            /\ state w' = state w /\ browser (state w) <> PNone)).
Proof.
  intros Hcalm. unfold handle_close_browser.
  rewrite interp_try_except, interp_bind, interp_cancel_active.
  pose proof (state_stopped w) as Hs. pose proof (out_stopped w) as Ho.
  pose proof (created_stopped w) as Hc.
  set (w0 := stopped w) in *.
  cbn [bind get_state interp].
  destruct (is_none (browser (state w0))) eqn:Hb; cbn [negb].
  - cbn. eexists. split; [reflexivity|]. cbn.
    split; [reflexivity|]. split; [assumption|]. left.
    rewrite Ho, Hs. split; reflexivity.
  - rewrite interp_bind. cbn [bind get_state interp].
    pose proof (first_method_run env (browser (state w0))
                  ["kill"; "stop"; "close"; "shutdown"; "terminate"] w0) as Hk.
    pose proof (raises_exceptions_sound
                  (first_method (browser (state w0))
                     ["kill"; "stop"; "close"; "shutdown"; "terminate"]) env w0) as Hr.
    cbv zeta in Hk. unfold _safe_kill_browser, result_of, world_of in *.
    destruct (interp env (first_method (browser (state w0))
                            ["kill"; "stop"; "close"; "shutdown"; "terminate"]) w0)
      as [[[]|e] w1].
    + cbn. destruct Hk as ((H1 & H2 & H3 & H4 & H5) & _). cbn [snd] in *.
      eexists. split; [reflexivity|]. cbn.
      split; [symmetry; assumption|]. split; [congruence|]. left.
      rewrite <- H1, <- H2, Ho, Hs. split; reflexivity.
    + cbn [fst] in Hr. rewrite (Hr e Hcalm (re_first_method _ _) eq_refl).
      cbn. destruct Hk as ((H1 & H2 & H3 & H4 & H5) & _). cbn [snd] in *.
      eexists. split; [reflexivity|]. cbn.
      split; [symmetry; assumption|]. split; [congruence|]. right.
      eexists. rewrite <- H1, <- H2, Ho, Hs.
      split; [reflexivity|]. split; [reflexivity|].
      rewrite Hs in Hb. intros E. rewrite E in Hb. discriminate.
Qed.

Lemma close_browser_releases_the_session_witness :
  exists w',
    interp obliging (handle_close_browser "c" (PDict []))
           (with_state (set_browser (PObj 1)) running_world)
    = (Returned tt, w')
    /\ cancel_requests w' = [0]
    /\ browser (state w') = PNone.
Proof.
  destruct (close_browser_releases_the_session obliging
              (with_state (set_browser (PObj 1)) running_world) "c" (PDict [])
              calm_obliging)
    as (w' & Hi & Hc & _ & [[_ Hs] | (tb & Ho & _)]).
  - exists w'. split; [exact Hi|]. split; [exact Hc|]. rewrite Hs. reflexivity.
  - exists w'. split; [exact Hi|]. split; [exact Hc|].
    exfalso. vm_compute in Hi. injection Hi as <-. discriminate Ho.
Defined.

(** *** _ensure_browser *)

Lemma extends_refl w : extends w w.
Proof. exists []. now rewrite app_nil_r. Qed.

Lemma extends_trans w1 w2 w3 : extends w1 w2 -> extends w2 w3 -> extends w1 w3.
Proof. intros [l1 H1] [l2 H2]. exists (l1 ++ l2). now rewrite H2, H1, app_assoc. Qed.

Lemma interp_extends {A} env (p : prog A) : forall w,
  extends w (world_of (interp env p w)).
Proof.
  unfold world_of.
  induction p as [a|e|m k IH|k IH|f k IH|op k IH|op k IH|args k IH|t k IH|t k IH];
    intros w; cbn; try apply extends_refl.
  - exact (IH (with_write m w)).
  - apply IH.
  - exact (IH (with_state f w)).
  - exact (IH _ (with_call w)).
  - eapply extends_trans; [|exact (IH _ (with_await op _ w))].
    eexists. reflexivity.
  - exact (IH _ (with_task args w)).
  - apply IH.
  - exact (IH (with_cancel t w)).
Qed.

(** A sequence returns only if its first part returned. *)
Lemma interp_bind_returned {A B} env (p : prog A) (f : A -> prog B) w b w' :
  interp env (bind p f) w = (Returned b, w') ->
  exists a w1,
    interp env p w = (Returned a, w1) /\ interp env (f a) w1 = (Returned b, w')
    /\ extends w w1.
Proof.
  rewrite interp_bind. pose proof (interp_extends env p w) as He.
  unfold world_of in He.
  destruct (interp env p w) as [[a|e] w1]; [|discriminate].
  intros H. exists a, w1. auto.
Qed.

Ltac bind_returned H Hext a w1 H1 :=
  let He := fresh "He" in
  apply interp_bind_returned in H as (a & w1 & H1 & H & He);
  apply (extends_trans _ _ _ Hext) in He; clear Hext; rename He into Hext.

(** X18.  A live session is reused as it is.  When a session is
    registered and the engine lists its pages, [_ensure_browser] returns
    the registered handle after that one await (after a second one that
    opens a blank page, when there is no page), and leaves the state
    untouched: the directory, the headless flag and the window size it
    was called with are not applied to the running session. *)
Theorem live_session_is_reused env w user_data_dir headless window_size pages :
  browser (state w) <> PNone ->
  env (ticks w) (Ext "get_pages" [browser (state w)]) = Val pages ->
  (truthy pages = true ->
   interp env (_ensure_browser user_data_dir headless window_size) w
   = (Returned (browser (state w)),
      with_await (Ext "get_pages" [browser (state w)]) (Val pages) w))
  /\ (truthy pages = false ->
      forall v,
        env (S (ticks w)) (Ext "new_page" [browser (state w); PStr "about:blank"]) = Val v ->
        interp env (_ensure_browser user_data_dir headless window_size) w
        = (Returned (browser (state w)),
           with_await (Ext "new_page" [browser (state w); PStr "about:blank"]) (Val v)
             (with_await (Ext "get_pages" [browser (state w)]) (Val pages) w))).
Proof.
  intros Hb Hpages. unfold _ensure_browser.
  destruct w as [s o tk aw cr fin cq]. cbn [state ticks] in *.
  split.
  - intros Ht. cbn. destruct (browser s) eqn:E; try congruence; cbn;
      rewrite ?E; cbn; rewrite ?E, Hpages; cbn; rewrite Ht; cbn; rewrite ?E; reflexivity.
  - intros Ht v Hv. cbn. destruct (browser s) eqn:E; try congruence; cbn;
      rewrite ?E; cbn; rewrite ?E, Hpages; cbn; rewrite Ht; cbn; rewrite ?E, Hv; cbn;
      rewrite ?E; reflexivity.
Qed.

Lemma live_session_is_reused_witness :
  interp obliging (_ensure_browser (PStr "/other/profile") true PNone)
         (with_state (set_browser (PObj 1)) world0)
  = (Returned (PObj 1),
     with_await (Ext "get_pages" [PObj 1]) (Val (PStr "x"))
       (with_state (set_browser (PObj 1)) world0)).
Proof.
  destruct (live_session_is_reused obliging (with_state (set_browser (PObj 1)) world0)
              (PStr "/other/profile") true PNone (PStr "x")) as [H _].
  - discriminate.
  - reflexivity.
  - apply H. reflexivity.
Defined.

(** X19.  When [_ensure_browser] returns, the handle it returns is the
    one registered in the state, and the last thing that happened is an
    await by which the engine confirmed that session: its page list, a
    blank page opened in it, or its launch. *)
Theorem ensured_session_is_confirmed env w user_data_dir headless window_size b w' :
  interp env (_ensure_browser user_data_dir headless window_size) w = (Returned b, w') ->
  browser (state w') = b
  /\ exists l oa, awaited w' = awaited w ++ l ++ [oa] /\ confirms b oa.
Proof.
  unfold _ensure_browser. intros H.
  pose proof (extends_refl w) as Hext.
  bind_returned H Hext s0 w0 Hstep. cbn in Hstep. injection Hstep as <- <-.
  bind_returned H Hext reused w1 Hstep.
  destruct reused as [b0|].
  - (* the registered session was verified *)
    cbn in H. injection H as <- <-. clear Hext.
    destruct (is_none (browser (state w))) eqn:Hb; cbn [negb] in Hstep;
      [discriminate|].
    rewrite interp_try_except in Hstep.
    cbn [bind get_state await interp] in Hstep.
    destruct (interp env _ (with_await _ _ w)) as [[r|e] w2] eqn:ET in Hstep.
    + injection Hstep as -> ->.
      destruct (env (ticks w) (Ext "get_pages" [browser (state w)])) as [pages|e] eqn:Ep;
        cbn in ET; [|discriminate].
      destruct (truthy pages); cbn in ET.
      * injection ET as <- <-. split; [reflexivity|].
        exists [], (Ext "get_pages" [browser (state w)], Val pages). cbn.
        split; [reflexivity|]. split; [eexists; reflexivity | cbn; auto].
      * destruct (env (S (ticks w)) (Ext "new_page" [browser (state w); PStr "about:blank"]))
          as [v|e] eqn:En; cbn in ET; [|discriminate].
        injection ET as <- <-. split; [reflexivity|].
        exists [(Ext "get_pages" [browser (state w)], Val pages)],
          (Ext "new_page" [browser (state w); PStr "about:blank"], Val v). cbn.
        rewrite <- app_assoc.
        split; [reflexivity|]. split; [eexists; reflexivity | cbn; auto].
    + destruct (is_exception e); [|discriminate].
      apply interp_bind_returned in Hstep as (? & w3 & _ & Hstep & _).
      cbn in Hstep. discriminate.
  - (* a new session was launched *)
    clear Hstep.
    bind_returned H Hext browser_use w2 Hstep. clear Hstep.
    bind_returned H Hext Browser w3 Hstep. clear Hstep.
    bind_returned H Hext s5 w4 Hstep. clear Hstep.
    bind_returned H Hext executable_path w5 Hstep. clear Hstep.
    bind_returned H Hext checked w6 Hstep. clear Hstep.
    bind_returned H Hext s6 w7 Hstep. clear Hstep.
    bind_returned H Hext b0 w8 Hstep. clear Hstep.
    cbn in H.
    destruct (env (ticks w8) (Ext "start" [b0])) as [v|e] eqn:Es; cbn in H;
      [|discriminate].
    injection H as <- <-. split; [reflexivity|].
    destruct Hext as [l Hl]. exists l, (Ext "start" [b0], Val v). cbn.
    rewrite Hl, <- app_assoc.
    split; [reflexivity|]. split; [eexists; reflexivity | cbn; auto].
Qed.

Lemma ensured_session_is_confirmed_witness :
  let w' := world_of (interp obliging (_ensure_browser PNone false PNone) world0) in
  browser (state w') = PStr "x"
  /\ exists l oa, awaited w' = awaited world0 ++ l ++ [oa] /\ confirms (PStr "x") oa.
Proof.
  apply (ensured_session_is_confirmed obliging world0 PNone false PNone (PStr "x")).
  vm_compute. reflexivity.
Defined.

(** *** The executable and the profile lock *)

Lemma first_existing_run env l : forall w,
  let r := interp env (first_existing l) w in
  let probes := calls env (first_existing l) w in
  same_but_calls w (world_of r)
  /\ ((result_of r = Returned PNone
       /\ map fst probes = map probe l /\ Forall missed probes)
      \/ exists before p after misses a,
           l = before ++ p :: after
           /\ probes = misses ++ [(probe p, a)]
           /\ map fst misses = map probe before /\ Forall missed misses
           /\ match a with
              | Val v => truthy v = true /\ result_of r = Returned (PStr p)
              | Exc e => result_of r = Raised e
              end).
Proof.
  induction l as [|p l IH]; intros w; cbn [first_existing].
  - cbn. split; [apply same_but_calls_refl|]. left.
    split; [reflexivity|]. split; [reflexivity | constructor].
  - cbv zeta. unfold call. cbn [bind interp calls of_answer].
    destruct (env (ticks w) (Ext "os.path.exists" [PStr p])) as [v|e] eqn:E.
    + cbn [bind of_answer]. destruct (truthy v) eqn:Hv.
      * cbn. split; [repeat split|]. right.
        exists [], p, l, [], (Val v). cbn.
        split; [reflexivity|]. split; [reflexivity|]. split; [reflexivity|].
        split; [constructor | split; [exact Hv | reflexivity]].
      * specialize (IH (with_call w)). cbv zeta in IH.
        destruct IH as (Hsame & IH). split.
        { eapply same_but_calls_trans; [|exact Hsame]. repeat split. }
        destruct IH as [(Hr & Hm & Hf) | (before & q & after & misses & a & Hl & Hp & Hm & Hf & Ha)].
        -- left. split; [assumption|]. cbn [map fst]. split; [now rewrite Hm|].
           constructor; [exact Hv | assumption].
        -- right. exists (p :: before), q, after, ((probe p, Val v) :: misses), a.
           rewrite Hp. cbn [map fst app]. rewrite Hm.
           split; [f_equal; exact Hl|]. split; [reflexivity|]. split; [reflexivity|].
           split; [constructor; [exact Hv | assumption] | exact Ha].
    + cbn. split; [repeat split|]. right.
      exists [], p, l, [], (Exc e). cbn.
      split; [reflexivity|]. split; [reflexivity|]. split; [reflexivity|].
      split; [constructor | reflexivity].
Qed.

(** X20.  The default executable is the first candidate that exists.
    The seven known browser paths are probed in their order and the
    search stops at the first hit: every probe before the last answered
    that the path is missing; the result is the path whose probe
    answered true, [None] when all seven are missing, or the exception a
    probe raised.  Nothing else happens. *)
Theorem default_chrome_path_is_first_hit env w :
  let r := interp env _default_chrome_executable_path w in
  let probes := calls env _default_chrome_executable_path w in
  same_but_calls w (world_of r)
  /\ ((result_of r = Returned PNone
       /\ map fst probes = map probe chrome_candidates /\ Forall missed probes)
      \/ exists before p after misses a,
           chrome_candidates = before ++ p :: after
           /\ probes = misses ++ [(probe p, a)]
           /\ map fst misses = map probe before /\ Forall missed misses
           /\ match a with
              | Val v => truthy v = true /\ result_of r = Returned (PStr p)
              | Exc e => result_of r = Raised e
              end).
Proof. exact (first_existing_run env chrome_candidates w). Qed.

Example default_chrome_path_skips_missing :
  result_of (interp only_chromium _default_chrome_executable_path world0)
  = Returned (PStr "/Applications/Chromium.app/Contents/MacOS/Chromium")
  /\ List.length (calls only_chromium _default_chrome_executable_path world0) = 3.
Proof. split; reflexivity. Qed.

Ltac run_cases env :=
  repeat (cbn -[finally];
          match goal with
          | |- context [env ?n ?op] => destruct (env n op) as [?|?] eqn:?
          | |- context [is_exception ?e] => destruct (is_exception e) eqn:?
          | |- context [is_class ?c ?e] => destruct (is_class c e) eqn:?
          | |- context [match cls ?e with _ => _ end] => destruct (cls e) eqn:?
          | |- context [if negb (truthy ?v) then _ else _] => destruct (truthy v) eqn:?
          end);
  cbn -[finally].

(** The section of [_check_profile_lock] that holds the descriptor. *)
Lemma locked_section_calls env w fd :
  exists a1 a2 a3,
    calls env
      (finally
         (finally
            (try_except_class OSError
               (call "fcntl.flock" [fd; PStr "LOCK_EX|LOCK_NB"] ;;; Ret tt)
               (fun _ => Raise profile_in_use))
            (try_except (call "fcntl.flock" [fd; PStr "LOCK_UN"] ;;; Ret tt)
                        (fun _ => pass)))
         (try_except (call "os.close" [fd] ;;; Ret tt) (fun _ => pass))) w
    = [(Ext "fcntl.flock" [fd; PStr "LOCK_EX|LOCK_NB"], a1);
       (Ext "fcntl.flock" [fd; PStr "LOCK_UN"], a2);
       (Ext "os.close" [fd], a3)]
    /\ a1 = env (ticks w) (Ext "fcntl.flock" [fd; PStr "LOCK_EX|LOCK_NB"]).
Proof.
  rewrite !calls_finally.
  run_cases env; eexists _, _, _; split; reflexivity.
Qed.

Ltac calm_cases env Hcalm :=
  repeat (cbn;
          match goal with
          | |- context [env ?n ?op] =>
              let H := fresh "Hc" in
              pose proof (Hcalm n op) as H;
              destruct (env n op) as [?|[[] ?]]; cbn in H; try discriminate H
          end);
  cbn.

Lemma locked_section_raises env w fd e :
  calm env ->
  env (ticks w) (Ext "fcntl.flock" [fd; PStr "LOCK_EX|LOCK_NB"]) = Exc e ->
  cls e = OSError ->
  fst (interp env
         (finally
            (finally
               (try_except_class OSError
                  (call "fcntl.flock" [fd; PStr "LOCK_EX|LOCK_NB"] ;;; Ret tt)
                  (fun _ => Raise profile_in_use))
               (try_except (call "fcntl.flock" [fd; PStr "LOCK_UN"] ;;; Ret tt)
                           (fun _ => pass)))
            (try_except (call "os.close" [fd] ;;; Ret tt) (fun _ => pass))) w)
  = Raised profile_in_use.
Proof.
  intros Hcalm Ha He.
  rewrite !interp_finally. cbn. rewrite Ha. cbn.
  unfold is_class. rewrite He. cbn.
  calm_cases env Hcalm; reflexivity.
Qed.

(** X21.  The profile lock check cleans up after itself.  Without a
    profile directory it makes no call at all.  Whenever it opened the
    lock file, closing that descriptor is the last call it makes,
    whatever the lock attempt did.  And, under calm answers, when the
    lock attempt raises [OSError] the check raises the "profile is
    already in use" error. *)
Theorem profile_lock_descriptor_is_closed env w user_data_dir :
  (truthy user_data_dir = false ->
   interp env (_check_profile_lock user_data_dir) w = (Returned tt, w)
   /\ calls env (_check_profile_lock user_data_dir) w = [])
  /\ (forall lock_path fd,
        In (Ext "os.open" [lock_path; PStr "O_RDWR"], Val fd)
           (calls env (_check_profile_lock user_data_dir) w) ->
        exists l a,
          calls env (_check_profile_lock user_data_dir) w
          = l ++ [(Ext "os.close" [fd], a)])
  /\ (calm env ->
      forall fd e,
        In (Ext "fcntl.flock" [fd; PStr "LOCK_EX|LOCK_NB"], Exc e)
           (calls env (_check_profile_lock user_data_dir) w) ->
        cls e = OSError ->
        result_of (interp env (_check_profile_lock user_data_dir) w)
        = Raised profile_in_use).
Proof.
  unfold _check_profile_lock. split; [|split].
  - intros ->. split; reflexivity.
  - intros lock_path fd. destruct (truthy user_data_dir); cbn [negb]; [|intros []].
    run_cases env.
    all: try (intros H; repeat (destruct H as [H|H]; try discriminate H); contradiction).
    all: match goal with
         | |- context [calls ?ev (finally ?p ?c) ?w'] =>
             match c with
             | context [Ext "os.close" [?fd0]] =>
                 let Hc := fresh "Hc" in
                 destruct (locked_section_calls ev w' fd0) as (a1 & a2 & a3 & Hc & _);
                 let Hc' := fresh "Hc" in
                 assert (Hc' : calls ev (finally p c) w'
                               = [(Ext "fcntl.flock" [fd0; PStr "LOCK_EX|LOCK_NB"], a1);
                                  (Ext "fcntl.flock" [fd0; PStr "LOCK_UN"], a2);
                                  (Ext "os.close" [fd0], a3)]) by exact Hc;
                 rewrite Hc'
             end
         end.
    all: intros H; repeat (destruct H as [H|H]; try discriminate H); try contradiction.
    all: injection H as <- <-.
    all: eexists [_; _; _; _; _; _], _; reflexivity.
  - intros Hcalm fd e.
    destruct (truthy user_data_dir); cbn [negb]; [|intros []].
    unfold result_of. run_cases env.
    all: try (intros H; repeat (destruct H as [H|H]; try discriminate H); contradiction).
    all: match goal with
         | |- context [calls ?ev (finally ?p ?c) ?w'] =>
             match c with
             | context [Ext "os.close" [?fd0]] =>
                 let Hc := fresh "Hc" in
                 destruct (locked_section_calls ev w' fd0) as (a1 & a2 & a3 & Hc & Ha1);
                 let Hc' := fresh "Hc" in
                 assert (Hc' : calls ev (finally p c) w'
                               = [(Ext "fcntl.flock" [fd0; PStr "LOCK_EX|LOCK_NB"], a1);
                                  (Ext "fcntl.flock" [fd0; PStr "LOCK_UN"], a2);
                                  (Ext "os.close" [fd0], a3)]) by exact Hc;
                 rewrite Hc'
             end
         end.
    all: intros H He; repeat (destruct H as [H|H]; try discriminate H);
      try contradiction.
    all: injection H as <- ->; symmetry in Ha1.
    all: exact (locked_section_raises _ _ _ _ Hcalm Ha1 He).
Qed.

Lemma calm_profile_locked : calm profile_locked.
Proof.
  intros n [name args|acts]; [|exact I]. unfold profile_locked.
  repeat match goal with
         | |- calm_answer (match ?x with _ => _ end) => destruct x
         end; exact I || reflexivity.
Qed.

Lemma profile_lock_descriptor_is_closed_witness :
  result_of (interp profile_locked (_check_profile_lock (PStr "/profile")) world0)
  = Raised profile_in_use
  /\ exists l a,
       calls profile_locked (_check_profile_lock (PStr "/profile")) world0
       = l ++ [(Ext "os.close" [PStr "x"], a)].
Proof.
  destruct (profile_lock_descriptor_is_closed profile_locked world0 (PStr "/profile"))
    as (_ & Hclose & Hraise).
  split.
  - apply (Hraise calm_profile_locked (PStr "x")
             (mk_exn OSError "Resource temporarily unavailable")); [|reflexivity].
    vm_compute. do 4 right. left. reflexivity.
  - apply (Hclose (PStr "x")). vm_compute. do 3 right. left. reflexivity.
Defined.

(** *** What the session manager and the tab handlers call *)

Ltac ops_rule :=
  match goal with
  | |- all_ops _ (bind _ _) => apply all_ops_bind
  | |- all_ops _ (try_except _ _) => apply all_ops_try_except
  | |- all_ops _ (try_except_class _ _ _) => apply all_ops_try_except_class
  | |- all_ops _ (finally _ _) => apply all_ops_finally
  | |- all_ops _ (for_each _ _) => apply all_ops_for_each
  end.


Section Construction.
Variable headless : bool.
Variable user_data_dir : pyval.
Variable window_size : pyval.







End Construction.


Lemma read_only_safe_awaitable_call t m :
  read_only (Ext m [t]) -> all_ops read_only (_safe_awaitable_call t m).
Proof.
  intros Hm. unfold _safe_awaitable_call, getattr_default.
  repeat first [ exact I | assumption | reflexivity | progress intros | ops_rule
               | match goal with
                 | |- _ /\ _ => split
                 | |- all_ops _ (of_answer ?a) => destruct a; exact I
                 | |- all_ops _ (if ?b then _ else _) => destruct b
                 | |- all_ops _ (match ?x with _ => _ end) => destruct x
                 end
               | progress cbn [all_ops bind] ].
Qed.

Lemma read_only_kill t : all_ops read_only (_safe_kill_browser t).
Proof.
  unfold _safe_kill_browser. cbn [first_method].
  repeat (apply all_ops_bind;
          [apply read_only_safe_awaitable_call; reflexivity | intros []; [exact I|]]).
  exact I.
Qed.

Ltac read_only_auto :=
  repeat first
    [ exact I | assumption | reflexivity | progress intros | ops_rule
    | match goal with
      | |- _ /\ _ => split
      | |- all_ops _ (_safe_kill_browser _) => apply read_only_kill
      | |- all_ops _ (of_answer ?a) => destruct a; exact I
      | |- all_ops _ (if ?b then _ else _) => destruct b
      | |- all_ops _ (match ?x with _ => _ end) => destruct x
      end
    | solve [auto with prog]
    | progress cbn [all_ops call await getattr getattr_default get_state assign bind
                    of_answer pass py_get py_str py_int py_eq py_list format_exc _write]
    | progress unfold py_get, py_str, py_int, py_eq, py_list, getattr_default,
        getattr, call, await, format_exc, _write, assign, get_state, pass ].

Lemma read_only_first_existing l : all_ops read_only (first_existing l).
Proof. induction l; cbn [first_existing]; read_only_auto. Qed.

Lemma read_only_check_profile_lock d : all_ops read_only (_check_profile_lock d).
Proof. unfold _check_profile_lock. read_only_auto. Qed.

#[local] Hint Resolve read_only_first_existing read_only_check_profile_lock : prog.

Lemma read_only_ensure_browser d h ws : all_ops read_only (_ensure_browser d h ws).
Proof.
  unfold _ensure_browser, _maybe_import_browser_use, _default_chrome_executable_path.
  read_only_auto.
Qed.

Lemma read_only_clamped_chars v d lo hi : all_ops read_only (clamped_chars v d lo hi).
Proof. unfold clamped_chars. read_only_auto. Qed.

Lemma read_only_describe_tabs tabs : forall idx, all_ops read_only (describe_tabs idx tabs).
Proof. induction tabs; intros idx; cbn [describe_tabs]; read_only_auto. Qed.

Lemma read_only_find_active tabs tid : all_ops read_only (find_active tabs tid).
Proof. induction tabs; cbn [find_active]; read_only_auto. Qed.

Lemma read_only_extract_page_text page n : all_ops read_only (_extract_page_text page n).
Proof. unfold _extract_page_text. read_only_auto. Qed.

#[local] Hint Resolve read_only_ensure_browser read_only_clamped_chars
  read_only_describe_tabs read_only_find_active read_only_extract_page_text : prog.


(* ================================================================== *)
(** ** Replies, runs and the agent *)
(* ================================================================== *)

(** X24.  Each of the seven handlers that answer by themselves replies
    once, with the id it was given and a type made of its command name
    and [.ok] or [.error]: under calm answers the handler returns, and
    what it wrote is exactly that one envelope, whatever the payload
    is. *)
Theorem handlers_reply_once_in_their_name env w name h cmd_id payload :
  calm env ->
  find_handler HANDLERS name = Some h ->
  name <> "run_task" -> name <> "close_all_windows" ->
  exists m w',
    interp env (h cmd_id payload) w = (Returned tt, w')
    /\ out w' = out w ++ [m]
    /\ reply_to cmd_id [(name ++ ".ok")%string; (name ++ ".error")%string] m.
Proof.
  intros Hcalm Hh Hrun Hall.
  assert (H : responds true
                (reply_to cmd_id [(name ++ ".ok")%string; (name ++ ".error")%string])
                (h cmd_id payload)).
  { revert Hh. unfold HANDLERS. cbn [find_handler].
    repeat match goal with
           | |- context [String.eqb ?k name] =>
               destruct (String.eqb_spec k name) as [<-|_];
               [intros [= <-];
                first [ congruence
                      | apply responds_handle_open_browser
                      | apply responds_handle_get_tab_context
                      | apply responds_handle_read_tab_text
                      | apply responds_forward_to_agent
                      | apply responds_handle_stop
                      | apply responds_handle_close_browser ]|]
           end.
    discriminate. }
  destruct (responds_sound _ _ env w Hcalm H) as ([] & m & w' & Hi & Ho & Hm).
  exists m, w'. repeat split; try assumption; apply Hm.
Qed.

Lemma handlers_reply_once_in_their_name_witness :
  exists m w',
    interp obliging (handle_get_tab_context "t" (PInt 3)) world0 = (Returned tt, w')
    /\ out w' = out world0 ++ [m]
    /\ reply_to "t" ["get_tab_context.ok"; "get_tab_context.error"] m.
Proof.
  apply (handlers_reply_once_in_their_name obliging world0 "get_tab_context"
           handle_get_tab_context "t" (PInt 3)).
  - exact calm_obliging.
  - reflexivity.
  - discriminate.
  - discriminate.
Defined.

Lemma stripped_or_none_stripped v : stripped_option (stripped_or_none v).
Proof.
  unfold stripped_or_none, stripped_option. destruct v; try exact I.
  destruct (String.eqb_spec (py_strip s) ""); [exact I|].
  split; [assumption | apply Sanitizer.py_strip_idempotent].
Qed.

Lemma all_tasks_handle_run_task cmd_id payload :
  all_tasks (normalised_run cmd_id) (handle_run_task cmd_id payload).
Proof.
  unfold handle_run_task, active_task.
  repeat first
    [ exact I | progress intros | prog_rule2
    | match goal with
      | |- _ /\ _ => split
      | |- normalised_run _ _ =>
          unfold normalised_run; cbn [run_id ra_task browser_use_model openai_api_key
                                      openai_base_url openai_model];
          repeat split;
          first [ apply stripped_or_none_stripped
                | apply Sanitizer.py_strip_idempotent
                | idtac ]
      | |- all_tasks _ (if ?b then _ else _) => destruct b eqn:?
      | |- all_tasks _ (match ?x with _ => _ end) => destruct x eqn:?
      end
    | progress cbn [all_tasks bind get_state assign _write py_get py_str py_int
                    call of_answer]
    | progress unfold py_get, py_str, py_int, assign, _write, get_state ].
  all: match goal with
       | H : (py_strip ?s =? "") = false |- py_strip ?s <> "" =>
           intros E; rewrite E in H; discriminate H
       end.
Qed.

(** X25.  The runs [handle_run_task] starts have normalised arguments:
    the run is named after the command, its task is a non-empty string
    without white space at either end, and the model, the key, the base
    URL and the OpenAI model are each absent or non-empty and stripped:
    a blank or non-string value never reaches the run. *)
Theorem started_runs_are_normalised env w cmd_id payload :
  exists l,
    created (world_of (interp env (handle_run_task cmd_id payload) w)) = created w ++ l
    /\ Forall (normalised_run cmd_id) l.
Proof. apply all_tasks_sound, all_tasks_handle_run_task. Qed.

Lemma wp_run_agent script a s :
  wp (fun _ => True) (fun _ s' => agent s' = PNone)
     (fun e s' => agent s' = PNone /\ is_cancel e) (_run_agent script a) s.
Proof.
  unfold _run_agent. apply wp_finally.
  apply wp_mono with (W := fun _ => True) (Q := fun _ _ => True)
                     (R := fun e _ => is_cancel e);
    [auto | intros; reflexivity | intros e s' He; split; [reflexivity | exact He] |].
  apply wp_catch.
  apply wp_mono with (W := fun _ => True) (Q := fun _ _ => True) (R := fun _ _ => True);
    [auto | auto | |].
  - intros e s' _. unfold is_cancel.
    destruct (cls e) eqn:E; cbn; auto.
  - apply wp_writes. unfold run_agent_body.
    apply all_writes_bind; [|intros; cbn; auto].
    eapply all_writes_mono; [|apply all_writes_run_agent_steps]. auto.
Qed.

(** X26.  However a run ends, the agent is released.  When [_run_agent]
    finishes, by returning after run_task.ok or run_task.error or by
    re-raising a cancellation, the registered agent is [None] again, so
    a later pause or resume finds nothing to forward to; and a
    cancellation is the only exception a run lets out. *)
Theorem run_always_releases_the_agent env w script a :
  let r := interp env (_run_agent script a) w in
  agent (state (world_of r)) = PNone
  /\ match result_of r with
     | Returned _ => True
     | Raised e => is_cancel e
     end.
Proof.
  cbv zeta.
  destruct (wp_sound _ _ _ _ env w (wp_run_agent script a (state w))) as [_ H].
  destruct (result_of (interp env (_run_agent script a) w)); [auto | exact H].
Qed.

(* ================================================================== *)
(** ** Tab inspection *)
(* ================================================================== *)

Lemma substring_length s : forall n, String.length (substring 0 n s) <= n.
Proof.
  induction s as [|c s IH]; intros [|n]; cbn; try lia.
  specialize (IH n). lia.
Qed.

Ltac wp_cases :=
  repeat (cbn;
          match goal with
          | |- forall _, _ => intros
          | |- _ /\ _ => split
          | |- context [of_answer ?a] => destruct a
          | |- context [match ?a with Val _ => _ | Exc _ => _ end] => destruct a
          | |- context [match ?v with PNone => _ | _ => _ end] => destruct v
          | |- context [if ?b then _ else _] => destruct b eqn:?
          end);
  cbn.

Lemma wp_clamped_chars W v d lo hi s :
  (lo <= hi)%Z ->
  wp W (fun n _ => (lo <= n <= hi)%Z) (fun _ _ => True) (clamped_chars v d lo hi) s.
Proof.
  intros Hle. unfold clamped_chars.
  destruct v as [|[]|z|t|l|kvs|o]; wp_cases; try exact I; lia.
Qed.

Lemma wp_extract_page_text W page n s :
  wp W (fun t _ => String.length t <= Z.to_nat n) (fun _ _ => True)
     (_extract_page_text page n) s.
Proof.
  unfold _extract_page_text, py_prefix.
  wp_cases; try exact I; try apply substring_length; lia.
Qed.

Ltac wp_skip HR :=
  apply wp_bind_silent; [prog_auto2 | intros ? ? | exact HR].

Ltac wp_skip_as HR x :=
  apply wp_bind_silent; [prog_auto2 | intros x ? | exact HR].

Lemma wp_handle_read_tab_text cmd_id payload s :
  wp text_reply_ok (fun _ _ => True) (fun _ _ => True)
     (handle_read_tab_text cmd_id payload) s.
Proof.
  unfold handle_read_tab_text. apply wp_try_except.
  match goal with
  | |- wp _ _ ?R _ _ => assert (HR : forall e s', R e s')
  end.
  { intros e s'. destruct (is_exception e); [|exact I].
    cbn. intros a. split; [intros H; discriminate H | exact I]. }
  wp_skip HR. wp_skip HR. wp_skip HR.
  apply wp_bind_with with (Qp := fun n _ => (200 <= n <= 16000)%Z);
    [apply wp_clamped_chars; lia | intros max_chars ? Hmax | exact HR].
  wp_skip HR. wp_skip HR. wp_skip HR. wp_skip HR. wp_skip HR.
  match goal with
  | |- wp _ _ _ (if ?b then _ else _) _ => destruct b eqn:Hidx
  end.
  - cbn. split; [intros H; discriminate H | exact I].
  - wp_skip HR. wp_skip HR.
    match goal with
    | |- wp _ _ _ (if ?b then _ else _) _ => destruct b
    end.
    + cbn. split; [intros H; discriminate H | exact I].
    + apply wp_bind_with with (Qp := fun t _ => String.length t <= Z.to_nat max_chars);
        [apply wp_extract_page_text | intros text ? Htext | exact HR].
      cbn. split; [|exact I]. intros _.
      eexists _, text. split; [reflexivity|]. split; [|split; [reflexivity|]].
      * apply orb_false_iff in Hidx as [Hidx _]. apply Z.ltb_ge in Hidx. exact Hidx.
      * lia.
Qed.

(** X27.  A read_tab_text.ok reply is bounded.  Whatever the payload
    asks for and whatever the engine answers, the text of an ok reply
    has at most 16000 characters and its index is not negative: a
    missing, negative or unreadable index is never answered with ok. *)
Theorem read_tab_text_reply_is_bounded env w cmd_id payload :
  exists ms,
    out (world_of (interp env (handle_read_tab_text cmd_id payload) w)) = out w ++ ms
    /\ Forall text_reply_ok ms.
Proof.
  exact (proj1 (wp_sound _ _ _ _ env w (wp_handle_read_tab_text cmd_id payload (state w)))).
Qed.

Example read_tab_text_reads_a_tab :
  out (world_of (interp one_tab
                   (handle_read_tab_text "r" (PDict [("index", PInt 0)])) world0))
  = [envelope (PStr "r") "read_tab_text.ok"
       (PDict [("index", PInt 0); ("text", PStr "x")])].
Proof. reflexivity. Qed.

Lemma wp_describe_tabs W tabs : forall idx s,
  wp W (fun described _ => indexed idx described
                           /\ List.length described = List.length tabs)
     (fun _ _ => True) (describe_tabs idx tabs) s.
Proof.
  induction tabs as [|tab tabs IH]; intros idx s; cbn [describe_tabs].
  - cbn. auto.
  - unfold getattr_default. cbn [bind wp].
    intros a1. destruct a1 as [v1|e1]; [|destruct (is_class AttributeError e1)];
      cbn [bind wp]; try exact I;
      (intros a2; destruct a2 as [v2|e2]; [|destruct (is_class AttributeError e2)];
       cbn [bind wp]; try exact I;
       (intros a3; destruct a3 as [v3|e3]; [|destruct (is_class AttributeError e3)];
        cbn [bind wp]; try exact I;
        (apply wp_bind_with with
           (Qp := fun described _ => indexed (S idx) described
                                     /\ List.length described = List.length tabs);
         [apply IH | | auto];
         intros others s' [Hi Hl]; cbn; split; [|now rewrite Hl];
         split; [eexists; split; reflexivity | exact Hi]))).
Qed.

Lemma indexed_index idx tabs t :
  indexed idx tabs -> In t tabs ->
  exists kvs i, t = PDict kvs /\ dict_get kvs "index" PNone = PInt (Z.of_nat i)
                /\ idx <= i < idx + List.length tabs.
Proof.
  revert idx. induction tabs as [|t' tabs IH]; intros idx Hi Hin; [contradiction|].
  destruct Hi as [(kvs & -> & Hk) Hi]. destruct Hin as [<-|Hin].
  - exists kvs, idx. cbn. repeat split; auto; lia.
  - destruct (IH (S idx) Hi Hin) as (kvs' & i & Ht & Hk' & Hr).
    exists kvs', i. cbn. repeat split; auto; lia.
Qed.

Lemma wp_find_active W tabs target_id s :
  (forall t, In t tabs ->
     exists kvs i, t = PDict kvs /\ dict_get kvs "index" PNone = PInt (Z.of_nat i)
                   /\ i < List.length tabs) ->
  wp W (fun v _ => v = PNone \/ exists i, v = PInt (Z.of_nat i) /\ i < List.length tabs)
     (fun _ _ => True) (find_active tabs target_id) s.
Proof.
  generalize (List.length tabs) as n. intros n.
  induction tabs as [|t tabs IH]; intros Hall; cbn [find_active].
  - cbn. now left.
  - destruct (Hall t (or_introl eq_refl)) as (kvs & i & -> & Hk & Hi).
    cbn [py_get bind].
    assert (Hrest : wp W (fun v _ => v = PNone \/ exists i, v = PInt (Z.of_nat i) /\ i < n)
                       (fun _ _ => True) (find_active tabs target_id) s).
    { apply IH. intros t' Ht'. apply Hall. now right. }
    assert (Hhit : wp W (fun v _ => v = PNone \/ exists i, v = PInt (Z.of_nat i) /\ i < n)
                      (fun _ _ => True) (Ret (dict_get kvs "index" PNone)) s).
    { cbn. right. exists i. auto. }
    unfold py_eq.
    destruct (dict_get kvs "target_id" PNone), target_id; cbn [bind wp];
      try (intros a; destruct a; cbn [bind wp of_answer]; try exact I);
      repeat match goal with
             | |- wp _ _ _ (if ?b then _ else _) _ => destruct b
             end; assumption.
Qed.

Lemma wp_handle_get_tab_context cmd_id payload s :
  wp context_reply_ok (fun _ _ => True) (fun _ _ => True)
     (handle_get_tab_context cmd_id payload) s.
Proof.
  unfold handle_get_tab_context. apply wp_try_except.
  match goal with
  | |- wp _ _ ?R _ _ => assert (HR : forall e s', R e s')
  end.
  { intros e s'. destruct (is_exception e); [|exact I].
    cbn. intros a. split; [intros H; discriminate H | exact I]. }
  wp_skip_as HR include_v. wp_skip HR.
  apply wp_bind_with with (Qp := fun n _ => (200 <= n <= 8000)%Z);
    [apply wp_clamped_chars; lia | intros max_chars ? Hmax | exact HR].
  wp_skip HR. wp_skip HR. wp_skip HR. wp_skip HR. wp_skip HR.
  match goal with
  | |- wp _ _ _ (bind (describe_tabs 0 ?objs) _) _ =>
      apply wp_bind_with with
        (Qp := fun tabs _ => indexed 0 tabs /\ List.length tabs = List.length objs);
      [apply wp_describe_tabs | intros tabs ? [Hidx _] | exact HR]
  end.
  assert (Hall : forall t, In t tabs ->
            exists kvs i, t = PDict kvs /\ dict_get kvs "index" PNone = PInt (Z.of_nat i)
                          /\ i < List.length tabs).
  { intros t Ht. destruct (indexed_index 0 tabs t Hidx Ht) as (kvs & i & H1 & H2 & H3).
    exists kvs, i. repeat split; auto; lia. }
  apply wp_bind_with with
    (Qp := fun v _ => v = PNone \/ exists i, v = PInt (Z.of_nat i) /\ i < List.length tabs);
    [|intros found ? Hfound | exact HR].
  { apply wp_try_except. cbn [await bind wp].
    intros ans. destruct ans as [info|e]; cbn [of_answer bind wp];
      [|destruct (is_exception e); cbn; auto].
    apply wp_bind_with with (Qp := fun _ _ => True).
    - destruct info; cbn; auto.
    - intros target_id ? _. destruct (truthy target_id); [|cbn; now left].
      apply wp_mono with
        (W := context_reply_ok)
        (Q := fun v (_ : WorkerState) =>
                v = PNone \/ exists i, v = PInt (Z.of_nat i) /\ i < List.length tabs)
        (R := fun _ _ => True);
        [auto | auto | intros e ? _; destruct (is_exception e); cbn; auto
        | apply wp_find_active; exact Hall].
    - intros e ?. destruct (is_exception e); cbn; auto. }
  cbv zeta.
  apply wp_bind_with with (Qp := fun v _ => excerpt_ok v);
    [|intros excerpt ? Hex | exact HR].
  { destruct (truthy include_v); [|cbn; now left].
    apply wp_try_except. cbn [await bind wp].
    intros pg. destruct pg as [page|e]; cbn [of_answer bind wp];
      [|destruct (is_exception e); cbn; unfold excerpt_ok; auto].
    destruct (is_none page); cbn [negb]; [cbn; now left|].
    apply wp_bind_with with (Qp := fun t _ => String.length t <= Z.to_nat max_chars);
      [apply wp_extract_page_text | |].
    - intros t ? Ht. cbn. right. exists t. split; [reflexivity | lia].
    - intros e ?. destruct (is_exception e); cbn; unfold excerpt_ok; auto. }
  cbn. split; [|exact I]. intros _.
  exists tabs. split; [reflexivity|]. split; [exact Hidx|]. split; [|exact Hex].
  unfold valid_active. change (field_of _ "active_index") with
    (if is_none found && truthy (PList tabs) then PInt 0 else found).
  destruct Hfound as [-> | (i & -> & Hi)].
  - destruct tabs as [|t tabs']; cbn; [now left|].
    right. exists 0. split; [reflexivity | lia].
  - cbn. right. exists i. auto.
Qed.

(** X28.  A get_tab_context.ok reply is well formed.  Whatever the
    engine answers, its tabs are numbered from zero in order; its active
    index names one of them, and is null exactly when there is no tab;
    and its excerpt is null or a text of at most 8000 characters. *)
Theorem tab_context_reply_is_well_formed env w cmd_id payload :
  exists ms,
    out (world_of (interp env (handle_get_tab_context cmd_id payload) w)) = out w ++ ms
    /\ Forall context_reply_ok ms.
Proof.
  exact (proj1 (wp_sound _ _ _ _ env w
                  (wp_handle_get_tab_context cmd_id payload (state w)))).
Qed.

Example tab_context_lists_a_tab :
  out (world_of (interp one_tab (handle_get_tab_context "c" (PDict [])) world0))
  = [envelope (PStr "c") "get_tab_context.ok"
       (PDict [("tabs", PList [PDict [("index", PInt 0); ("title", PStr "x");
                                      ("url", PStr "x"); ("target_id", PStr "x")]]);
               ("active_index", PInt 0);
               ("active_text_excerpt", PStr "x")])].
Proof. reflexivity. Qed.

(* ================================================================== *)
(** ** close_all_windows *)
(* ================================================================== *)

Lemma ticks_stopped w : ticks (stopped w) = ticks w.
Proof. unfold stopped. destruct (active_of w); reflexivity. Qed.

Lemma awaited_stopped w : awaited (stopped w) = awaited w.
Proof. unfold stopped. destruct (active_of w); reflexivity. Qed.

(** A loop whose body is one await that cannot fail. *)
Lemma for_each_awaits {X} env (op : X -> ext_op) (body : X -> prog unit) xs :
  (forall x w, interp env (body x) w
               = (Returned tt, with_await (op x) (env (ticks w) (op x)) w)) ->
  forall w,
  exists w' l,
    interp env (for_each xs body) w = (Returned tt, w')
    /\ awaited w' = awaited w ++ l
    /\ map fst l = map op xs
    /\ same_but_calls w w'.
Proof.
  intros Hbody. induction xs as [|x xs IH]; intros w; cbn [for_each].
  - exists w, []. cbn. rewrite app_nil_r. repeat split.
  - rewrite interp_bind, Hbody.
    destruct (IH (with_await (op x) (env (ticks w) (op x)) w))
      as (w' & l & Hi & Ha & Hm & Hs).
    exists w', ((op x, env (ticks w) (op x)) :: l).
    split; [exact Hi|]. split; [rewrite Ha; cbn; now rewrite <- app_assoc|].
    split; [cbn; now rewrite Hm|].
    eapply same_but_calls_trans; [|exact Hs]. repeat split.
Qed.

(** X29.  [close_all_windows] keeps the first page.  With a session
    registered and pages open, and under calm answers, it reconnects,
    lists the pages, closes every page after the first in order, sends
    the first page to about:blank and answers close_all_windows.ok; the
    only pages closed are those after the first, a failure to reconnect,
    to close a page or to navigate is ignored, and the state, the
    registered session included, is as it was. *)
Theorem close_all_windows_keeps_first_page env w cmd_id kvs page pages :
  calm env ->
  truthy (dict_get kvs "keep_session" (PBool true)) = true ->
  browser (state w) <> PNone ->
  env (S (ticks w)) (Ext "get_pages" [browser (state w)]) = Val (PList (page :: pages)) ->
  exists w' reconnect closes navigate,
    interp env (handle_close_all_windows cmd_id (PDict kvs)) w = (Returned tt, w')
    /\ awaited w'
       = awaited w
           ++ [(Ext "start" [browser (state w)], reconnect);
               (Ext "get_pages" [browser (state w)], Val (PList (page :: pages)))]
           ++ closes
           ++ [(Ext "page.goto" [page; PStr "about:blank"], navigate)]
    /\ map fst closes = map (fun p => Ext "close_page" [browser (state w); p]) pages
    /\ out w' = out w ++ [close_all_windows_ok cmd_id]
    /\ state w' = state w.
Proof.
  intros Hcalm Hkeep Hb Hpages. unfold handle_close_all_windows.
  cbn [py_get bind]. rewrite Hkeep. cbn [negb].
  rewrite interp_try_except, interp_bind, interp_cancel_active.
  pose proof (state_stopped w) as Hs. pose proof (out_stopped w) as Ho.
  pose proof (ticks_stopped w) as Ht. pose proof (awaited_stopped w) as Ha.
  set (w0 := stopped w) in *.
  cbn [bind get_state interp]. rewrite Hs.
  destruct (is_none (browser (state w))) eqn:Hn;
    [destruct (browser (state w)); try discriminate; congruence|].
  cbn [interp]. rewrite Hs.
  set (b := browser (state w)) in *.
  assert (Hbody : forall p w1,
            interp env (try_except (await "close_page" [b; p] ;;; Ret tt)
                                   (fun _ => pass)) w1
            = (Returned tt,
               with_await (Ext "close_page" [b; p])
                          (env (ticks w1) (Ext "close_page" [b; p])) w1)).
  { intros p w1. cbn. pose proof (Hcalm (ticks w1) (Ext "close_page" [b; p])) as Hc.
    destruct (env (ticks w1) (Ext "close_page" [b; p])) as [v|e]; cbn in Hc |- *;
      [reflexivity | rewrite Hc; reflexivity]. }
  rewrite interp_bind, interp_try_except.
  unfold await at 1. cbn [bind interp of_answer]. rewrite Ht.
  pose proof (Hcalm (ticks w) (Ext "start" [b])) as Hc0.
  set (a0 := env (ticks w) (Ext "start" [b])) in *.
  set (w1 := with_await (Ext "start" [b]) a0 w0).
  assert (Hstart : (let (o, w'0) := interp env (of_answer a0 ;;; Ret tt) w1 in
                    match o with
                    | Returned a => (Returned a, w'0)
                    | Raised e => if is_exception e then interp env pass w'0
                                  else (Raised e, w'0)
                    end) = (Returned tt, w1)).
  { destruct a0 as [v|e]; cbn in Hc0 |- *; [reflexivity | rewrite Hc0; reflexivity]. }
  rewrite Hstart. clear Hstart.
  unfold await at 1. cbn [bind interp].
  assert (Ht1 : ticks w1 = S (ticks w)) by (cbn; now rewrite Ht).
  rewrite Ht1, Hpages.
  set (w2 := with_await (Ext "get_pages" [b]) (Val (PList (page :: pages))) w1).
  cbn [of_answer bind interp truthy negb py_list tl hd].
  destruct (for_each_awaits env (fun p => Ext "close_page" [b; p]) _ pages Hbody w2)
    as (w3 & closes & Hi & Ha3 & Hm & Hsame).
  rewrite interp_bind, Hi, interp_bind, interp_try_except.
  unfold await. cbn [bind interp].
  pose proof (Hcalm (ticks w3) (Ext "page.goto" [page; PStr "about:blank"])) as Hc4.
  set (a4 := env (ticks w3) (Ext "page.goto" [page; PStr "about:blank"])) in *.
  destruct Hsame as (Hs3 & Ho3 & _).
  exists (with_write (close_all_windows_ok cmd_id)
            (with_await (Ext "page.goto" [page; PStr "about:blank"]) a4 w3)),
    a0, closes, a4.
  split.
  { destruct a4 as [v|e]; cbn in Hc4 |- *; [reflexivity | rewrite Hc4; reflexivity]. }
  cbn. rewrite Ha3, <- Ho3, <- Hs3. cbn. rewrite Ha, Ho, Hs.
  split; [now rewrite <- !app_assoc|]. split; [exact Hm|]. split; reflexivity.
Qed.

Lemma calm_three_pages : calm three_pages.
Proof.
  intros n [name args|acts]; [|exact I]. unfold three_pages.
  repeat match goal with
         | |- calm_answer (match ?x with _ => _ end) => destruct x
         end; exact I || reflexivity.
Qed.

Lemma close_all_windows_keeps_first_page_witness :
  exists w' reconnect closes navigate,
    interp three_pages (handle_close_all_windows "7" (PDict []))
           (with_state (set_browser (PObj 1)) world0) = (Returned tt, w')
    /\ awaited w'
       = [(Ext "start" [PObj 1], reconnect);
          (Ext "get_pages" [PObj 1], Val (PList [PObj 10; PObj 11; PObj 12]))]
           ++ closes
           ++ [(Ext "page.goto" [PObj 10; PStr "about:blank"], navigate)]
    /\ map fst closes
       = [Ext "close_page" [PObj 1; PObj 11]; Ext "close_page" [PObj 1; PObj 12]]
    /\ out w' = [close_all_windows_ok "7"]
    /\ state w' = state (with_state (set_browser (PObj 1)) world0).
Proof.
  apply (close_all_windows_keeps_first_page three_pages
           (with_state (set_browser (PObj 1)) world0) "7" []
           (PObj 10) [PObj 11; PObj 12]).
  - exact calm_three_pages.
  - reflexivity.
  - discriminate.
  - reflexivity.
Defined.

End Worker.
